(** * Translation QA engine: a shallow embedding of [qaEngine.ts] and
    [fileParser.ts], and the properties of its specification.

    The engine is TypeScript.  Strings are sequences of UTF-16 code units,
    numbers are IEEE-754 doubles, rule functions draw a fresh identifier
    from [Math.random] whenever they build an issue, and the decoders push
    units onto a growing array.  The embedding keeps all of that:

    - a string is a [list N] of code units ([jsstring]);
    - the regular expressions of the source are terms of a small regex
      syntax, run by a backtracking matcher with the priorities of
      ECMAScript (greedy quantifiers, leftmost alternative first);
    - doubles are Rocq's primitive floats;
    - [Math.random] and [new Date] read a [World] that is threaded through
      every function that calls them;
    - what the host provides and the repository does not define (Unicode
      case mapping, [JSON.parse], [DOMParser], [Number.prototype.toFixed])
      is a field of the [Platform] class. *)

From Stdlib Require Import NArith ZArith List String Ascii Bool Lia.
From Stdlib Require Import Floats Uint63 DecimalString.
From stdpp Require Import base option list countable gmap.
Import ListNotations.

Set Warnings "-register-all".
Local Open Scope N_scope.
Local Open Scope list_scope.

(** ** Strings *)

Module JsString.

(** A JavaScript string: its UTF-16 code units. *)
Definition jsstring : Type := list N.

(** An ASCII literal of the source, as code units. *)
Fixpoint js (s : string) : jsstring :=
  match s with
  | EmptyString => []
  | String a rest => N_of_ascii a :: js rest
  end.

Fixpoint str_eqb (a b : jsstring) : bool :=
  match a, b with
  | [], [] => true
  | x :: a', y :: b' => N.eqb x y && str_eqb a' b'
  | _, _ => false
  end.

(** [s.length] *)
Definition strlen (s : jsstring) : nat := List.length s.

(** [!s] is true of the empty string only. *)
Definition truthy (s : jsstring) : bool :=
  match s with [] => false | _ => true end.

(** WhiteSpace and LineTerminator code points of ECMAScript: what
    [String.prototype.trim] strips and what [\s] matches. *)
Definition is_space (c : N) : bool :=
  (9 <=? c) && (c <=? 13)
  || (c =? 32) || (c =? 160) || (c =? 5760)
  || (8192 <=? c) && (c <=? 8202)
  || (c =? 8232) || (c =? 8233) || (c =? 8239) || (c =? 8287)
  || (c =? 12288) || (c =? 65279).

(** LineTerminator: excluded by [.] *)
Definition is_line_terminator (c : N) : bool :=
  (c =? 10) || (c =? 13) || (c =? 8232) || (c =? 8233).

Definition is_digit (c : N) : bool := (48 <=? c) && (c <=? 57).
Definition is_upper (c : N) : bool := (65 <=? c) && (c <=? 90).
Definition is_lower (c : N) : bool := (97 <=? c) && (c <=? 122).
Definition is_alpha (c : N) : bool := is_upper c || is_lower c.
(** [\w] *)
Definition is_word (c : N) : bool := is_alpha c || is_digit c || (c =? 95).

Fixpoint drop_while (p : N -> bool) (s : jsstring) : jsstring :=
  match s with
  | [] => []
  | c :: t => if p c then drop_while p t else s
  end.

Definition trimStart (s : jsstring) : jsstring := drop_while is_space s.
Definition trimEnd (s : jsstring) : jsstring :=
  rev (drop_while is_space (rev s)).
(** [s.trim()] *)
Definition trim (s : jsstring) : jsstring := trimEnd (trimStart s).

(** [s.startsWith(p)] *)
Fixpoint startsWith (p s : jsstring) : bool :=
  match p, s with
  | [], _ => true
  | x :: p', y :: s' => N.eqb x y && startsWith p' s'
  | _ :: _, [] => false
  end.

(** [s.endsWith(p)] *)
Definition endsWith (p s : jsstring) : bool := startsWith (rev p) (rev s).

(** [s.includes(sub)] *)
Fixpoint includes (sub s : jsstring) : bool :=
  startsWith sub s ||
  match s with
  | [] => false
  | _ :: t => includes sub t
  end.

(** [s.indexOf(sub)]: the first position, or -1. *)
Fixpoint indexOf_from (sub s : jsstring) (i : Z) : Z :=
  if startsWith sub s then i
  else match s with
       | [] => (-1)%Z
       | _ :: t => indexOf_from sub t (i + 1)%Z
       end.
Definition indexOf (sub s : jsstring) : Z := indexOf_from sub s 0%Z.

(** [s.lastIndexOf(sub)]: the last position, or -1. *)
Fixpoint lastIndexOf_from (sub s : jsstring) (i : Z) (found : Z) : Z :=
  let found' := if startsWith sub s then i else found in
  match s with
  | [] => found'
  | _ :: t => lastIndexOf_from sub t (i + 1)%Z found'
  end.
Definition lastIndexOf (sub s : jsstring) : Z :=
  lastIndexOf_from sub s 0%Z (-1)%Z.

(** [s.substring(a, b)]: both ends clamped to [0, s.length], swapped when
    out of order. *)
Definition clamp (len : nat) (i : Z) : nat :=
  Nat.min len (Z.to_nat i).
Definition substring (a b : Z) (s : jsstring) : jsstring :=
  let a' := clamp (strlen s) a in
  let b' := clamp (strlen s) b in
  let lo := Nat.min a' b' in
  let hi := Nat.max a' b' in
  firstn (hi - lo) (skipn lo s).
(** [s.substring(a)] *)
Definition substring_from (a : Z) (s : jsstring) : jsstring :=
  skipn (clamp (strlen s) a) s.

(** [s.slice(-1)]: the last code unit as a string, empty for the empty
    string. *)
Definition slice_last (s : jsstring) : jsstring :=
  skipn (strlen s - 1) s.

(** [s.split(c)] for a one-unit separator [c]. *)
Fixpoint split_on (c : N) (s : jsstring) : list jsstring :=
  match s with
  | [] => [[]]
  | x :: t =>
      if N.eqb x c then [] :: split_on c t
      else match split_on c t with
           | h :: r => (x :: h) :: r
           | [] => [[x]]
           end
  end.

(** [l.join(sep)] *)
Fixpoint join (sep : jsstring) (l : list jsstring) : jsstring :=
  match l with
  | [] => []
  | [x] => x
  | x :: rest => x ++ sep ++ join sep rest
  end.

(** [String(n)] for a non-negative integer. *)
Definition decimal (n : nat) : jsstring :=
  js (NilZero.string_of_uint (Nat.to_uint n)).

(** [l.includes(x)] on an array of strings. *)
Definition mem (x : jsstring) (l : list jsstring) : bool :=
  existsb (str_eqb x) l.

Definition is_ascii (c : N) : bool := c <? 128.
Definition lower_ascii (c : N) : N := if is_upper c then c + 32 else c.
Definition upper_ascii (c : N) : N := if is_lower c then c - 32 else c.

End JsString.
Export JsString.

(** ** Regular expressions

    The fragment of ECMAScript regular expressions the engine uses: no
    flag [u], [m] or [s], so a pattern reads code units, [^] and [$] match
    at the two ends of the string only, and [.] stops at line terminators.
    Quantifiers are greedy.  The matcher is the backtracking matcher of the
    language specification in continuation-passing style: [k] is the rest
    of the pattern, and the first alternative that lets [k] succeed wins. *)

Module Regex.

Inductive regex : Type :=
| Eps
| Chr (p : N -> bool)              (* one code unit satisfying [p] *)
| Seq (a b : regex)
| Alt (a b : regex)
| Opt (a : regex)                  (* a? *)
| Star (a : regex)                 (* a* *)
| Group (n : nat) (a : regex)      (* capturing group number n *)
| Bol                              (* ^ *)
| Eol                              (* $ *)
| WordB.                           (* \b *)

(** a+ *)
Definition Plus (a : regex) : regex := Seq a (Star a).

(** A literal string. *)
Fixpoint Lit (s : jsstring) : regex :=
  match s with
  | [] => Eps
  | c :: t => Seq (Chr (N.eqb c)) (Lit t)
  end.

(** Where the matcher stands: the code unit before the position (none at
    the start of the string), the rest of the string, the position, and
    the captures closed so far (group number, start, end). *)
Record mstate : Type := MState {
  prev : option N;
  rest : jsstring;
  pos : nat;
  caps : list (nat * (nat * nat));
}.

Definition is_word_opt (o : option N) : bool :=
  match o with Some c => is_word c | None => false end.

Fixpoint rmatch (r : regex) (st : mstate) (k : mstate -> option mstate)
  {struct r} : option mstate :=
  match r with
  | Eps => k st
  | Chr p =>
      match rest st with
      | c :: t =>
          if p c then k (MState (Some c) t (S (pos st)) (caps st)) else None
      | [] => None
      end
  | Seq a b => rmatch a st (fun st' => rmatch b st' k)
  | Alt a b =>
      match rmatch a st k with
      | Some r => Some r
      | None => rmatch b st k
      end
  | Opt a =>
      match rmatch a st k with
      | Some r => Some r
      | None => k st
      end
  | Star a =>
      (* an iteration that consumes nothing is refused, so the number of
         iterations is bounded by the length of the rest *)
      (fix star (n : nat) (st : mstate) {struct n} : option mstate :=
         match n with
         | O => k st
         | S n' =>
             match rmatch a st
                     (fun st' =>
                        if (List.length (rest st') <? List.length (rest st))%nat
                        then star n' st' else None) with
             | Some r => Some r
             | None => k st
             end
         end) (List.length (rest st)) st
  | Group n a =>
      rmatch a st
        (fun st' =>
           k (MState (prev st') (rest st') (pos st')
                (caps st' ++ [(n, (pos st, pos st'))])))
  | Bol => match prev st with None => k st | Some _ => None end
  | Eol => match rest st with [] => k st | _ :: _ => None end
  | WordB =>
      if xorb (is_word_opt (prev st)) (is_word_opt (head (rest st)))
      then k st else None
  end.

(** One attempt at the current position. *)
Definition match_here (r : regex) (st : mstate) : option mstate :=
  rmatch r st Some.

(** The state one code unit further. *)
Definition advance (st : mstate) : option mstate :=
  match rest st with
  | [] => None
  | c :: t => Some (MState (Some c) t (S (pos st)) [])
  end.

Definition start_state (s : jsstring) : mstate := MState None s 0 [].

(** A match: where it starts, where it ends, the matched text, and the
    captures. *)
Record rmatch_result : Type := RMatch {
  m_start : nat;
  m_end : nat;
  m_text : jsstring;
  m_caps : list (nat * (nat * nat));
}.

(** The first match at or after the position of [st]: what [exec] finds
    from [lastIndex].  The fuel is the number of positions left. *)
Fixpoint search_from (r : regex) (fuel : nat) (st : mstate)
  : option (rmatch_result * mstate) :=
  match match_here r (MState (prev st) (rest st) (pos st) []) with
  | Some st' =>
      Some (RMatch (pos st) (pos st')
              (firstn (pos st' - pos st) (rest st)) (caps st'), st')
  | None =>
      match fuel with
      | O => None
      | S fuel' =>
          match advance st with
          | Some st1 => search_from r fuel' st1
          | None => None
          end
      end
  end.

(** [re.exec(s)] / [s.match(re)] without the flag [g]: the first match. *)
Definition exec (r : regex) (s : jsstring) : option rmatch_result :=
  option_map fst (search_from r (List.length s) (start_state s)).

(** [re.test(s)] *)
Definition test (r : regex) (s : jsstring) : bool :=
  match exec r s with Some _ => true | None => false end.

(** All matches, left to right, without overlap: what [s.match(re)] with
    the flag [g] lists and what a loop over [re.exec] visits.  After an
    empty match the search moves one code unit on. *)
Fixpoint exec_all_from (r : regex) (fuel : nat) (st : mstate)
  : list rmatch_result :=
  match fuel with
  | O => []
  | S fuel' =>
      match search_from r (List.length (rest st)) st with
      | None => []
      | Some (m, st') =>
          if (m_end m =? m_start m)%nat
          then match advance st' with
               | Some st1 => m :: exec_all_from r fuel' st1
               | None => [m]
               end
          else m :: exec_all_from r fuel' st'
      end
  end.

Definition exec_all (r : regex) (s : jsstring) : list rmatch_result :=
  exec_all_from r (S (List.length s)) (start_state s).

(** [s.match(re) || []] with the flag [g]: the matched texts. *)
Definition match_all (r : regex) (s : jsstring) : list jsstring :=
  map m_text (exec_all r s).

(** The text of capture group [n] of a match ([m[n]]); a group that did
    not take part is [undefined]. *)
Definition capture (s : jsstring) (m : rmatch_result) (n : nat)
  : option jsstring :=
  match List.find (fun c => Nat.eqb (fst c) n) (rev (m_caps m)) with
  | Some (_, (a, b)) => Some (firstn (b - a) (skipn a s))
  | None => None
  end.

(** [s.replace(re, by)] without the flag [g]: the first match replaced. *)
Definition replace_first (r : regex) (by_ : jsstring) (s : jsstring)
  : jsstring :=
  match exec r s with
  | Some m => firstn (m_start m) s ++ by_ ++ skipn (m_end m) s
  | None => s
  end.

(** [s.replace(re, by)] with the flag [g]: every match replaced. *)
Fixpoint splice_all (ms : list rmatch_result) (by_ : jsstring)
  (s : jsstring) (at_ : nat) : jsstring :=
  match ms with
  | [] => skipn at_ s
  | m :: ms' =>
      firstn (m_start m - at_) (skipn at_ s) ++ by_
        ++ splice_all ms' by_ s (m_end m)
  end.
Definition replace_all (r : regex) (by_ : jsstring) (s : jsstring)
  : jsstring :=
  splice_all (exec_all r s) by_ s 0.

(** [s.split(re)]: the separator is tried at each position [q] after the
    last cut [p]; an empty separator match, or one that ends at [p], cuts
    nothing.  [acc] holds the code units since the last cut, reversed. *)
Fixpoint split_loop (r : regex) (fuel : nat) (st : mstate)
  (p : nat) (acc : jsstring) : list jsstring :=
  match fuel with
  | O => [rev acc ++ rest st]
  | S fuel' =>
      match rest st with
      | [] => [rev acc]
      | c :: t =>
          let step := split_loop r fuel' (MState (Some c) t (S (pos st)) [])
                        p (c :: acc) in
          match match_here r (MState (prev st) (rest st) (pos st) []) with
          | Some st' =>
              if (pos st' =? p)%nat then step
              else rev acc :: split_loop r fuel'
                                (MState (prev st') (rest st') (pos st') [])
                                (pos st') []
          | None => step
          end
      end
  end.
Definition split_re (r : regex) (s : jsstring) : list jsstring :=
  match s with
  | [] => match match_here r (start_state s) with
          | Some _ => []
          | None => [[]]
          end
  | _ :: _ => split_loop r (S (2 * List.length s)) (start_state s) 0 []
  end.

End Regex.
Export Regex.

(** ** The data model ([types/translation.ts]) *)

Module Types.

Record TranslationUnit : Type := {
  unit_id : jsstring;
  unit_key : jsstring;
  unit_source : jsstring;
  unit_target : jsstring;
  unit_context : option jsstring;
  unit_notes : option jsstring;
  unit_filePath : jsstring;
  unit_lineNumber : option nat;
  unit_index : nat;
}.

Inductive FileType : Type :=
| FT_json | FT_xliff | FT_sdlxliff | FT_xml | FT_po | FT_pot | FT_strings
| FT_yaml | FT_yml | FT_properties | FT_resx | FT_csv | FT_tmx | FT_tsv.

(** A [Date], as its time value. *)
Definition Date : Type := N.

Record TranslationFile : Type := {
  file_id : jsstring;
  file_name : jsstring;
  file_type : FileType;
  file_sourceLanguage : jsstring;
  file_targetLanguage : jsstring;
  file_units : list TranslationUnit;
  file_uploadedAt : Date;
  file_size : nat;
}.

Record GlossaryTerm : Type := {
  term_source : jsstring;
  term_target : jsstring;
  term_context : option jsstring;
}.

Inductive IssueType : Type :=
| missing_translation
| empty_translation
| leading_trailing_spaces
| inconsistent_brackets
| inconsistent_placeholders
| inconsistent_punctuation
| inconsistent_case
| inconsistent_numbers
| inconsistent_urls
| inconsistent_emails
| too_long_translation
| potentially_incorrect_translation
| duplicate_translation
| invalid_html_tags
| invalid_xml_tags
| special_characters_mismatch
| formatting_issues
| untranslated_text
| target_same_as_source
| key_term_mismatch
| alphanumeric_mismatch
| inconsistent_source
| inconsistent_target.

Inductive Severity : Type := error | warning | info.

Record QAIssue : Type := {
  issue_id : jsstring;
  issue_unitId : jsstring;
  issue_type : IssueType;
  issue_severity : Severity;
  issue_message : jsstring;
  issue_source : jsstring;
  issue_target : jsstring;
  issue_key : jsstring;
  issue_suggestion : option jsstring;
  issue_index : option nat;
}.

#[global] Instance IssueType_eq_dec : EqDecision IssueType.
Proof. solve_decision. Defined.

#[global] Instance Severity_eq_dec : EqDecision Severity.
Proof. solve_decision. Defined.

#[global] Instance FileType_eq_dec : EqDecision FileType.
Proof. solve_decision. Defined.

(** The issue types in the order of their declaration: the keys of a
    [Record<IssueType, _>]. *)
Definition all_issue_types : list IssueType :=
  [ missing_translation; empty_translation; leading_trailing_spaces;
    inconsistent_brackets; inconsistent_placeholders;
    inconsistent_punctuation; inconsistent_case; inconsistent_numbers;
    inconsistent_urls; inconsistent_emails; too_long_translation;
    potentially_incorrect_translation; duplicate_translation;
    invalid_html_tags; invalid_xml_tags; special_characters_mismatch;
    formatting_issues; untranslated_text; target_same_as_source;
    key_term_mismatch; alphanumeric_mismatch; inconsistent_source;
    inconsistent_target ].

Definition IssueType_to_nat (t : IssueType) : nat :=
  match t with
  | missing_translation => 0
  | empty_translation => 1
  | leading_trailing_spaces => 2
  | inconsistent_brackets => 3
  | inconsistent_placeholders => 4
  | inconsistent_punctuation => 5
  | inconsistent_case => 6
  | inconsistent_numbers => 7
  | inconsistent_urls => 8
  | inconsistent_emails => 9
  | too_long_translation => 10
  | potentially_incorrect_translation => 11
  | duplicate_translation => 12
  | invalid_html_tags => 13
  | invalid_xml_tags => 14
  | special_characters_mismatch => 15
  | formatting_issues => 16
  | untranslated_text => 17
  | target_same_as_source => 18
  | key_term_mismatch => 19
  | alphanumeric_mismatch => 20
  | inconsistent_source => 21
  | inconsistent_target => 22
  end%nat.

Definition IssueType_of_nat (n : nat) : IssueType :=
  nth n all_issue_types missing_translation.

#[global] Program Instance IssueType_countable : Countable IssueType :=
  inj_countable' IssueType_to_nat IssueType_of_nat _.
Next Obligation. intros []; reflexivity. Qed.

Record QAStats : Type := {
  stats_total : nat;
  stats_errors : nat;
  stats_warnings : nat;
  stats_info : nat;
  stats_byType : gmap IssueType nat;
}.

Record QAResult : Type := {
  result_fileId : jsstring;
  result_fileName : jsstring;
  result_totalUnits : nat;
  result_issues : list QAIssue;
  result_stats : QAStats;
  result_completedAt : Date;
}.

Record QAConfig : Type := {
  config_rules : gmap IssueType bool;      (* Partial<Record<IssueType, boolean>> *)
  config_maxLengthRatio : float;
  config_ignorePatterns : list jsstring;
  config_customPlaceholders : list jsstring;
  config_checkHtmlTags : bool;
  config_checkXmlTags : bool;
  config_checkPlaceholders : bool;
  config_caseSensitive : bool;
  config_glossary : option (list GlossaryTerm);
}.

(** The extension table.  It is an object literal, read with a computed
    key, so a key it does not own is looked up on [Object.prototype]. *)
Definition SUPPORTED_FILE_EXTENSIONS : list (jsstring * FileType) :=
  [ (js ".json", FT_json);
    (js ".xliff", FT_xliff);
    (js ".xlf", FT_xliff);
    (js ".sdlxliff", FT_sdlxliff);
    (js ".xml", FT_xml);
    (js ".po", FT_po);
    (js ".pot", FT_pot);
    (js ".strings", FT_strings);
    (js ".yaml", FT_yaml);
    (js ".yml", FT_yml);
    (js ".properties", FT_properties);
    (js ".resx", FT_resx);
    (js ".csv", FT_csv);
    (js ".tmx", FT_tmx);
    (js ".tsv", FT_tsv) ].

End Types.
Export Types.

(** ** The host

    Values the host's parsers hand to the engine. *)

Module Host.

(** The value [JSON.parse] returns.  The entries of an object are its own
    properties in the order [Object.entries] lists them. *)
Inductive json : Type :=
| JNull
| JBool (b : bool)
| JNumber (x : float)
| JString (s : jsstring)
| JArray (items : list json)
| JObject (entries : list (jsstring * json)).

(** A node of the document [DOMParser] returns.  Text and CDATA sections
    are [XText]; comments and processing instructions, which contribute
    nothing to [textContent], are [XOther]. *)
Inductive xml_node : Type :=
| XText (s : jsstring)
| XOther
| XElement (name : jsstring) (attrs : list (jsstring * jsstring))
    (children : list xml_node).

(** What the repository calls and does not define. *)
Class Platform : Type := {
  (** [String.prototype.toLowerCase] and [toUpperCase] *)
  toLowerCase : jsstring -> jsstring;
  toUpperCase : jsstring -> jsstring;
  (** [x.toFixed(0)] *)
  toFixed0 : float -> jsstring;
  (** [JSON.parse]; [None] when it throws a [SyntaxError] *)
  JSON_parse : jsstring -> option json;
  (** [new DOMParser().parseFromString(s, 'application/xml')]: the nodes
      of the document (its root element among them) *)
  DOMParser_parseFromString : jsstring -> list xml_node;
  (** [String(Object.prototype[name])] *)
  String_of_prototype_member : jsstring -> jsstring;
  (** On ASCII text the case mappings are the ASCII ones. *)
  toLowerCase_ascii :
    forall s, forallb is_ascii s = true -> toLowerCase s = map lower_ascii s;
  toUpperCase_ascii :
    forall s, forallb is_ascii s = true -> toUpperCase s = map upper_ascii s;
}.

(** What [Math.random] and [new Date] will answer, and how many answers
    have been taken.  An answer of [random_source] is the text of
    [Math.random().toString(36)]. *)
Record World : Type := {
  random_source : nat -> jsstring;
  random_taken : nat;
  clock_source : nat -> Date;
  clock_taken : nat;
}.

(** A computation that reads the world. *)
Definition M (A : Type) : Type := World -> A * World.

Definition ret {A : Type} (a : A) : M A := fun w => (a, w).
Definition bind {A B : Type} (m : M A) (f : A -> M B) : M B :=
  fun w => let (a, w') := m w in f a w'.

(** [Math.random().toString(36)] *)
Definition Math_random_toString36 : M jsstring :=
  fun w =>
    (random_source w (random_taken w),
     {| random_source := random_source w;
        random_taken := S (random_taken w);
        clock_source := clock_source w;
        clock_taken := clock_taken w |}).

(** [new Date()] *)
Definition new_Date : M Date :=
  fun w =>
    (clock_source w (clock_taken w),
     {| random_source := random_source w;
        random_taken := random_taken w;
        clock_source := clock_source w;
        clock_taken := S (clock_taken w) |}).

(** [for (const x of xs) body], the body acting on the loop's variables. *)
Fixpoint for_of {A St : Type} (xs : list A) (body : A -> St -> M St) (s : St)
  : M St :=
  match xs with
  | [] => ret s
  | x :: xs' => bind (body x s) (for_of xs' body)
  end.

(** The names [Object.prototype] defines: a computed read of an object
    literal finds them when the object has no own property of that
    name. *)
Definition Object_prototype_keys : list jsstring :=
  [ js "constructor"; js "__defineGetter__"; js "__defineSetter__";
    js "hasOwnProperty"; js "__lookupGetter__"; js "__lookupSetter__";
    js "isPrototypeOf"; js "propertyIsEnumerable"; js "toString";
    js "valueOf"; js "__proto__"; js "toLocaleString" ].

(** The outcome of [obj[key]] on an object literal. *)
Inductive property (A : Type) : Type :=
| Own (a : A)                   (* a property of the object itself *)
| Inherited (name : jsstring).  (* a member of [Object.prototype] *)
Arguments Own {A} a.
Arguments Inherited {A} name.

Fixpoint assoc {A : Type} (key : jsstring) (l : list (jsstring * A))
  : option A :=
  match l with
  | [] => None
  | (k, v) :: l' => if str_eqb k key then Some v else assoc key l'
  end.

(** [obj[key] || null]: every own value here and every member of
    [Object.prototype] is truthy. *)
Definition object_get {A : Type} (obj : list (jsstring * A)) (key : jsstring)
  : option (property A) :=
  match assoc key obj with
  | Some v => Some (Own v)
  | None => if mem key Object_prototype_keys then Some (Inherited key)
            else None
  end.

Definition float_of_nat (n : nat) : float :=
  PrimFloat.of_uint63 (Uint63.of_Z (Z.of_nat n)).

End Host.
Export Host.

Notation "x <- c1 ;; c2" := (bind c1 (fun x => c2))
  (at level 100, c1 at next level, right associativity).

(** ** The rule library ([lib/qaEngine.ts]) *)

Module Patterns.

Definition ch (a : ascii) : regex := Chr (N.eqb (N_of_ascii a)).
Definition one_of (s : string) : regex :=
  Chr (fun c => existsb (N.eqb c) (js s)).
Definition none_of (s : string) : regex :=
  Chr (fun c => negb (existsb (N.eqb c) (js s))).
Fixpoint seqs (l : list regex) : regex :=
  match l with
  | [] => Eps
  | [r] => r
  | r :: l' => Seq r (seqs l')
  end.

Definition digit : regex := Chr is_digit.          (* \d *)
Definition space : regex := Chr is_space.          (* \s *)
Definition word : regex := Chr is_word.            (* \w *)
Definition non_space : regex := Chr (fun c => negb (is_space c)).
Definition alnum : regex := Chr (fun c => is_alpha c || is_digit c).

(** [/^\s/] and [/\s$/] *)
Definition re_leading_space : regex := Seq Bol space.
Definition re_trailing_space : regex := Seq space Eol.

(** The placeholder patterns of [checkInconsistentPlaceholders]. *)
Definition re_printf : regex :=                  (* /%\d*\$?[sdif]/g *)
  seqs [ch "%"; Star digit; Opt (ch "$"); one_of "sdif"].
Definition re_mustache : regex :=                (* /\{\{?\s*\w+\s*\}?\}/g *)
  seqs [ch "{"; Opt (ch "{"); Star space; Plus word; Star space;
        Opt (ch "}"); ch "}"].
Definition re_shell : regex :=                   (* /\$\{\w+\}/g *)
  seqs [ch "$"; ch "{"; Plus word; ch "}"].
Definition re_symbol : regex :=                  (* /:\w+/g *)
  seqs [ch ":"; Plus word].
Definition re_python : regex :=                  (* /%\(\w+\)s/g *)
  seqs [ch "%"; ch "("; Plus word; ch ")"; ch "s"].
Definition re_brace : regex :=                   (* /\{\w+\}/g *)
  seqs [ch "{"; Plus word; ch "}"].
Definition placeholderPatterns : list regex :=
  [re_printf; re_mustache; re_shell; re_symbol; re_python; re_brace].

Definition re_number : regex := Plus digit.      (* /\d+/g *)
Definition re_url : regex :=                     (* /https?:\/\/[^\s]+/g *)
  seqs [Lit (js "http"); Opt (ch "s"); Lit (js "://"); Plus non_space].
Definition re_email : regex :=                   (* /[\w.-]+@[\w.-]+\.\w+/g *)
  let part := Chr (fun c => is_word c || (c =? 46) || (c =? 45)) in
  seqs [Plus part; ch "@"; Plus part; ch "."; Plus word].

(** The tag pattern of [checkInvalidHtmlTags]: an opening angle bracket,
    an optional slash, a letter, letters and digits, everything up to the
    next closing angle bracket, and that bracket. *)
Definition re_html_tag : regex :=
  seqs [ch "<"; Opt (ch "/"); Chr is_alpha; Star alnum; Star (none_of ">");
        ch ">"].
(** [xmlTagPattern]: an opening angle bracket, the name (a letter or
    underscore, then word characters) as group 1, everything up to the
    next closing angle bracket as group 2, and that bracket. *)
Definition re_xml_tag : regex :=
  seqs [ch "<";
        Group 1 (Seq (Chr (fun c => is_alpha c || (c =? 95))) (Star word));
        Group 2 (Star (none_of ">"));
        ch ">"].

Definition re_spaces2 : regex := seqs [space; space; Star space]. (* /\s{2,}/ *)
Definition re_crlf : regex := Lit [13; 10].                       (* /\r\n/ *)
Definition re_all_digits : regex := seqs [Bol; Plus digit; Eol].  (* /^\d+$/ *)
(** [/^[\d\s\W]+$/] *)
Definition re_no_letters : regex :=
  seqs [Bol;
        Plus (Chr (fun c => is_digit c || is_space c || negb (is_word c)));
        Eol].
Definition re_alnum_run : regex := Plus alnum.   (* /[a-zA-Z0-9]+/g *)

End Patterns.
Export Patterns.

Section Rules.

Context {host : Platform}.

Local Open Scope nat_scope.

Definition DEFAULT_CONFIG : QAConfig := {|
  config_rules :=
    list_to_map
      [ (missing_translation, true);
        (empty_translation, true);
        (leading_trailing_spaces, true);
        (inconsistent_brackets, true);
        (inconsistent_placeholders, true);
        (inconsistent_punctuation, true);
        (inconsistent_case, false);
        (inconsistent_numbers, true);
        (inconsistent_urls, true);
        (inconsistent_emails, true);
        (too_long_translation, true);
        (potentially_incorrect_translation, false);
        (duplicate_translation, true);
        (invalid_html_tags, true);
        (invalid_xml_tags, true);
        (special_characters_mismatch, true);
        (formatting_issues, true);
        (untranslated_text, true);
        (target_same_as_source, true);
        (key_term_mismatch, true);
        (alphanumeric_mismatch, true);
        (inconsistent_source, true);
        (inconsistent_target, true) ];
  config_maxLengthRatio := 1.5%float;
  config_ignorePatterns := [];
  config_customPlaceholders := [];
  config_checkHtmlTags := true;
  config_checkXmlTags := true;
  config_checkPlaceholders := true;
  config_caseSensitive := false;
  config_glossary := None;
|}.

(** [`issue_${Math.random().toString(36).substring(2, 11)}`] *)
Definition generateIssueId : M jsstring :=
  r <- Math_random_toString36 ;;
  ret (js "issue_" ++ substring 2 11 r).

(** The object literal every rule returns: a fresh id, the unit's id,
    source, target and key, and what the rule fills in.  The literal
    evaluates [generateIssueId()] and nothing else that reads the world. *)
Definition new_issue (unit : TranslationUnit) (type : IssueType)
  (severity : Severity) (message : jsstring) (suggestion : option jsstring)
  : M (option QAIssue) :=
  id <- generateIssueId ;;
  ret (Some {| issue_id := id;
               issue_unitId := unit_id unit;
               issue_type := type;
               issue_severity := severity;
               issue_message := message;
               issue_source := unit_source unit;
               issue_target := unit_target unit;
               issue_key := unit_key unit;
               issue_suggestion := suggestion;
               issue_index := None |}).

Definition no_issue : M (option QAIssue) := ret None.

Definition checkMissingTranslation (unit : TranslationUnit)
  : M (option QAIssue) :=
  if negb (truthy (unit_target unit)) || str_eqb (trim (unit_target unit)) []
  then new_issue unit missing_translation error
         (js "Translation is missing") (Some (unit_source unit))
  else no_issue.

Definition checkEmptyTranslation (unit : TranslationUnit)
  : M (option QAIssue) :=
  if truthy (unit_target unit)
     && str_eqb (trim (unit_target unit)) []
     && (0 <? strlen (unit_target unit))
  then new_issue unit empty_translation error
         (js "Translation contains only whitespace") (Some (unit_source unit))
  else no_issue.

Definition checkLeadingTrailingSpaces (unit : TranslationUnit)
  : M (option QAIssue) :=
  let sourceHasLeading := test re_leading_space (unit_source unit) in
  let sourceHasTrailing := test re_trailing_space (unit_source unit) in
  let targetHasLeading := test re_leading_space (unit_target unit) in
  let targetHasTrailing := test re_trailing_space (unit_target unit) in
  if negb (eqb sourceHasLeading targetHasLeading)
     || negb (eqb sourceHasTrailing targetHasTrailing)
  then
    let issues :=
      (if negb (eqb sourceHasLeading targetHasLeading)
       then [js "leading spaces"] else [])
      ++ (if negb (eqb sourceHasTrailing targetHasTrailing)
          then [js "trailing spaces"] else []) in
    new_issue unit leading_trailing_spaces warning
      (js "Inconsistent " ++ join (js " and ") issues)
      (Some ((if sourceHasLeading && negb targetHasLeading then js " " else [])
             ++ trim (unit_target unit)
             ++ (if sourceHasTrailing && negb targetHasTrailing
                 then js " " else [])))
  else no_issue.

(** The number of occurrences of a code unit: the length of
    [s.match(new RegExp('\\' + c, 'g')) || []]. *)
Definition count_char (c : N) (s : jsstring) : nat :=
  List.length (match_all (Chr (N.eqb c)) s).

Definition brackets : list (N * N) :=
  [(40, 41); (91, 93); (123, 125); (60, 62)]%N.   (* () [] {} <> *)

Fixpoint checkInconsistentBrackets_loop (unit : TranslationUnit)
  (pairs : list (N * N)) : M (option QAIssue) :=
  match pairs with
  | [] => no_issue
  | (open, close) :: pairs' =>
      let sourceOpen := count_char open (unit_source unit) in
      let sourceClose := count_char close (unit_source unit) in
      let targetOpen := count_char open (unit_target unit) in
      let targetClose := count_char close (unit_target unit) in
      if negb (sourceOpen =? targetOpen) || negb (sourceClose =? targetClose)
      then new_issue unit inconsistent_brackets error
             (js "Inconsistent " ++ [open] ++ [close] ++ js " brackets") None
      else checkInconsistentBrackets_loop unit pairs'
  end.

Definition checkInconsistentBrackets (unit : TranslationUnit)
  : M (option QAIssue) :=
  checkInconsistentBrackets_loop unit brackets.

Fixpoint checkInconsistentPlaceholders_loop (unit : TranslationUnit)
  (patterns : list regex) : M (option QAIssue) :=
  match patterns with
  | [] => no_issue
  | pattern :: patterns' =>
      let sourcePlaceholders := match_all pattern (unit_source unit) in
      let targetPlaceholders := match_all pattern (unit_target unit) in
      if negb (List.length sourcePlaceholders =? List.length targetPlaceholders)
      then new_issue unit inconsistent_placeholders error
             (js "Placeholder count mismatch: expected "
              ++ decimal (List.length sourcePlaceholders)
              ++ js ", found " ++ decimal (List.length targetPlaceholders))
             (Some (js "Ensure all placeholders ("
                    ++ join (js ", ") sourcePlaceholders
                    ++ js ") are preserved"))
      else checkInconsistentPlaceholders_loop unit patterns'
  end.

Definition checkInconsistentPlaceholders (unit : TranslationUnit)
  : M (option QAIssue) :=
  checkInconsistentPlaceholders_loop unit placeholderPatterns.

Definition punctuationMarks : list jsstring :=
  [js "."; js "!"; js "?"; js ":"; js ";"; js ","].

Definition checkInconsistentPunctuation (unit : TranslationUnit)
  : M (option QAIssue) :=
  let sourceEnd := slice_last (unit_source unit) in
  let targetEnd := slice_last (unit_target unit) in
  if mem sourceEnd punctuationMarks && negb (str_eqb sourceEnd targetEnd)
  then new_issue unit inconsistent_punctuation warning
         (js "Inconsistent ending punctuation: source ends with "
          ++ [34%N] ++ sourceEnd ++ [34%N])
         (Some (unit_target unit ++ sourceEnd))
  else no_issue.

Definition checkInconsistentNumbers (unit : TranslationUnit)
  : M (option QAIssue) :=
  let sourceNumbers := match_all re_number (unit_source unit) in
  let targetNumbers := match_all re_number (unit_target unit) in
  if negb (List.length sourceNumbers =? List.length targetNumbers)
  then new_issue unit inconsistent_numbers warning
         (js "Number count mismatch: expected "
          ++ decimal (List.length sourceNumbers)
          ++ js ", found " ++ decimal (List.length targetNumbers))
         None
  else no_issue.

Definition checkInconsistentURLs (unit : TranslationUnit)
  : M (option QAIssue) :=
  let sourceUrls := match_all re_url (unit_source unit) in
  let targetUrls := match_all re_url (unit_target unit) in
  if negb (List.length sourceUrls =? List.length targetUrls)
  then new_issue unit inconsistent_urls warning
         (js "URL count mismatch: expected "
          ++ decimal (List.length sourceUrls)
          ++ js ", found " ++ decimal (List.length targetUrls))
         (Some (join (js ", ") sourceUrls))
  else no_issue.

Definition checkInconsistentEmails (unit : TranslationUnit)
  : M (option QAIssue) :=
  let sourceEmails := match_all re_email (unit_source unit) in
  let targetEmails := match_all re_email (unit_target unit) in
  if negb (List.length sourceEmails =? List.length targetEmails)
  then new_issue unit inconsistent_emails warning
         (js "Email count mismatch: expected "
          ++ decimal (List.length sourceEmails)
          ++ js ", found " ++ decimal (List.length targetEmails))
         None
  else no_issue.

Definition checkTooLongTranslation (unit : TranslationUnit) (maxRatio : float)
  : M (option QAIssue) :=
  if 0 <? strlen (unit_source unit)
  then
    let ratio := PrimFloat.div (float_of_nat (strlen (unit_target unit)))
                   (float_of_nat (strlen (unit_source unit))) in
    if PrimFloat.ltb maxRatio ratio
    then new_issue unit too_long_translation warning
           (js "Translation is "
            ++ toFixed0 (PrimFloat.mul ratio 100%float)
            ++ js "% longer than source (max "
            ++ toFixed0 (PrimFloat.mul maxRatio 100%float)
            ++ js "%)")
           None
    else no_issue
  else no_issue.

Definition checkDuplicateTranslation (unit : TranslationUnit)
  (allUnits : list TranslationUnit) : M (option QAIssue) :=
  let duplicates :=
    List.filter
      (fun u => negb (str_eqb (unit_id u) (unit_id unit))
                && str_eqb (unit_source u) (unit_source unit)
                && str_eqb (unit_target u) (unit_target unit)
                && negb (str_eqb (unit_target u) []))
      allUnits in
  if 0 <? List.length duplicates
  then new_issue unit duplicate_translation info
         (js "Duplicate translation found ("
          ++ decimal (List.length duplicates) ++ js " instance"
          ++ (if 1 <? List.length duplicates then js "s" else [])
          ++ js ")")
         None
  else no_issue.

(** [checkInvalidHtmlTags].  The two [exec] loops at its head fill
    [sourceTags] and [targetTags], which nothing reads; they end because a
    match of the tag pattern is never empty.  What decides the result is
    the walk over the tags of the target with the stack [openTags]. *)
Definition voidElements : list jsstring :=
  [js "br"; js "hr"; js "img"; js "input"; js "meta"; js "link"].

Fixpoint checkInvalidHtmlTags_loop (unit : TranslationUnit)
  (tags : list jsstring) (openTags : list jsstring) : M (option QAIssue) :=
  match tags with
  | [] =>
      if 0 <? List.length openTags
      then new_issue unit invalid_html_tags error
             (js "Unclosed HTML tags: " ++ join (js ", ") openTags) None
      else no_issue
  | tag :: tags' =>
      if startsWith (js "</") tag
      then
        let tagName :=
          toLowerCase
            (replace_first (ch ">") []
               (replace_first (Lit (js "</")) [] tag)) in
        if (List.length openTags =? 0)
           || negb (str_eqb (List.last openTags []) tagName)
        then new_issue unit invalid_html_tags error
               (js "Unmatched closing tag: " ++ tag) None
        else checkInvalidHtmlTags_loop unit tags' (removelast openTags)
      else if negb (endsWith (js "/>") tag)
      then
        let tagName :=
          toLowerCase
            (List.hd []
               (split_on 32
                  (replace_first (ch ">") []
                     (replace_first (ch "<") [] tag)))) in
        if negb (mem tagName voidElements)
        then checkInvalidHtmlTags_loop unit tags' (openTags ++ [tagName])
        else checkInvalidHtmlTags_loop unit tags' openTags
      else checkInvalidHtmlTags_loop unit tags' openTags
  end.

Definition checkInvalidHtmlTags (unit : TranslationUnit)
  : M (option QAIssue) :=
  let targetMatches := match_all re_html_tag (unit_target unit) in
  checkInvalidHtmlTags_loop unit targetMatches [].

(** [set.add(x)] on a [Set] of strings, kept in insertion order. *)
Definition Set_add (x : jsstring) (l : list jsstring) : list jsstring :=
  if mem x l then l else l ++ [x].

(** The names ([match[1]]) of the tags of [s], as the [Set] the two
    [exec] loops build. *)
Definition xml_tag_names (s : jsstring) : list jsstring :=
  fold_left (fun tags m => Set_add (default [] (capture s m 1)) tags)
    (exec_all re_xml_tag s) [].

Definition checkInvalidXmlTags (unit : TranslationUnit)
  : M (option QAIssue) :=
  let sourceTags := xml_tag_names (unit_source unit) in
  let targetTags := xml_tag_names (unit_target unit) in
  match List.find (fun tag => negb (mem tag sourceTags)) targetTags with
  | Some tag =>
      new_issue unit invalid_xml_tags warning
        (js "XML tag " ++ [34%N] ++ tag ++ [34%N] ++ js " not found in source")
        None
  | None => no_issue
  end.

(** Newline, tab, backslash, double quote, single quote. *)
Definition specialChars : list N := [10; 9; 92; 34; 39]%N.

(** [char.replace(/\n/, '\\n').replace(/\t/, '\\t')] *)
Definition show_special (c : N) : jsstring :=
  replace_first (Chr (N.eqb 9)) (js "\t")
    (replace_first (Chr (N.eqb 10)) (js "\n") [c]).

Fixpoint checkSpecialCharactersMismatch_loop (unit : TranslationUnit)
  (chars : list N) : M (option QAIssue) :=
  match chars with
  | [] => no_issue
  | char :: chars' =>
      let sourceCount := count_char char (unit_source unit) in
      let targetCount := count_char char (unit_target unit) in
      if negb (sourceCount =? targetCount)
      then new_issue unit special_characters_mismatch warning
             (js "Special character " ++ [34%N] ++ show_special char
              ++ [34%N] ++ js " count mismatch")
             None
      else checkSpecialCharactersMismatch_loop unit chars'
  end.

Definition checkSpecialCharactersMismatch (unit : TranslationUnit)
  : M (option QAIssue) :=
  checkSpecialCharactersMismatch_loop unit specialChars.

Definition checkFormattingIssues (unit : TranslationUnit)
  : M (option QAIssue) :=
  if test re_spaces2 (unit_target unit)
     && negb (test re_spaces2 (unit_source unit))
  then new_issue unit formatting_issues info
         (js "Multiple consecutive spaces in translation")
         (Some (replace_all re_spaces2 (js " ") (unit_target unit)))
  else if test re_crlf (unit_target unit)
          && negb (test re_crlf (unit_source unit))
  then new_issue unit formatting_issues info
         (js "Inconsistent line endings (CRLF vs LF)") None
  else no_issue.

Definition checkUntranslatedText (unit : TranslationUnit)
  : M (option QAIssue) :=
  if (strlen (unit_source unit) <? 5) || test re_all_digits (unit_source unit)
  then no_issue
  else
    let words :=
      List.filter (fun w => 3 <? strlen w)
        (split_re (Plus space) (unit_source unit)) in
    let untranslatedWords :=
      List.length
        (List.filter
           (fun word =>
              includes (toLowerCase word) (toLowerCase (unit_target unit)))
           words) in
    if (0 <? List.length words)
       && PrimFloat.ltb 0.5%float
            (PrimFloat.div (float_of_nat untranslatedWords)
               (float_of_nat (List.length words)))
    then new_issue unit untranslated_text warning
           (js "Translation appears to contain untranslated text") None
    else no_issue.

Definition checkTargetSameAsSource (unit : TranslationUnit)
  : M (option QAIssue) :=
  if (strlen (unit_source unit) <? 3) || test re_no_letters (unit_source unit)
  then no_issue
  else if str_eqb (trim (toLowerCase (unit_source unit)))
            (trim (toLowerCase (unit_target unit)))
  then new_issue unit target_same_as_source info
         (js "Translation is identical to source text") None
  else no_issue.

(** Canonicalize of a pattern with the flag [i] and without [u]: the
    upper case of the code unit when that is one code unit, except that a
    non-ASCII unit is never mapped to an ASCII one. *)
Definition canonicalize (c : N) : N :=
  match toUpperCase [c] with
  | [cu] => if (128 <=? c)%N && (cu <? 128)%N then c else cu
  | _ => c
  end.

(** [new RegExp(`\\b${escaped}\\b`, 'i')], where [escaped] is [s] with
    every syntax character of a pattern escaped: between two word
    boundaries, the code units of [s], each compared after
    [canonicalize]. *)
Definition re_term (s : jsstring) : regex :=
  seqs ([WordB]
        ++ map (fun c => Chr (fun x => (canonicalize x =? canonicalize c)%N)) s
        ++ [WordB]).

Definition checkKeyTermMismatch (unit : TranslationUnit)
  (glossary : list GlossaryTerm) : M (option QAIssue) :=
  if List.length glossary =? 0 then no_issue
  else
    let foundTerms :=
      List.filter
        (fun term =>
           if negb (truthy (term_source term))
              || negb (truthy (term_target term))
           then false
           else test (re_term (term_source term)) (unit_source unit)
                && negb (test (re_term (term_target term)) (unit_target unit)))
        glossary in
    if 0 <? List.length foundTerms
    then
      let termList :=
        join (js ", ")
          (map (fun t => [34%N] ++ term_source t ++ [34%N]
                         ++ [32; 8594; 32]%N
                         ++ [34%N] ++ term_target t ++ [34%N])
             foundTerms) in
      new_issue unit key_term_mismatch warning
        (js "Glossary term mismatch. Expected translations: " ++ termList)
        (Some (join (js ", ") (map term_target foundTerms)))
    else no_issue.

(** The tally [forEach] builds in an object literal: [m[a] = (m[a] || 0) + 1].
    Only whether [m[a]] is truthy is read afterwards. *)
Definition tally (l : list jsstring) : gmap jsstring nat :=
  fold_left (fun m a => <[a := default 0 (m !! a) + 1]> m) l ∅.

(** [!!m[a]]: a counted key, or a name found on [Object.prototype]. *)
Definition tally_truthy (m : gmap jsstring nat) (a : jsstring) : bool :=
  match m !! a with
  | Some n => 0 <? n
  | None => mem a Object_prototype_keys
  end.

(** [Array.from(new Set(l))] *)
Definition unique (l : list jsstring) : list jsstring :=
  fold_left (fun acc x => Set_add x acc) l [].

Definition checkAlphanumericMismatch (unit : TranslationUnit)
  : M (option QAIssue) :=
  let sourceAlphas := match_all re_alnum_run (unit_source unit) in
  let targetAlphas := match_all re_alnum_run (unit_target unit) in
  let sourceMap := tally sourceAlphas in
  let targetMap := tally targetAlphas in
  let missingInTarget :=
    List.filter (fun a => negb (tally_truthy targetMap a)) sourceAlphas in
  let extraInTarget :=
    List.filter (fun a => negb (tally_truthy sourceMap a)) targetAlphas in
  if (0 <? List.length missingInTarget) || (0 <? List.length extraInTarget)
  then
    let msg :=
      js "Alphanumeric mismatch."
      ++ (if 0 <? List.length missingInTarget
          then js " Missing in target: "
               ++ join (js ", ") (unique missingInTarget) ++ js "."
          else [])
      ++ (if 0 <? List.length extraInTarget
          then js " Extra in target: "
               ++ join (js ", ") (unique extraInTarget) ++ js "."
          else []) in
    new_issue unit alphanumeric_mismatch warning msg None
  else no_issue.

Definition checkInconsistentSource (unit : TranslationUnit)
  (allUnits : list TranslationUnit) : M (option QAIssue) :=
  let duplicates :=
    List.filter
      (fun u => negb (str_eqb (unit_id u) (unit_id unit))
                && str_eqb (unit_target u) (unit_target unit)
                && negb (str_eqb (unit_source u) (unit_source unit)))
      allUnits in
  if 0 <? List.length duplicates
  then new_issue unit inconsistent_source warning
         (js "Inconsistent source: the same translation is used for different source texts.")
         None
  else no_issue.

Definition checkInconsistentTarget (unit : TranslationUnit)
  (allUnits : list TranslationUnit) : M (option QAIssue) :=
  let duplicates :=
    List.filter
      (fun u => negb (str_eqb (unit_id u) (unit_id unit))
                && str_eqb (unit_source u) (unit_source unit)
                && negb (str_eqb (unit_target u) (unit_target unit)))
      allUnits in
  if 0 <? List.length duplicates
  then new_issue unit inconsistent_target warning
         (js "Inconsistent target: the same source text has multiple different translations.")
         None
  else no_issue.

(** ** The driver *)

(** [issue.index = n] *)
Definition set_index (issue : QAIssue) (n : nat) : QAIssue :=
  {| issue_id := issue_id issue;
     issue_unitId := issue_unitId issue;
     issue_type := issue_type issue;
     issue_severity := issue_severity issue;
     issue_message := issue_message issue;
     issue_source := issue_source issue;
     issue_target := issue_target issue;
     issue_key := issue_key issue;
     issue_suggestion := issue_suggestion issue;
     issue_index := Some n |}.

(** [{ ...DEFAULT_CONFIG.rules, ...config.rules }] *)
Definition merged_rules (config : QAConfig) : gmap IssueType bool :=
  config_rules config ∪ config_rules DEFAULT_CONFIG.

(** [rules[rule]] read as a condition. *)
Definition rule_enabled (rules : gmap IssueType bool) (rule : IssueType)
  : bool :=
  default false (rules !! rule).

(** The table [checks] of [checkUnit]. *)
Definition checks (unit : TranslationUnit) (allUnits : list TranslationUnit)
  (config : QAConfig) : list (M (option QAIssue) * IssueType) :=
  [ (checkMissingTranslation unit, missing_translation);
    (checkEmptyTranslation unit, empty_translation);
    (checkLeadingTrailingSpaces unit, leading_trailing_spaces);
    (checkInconsistentBrackets unit, inconsistent_brackets);
    (checkInconsistentPlaceholders unit, inconsistent_placeholders);
    (checkInconsistentPunctuation unit, inconsistent_punctuation);
    (checkInconsistentNumbers unit, inconsistent_numbers);
    (checkInconsistentURLs unit, inconsistent_urls);
    (checkInconsistentEmails unit, inconsistent_emails);
    (checkTooLongTranslation unit (config_maxLengthRatio config),
     too_long_translation);
    (checkDuplicateTranslation unit allUnits, duplicate_translation);
    (checkInvalidHtmlTags unit, invalid_html_tags);
    (checkInvalidXmlTags unit, invalid_xml_tags);
    (checkSpecialCharactersMismatch unit, special_characters_mismatch);
    (checkFormattingIssues unit, formatting_issues);
    (checkUntranslatedText unit, untranslated_text);
    (checkTargetSameAsSource unit, target_same_as_source);
    (checkKeyTermMismatch unit (default [] (config_glossary config)),
     key_term_mismatch);
    (checkAlphanumericMismatch unit, alphanumeric_mismatch);
    (checkInconsistentSource unit allUnits, inconsistent_source);
    (checkInconsistentTarget unit allUnits, inconsistent_target) ].

(** The body of the loop over [checks]. *)
Definition run_check (rules : gmap IssueType bool) (unit : TranslationUnit)
  (c : M (option QAIssue) * IssueType) (issues : list QAIssue)
  : M (list QAIssue) :=
  let (check, rule) := c in
  if rule_enabled rules rule
  then
    issue <- check ;;
    match issue with
    | Some i => ret (issues ++ [set_index i (unit_index unit)])
    | None => ret issues
    end
  else ret issues.

Definition checkUnit (unit : TranslationUnit)
  (allUnits : list TranslationUnit) (config : QAConfig) : M (list QAIssue) :=
  let rules := merged_rules config in
  for_of (checks unit allUnits config) (run_check rules unit) [].

(** [stats.byType[issue.type] = (stats.byType[issue.type] || 0) + 1] over
    the issues. *)
Definition count_by_type (issues : list QAIssue) : gmap IssueType nat :=
  fold_left
    (fun byType issue =>
       <[issue_type issue := default 0 (byType !! issue_type issue) + 1]>
         byType)
    issues ∅.

Definition has_severity (s : Severity) (i : QAIssue) : bool :=
  bool_decide (issue_severity i = s).

Definition runQA (file : TranslationFile) (config : QAConfig) : M QAResult :=
  allIssues <-
    for_of (file_units file)
      (fun unit allIssues =>
         issues <- checkUnit unit (file_units file) config ;;
         ret (allIssues ++ issues))
      [] ;;
  let stats :=
    {| stats_total := List.length allIssues;
       stats_errors := List.length (List.filter (has_severity error) allIssues);
       stats_warnings :=
         List.length (List.filter (has_severity warning) allIssues);
       stats_info := List.length (List.filter (has_severity info) allIssues);
       stats_byType := count_by_type allIssues |} in
  completedAt <- new_Date ;;
  ret {| result_fileId := file_id file;
         result_fileName := file_name file;
         result_totalUnits := List.length (file_units file);
         result_issues := allIssues;
         result_stats := stats;
         result_completedAt := completedAt |}.

End Rules.

(** ** The decoders ([lib/fileParser.ts]) *)

Module Dom.

(** An element and the elements below it, in document order. *)
Fixpoint subtree (n : xml_node) : list xml_node :=
  match n with
  | XElement _ _ children => n :: flat_map subtree children
  | _ => []
  end.

Definition has_name (name : jsstring) (n : xml_node) : bool :=
  match n with
  | XElement name' _ _ => str_eqb name' name
  | _ => false
  end.

(** [doc.getElementsByTagName(name)] *)
Definition doc_getElementsByTagName (doc : list xml_node) (name : jsstring)
  : list xml_node :=
  List.filter (has_name name) (flat_map subtree doc).

(** [el.getElementsByTagName(name)]: the descendants of [el]. *)
Definition getElementsByTagName (el : xml_node) (name : jsstring)
  : list xml_node :=
  match el with
  | XElement _ _ children =>
      List.filter (has_name name) (flat_map subtree children)
  | _ => []
  end.

(** [el.getAttribute(name)]; [None] is [null]. *)
Definition getAttribute (el : xml_node) (name : jsstring) : option jsstring :=
  match el with
  | XElement _ attrs _ => assoc name attrs
  | _ => None
  end.

(** [node.textContent] *)
Fixpoint textContent (n : xml_node) : jsstring :=
  match n with
  | XText s => s
  | XOther => []
  | XElement _ _ children => flat_map textContent children
  end.

(** [el?.textContent || ''] *)
Definition text_or_empty (el : option xml_node) : jsstring :=
  match el with
  | Some e => textContent e
  | None => []
  end.

(** [el?.textContent || undefined] *)
Definition text_or_undefined (el : option xml_node) : option jsstring :=
  match el with
  | Some e => if truthy (textContent e) then Some (textContent e) else None
  | None => None
  end.

(** [a || b] on strings that may be [null] *)
Definition or_else (a : option jsstring) (b : jsstring) : jsstring :=
  match a with
  | Some s => if truthy s then s else b
  | None => b
  end.

End Dom.
Export Dom.

Module Json.

(** [data[key]] for one of the three wrapper names; [None] is
    [undefined].  Arrays, strings, numbers and booleans have no property
    of those names, and neither has [Object.prototype]. *)
Definition json_get (data : json) (key : jsstring) : option json :=
  match data with
  | JObject entries => assoc key entries
  | _ => None
  end.

Definition json_truthy (v : json) : bool :=
  match v with
  | JNull => false
  | JBool b => b
  | JNumber x => negb (PrimFloat.eqb x 0%float) && PrimFloat.eqb x x
  | JString s => truthy s
  | JArray _ => true
  | JObject _ => true
  end.

Definition truthy_opt (v : option json) : bool :=
  match v with
  | Some x => json_truthy x
  | None => false
  end.

(** [a || b] *)
Definition json_or (a b : option json) : option json :=
  if truthy_opt a then a else b.

Fixpoint indexed_from {A : Type} (i : nat) (l : list A)
  : list (jsstring * A) :=
  match l with
  | [] => []
  | x :: l' => (decimal i, x) :: indexed_from (S i) l'
  end.

(** [Object.entries(v)] of a value that is not [null]: the entries of an
    object, the elements of an array under their positions, the code
    units of a string under their positions, nothing of a number or a
    boolean. *)
Definition Object_entries (v : json) : list (jsstring * json) :=
  match v with
  | JObject entries => entries
  | JArray items => indexed_from 0 items
  | JString s => indexed_from 0 (map (fun c => JString [c]) s)
  | _ => []
  end.

End Json.
Export Json.

Record FileParserError : Type := {
  error_message : jsstring;
  error_fileName : jsstring;
}.

(** What a decoder does: it returns, or it throws. *)
Inductive outcome (A : Type) : Type :=
| Returns (a : A)
| Throws (e : FileParserError).
Arguments Returns {A} a.
Arguments Throws {A} e.

Section Parser.

Context {host : Platform}.

Local Open Scope nat_scope.

(** [fileName.toLowerCase().substring(fileName.lastIndexOf('.'))]: the
    constant [extension] of [detectFileType]. *)
Definition extension_of (fileName : jsstring) : jsstring :=
  substring_from (lastIndexOf (js ".") fileName) (toLowerCase fileName).

Definition detectFileType (fileName : jsstring) : option (property FileType) :=
  let extension := extension_of fileName in
  object_get SUPPORTED_FILE_EXTENSIONS extension.

(** [Math.random().toString(36).substring(2, 15)] *)
Definition generateId : M jsstring :=
  r <- Math_random_toString36 ;;
  ret (substring 2 15 r).

(** [units.push({ id: generateId(), ..., index: units.length + 1 })] *)
Definition push_unit (units : list TranslationUnit) (key source target : jsstring)
  (context notes : option jsstring) (fileName : jsstring)
  (lineNumber : option nat) : M (list TranslationUnit) :=
  id <- generateId ;;
  ret (units ++ [ {| unit_id := id;
                     unit_key := key;
                     unit_source := source;
                     unit_target := target;
                     unit_context := context;
                     unit_notes := notes;
                     unit_filePath := fileName;
                     unit_lineNumber := lineNumber;
                     unit_index := List.length units + 1 |} ]).

(** The file every decoder returns: a fresh id, the time, the size. *)
Definition new_file (fileName : jsstring) (type : FileType)
  (sourceLanguage targetLanguage : jsstring) (units : list TranslationUnit)
  (content : jsstring) : M TranslationFile :=
  id <- generateId ;;
  uploadedAt <- new_Date ;;
  ret {| file_id := id;
         file_name := fileName;
         file_type := type;
         file_sourceLanguage := sourceLanguage;
         file_targetLanguage := targetLanguage;
         file_units := units;
         file_uploadedAt := uploadedAt;
         file_size := strlen content |}.

(** *** JSON *)

(** [prefix ? `${prefix}.${key}` : key] *)
Definition fullKey_of (prefix key : jsstring) : jsstring :=
  if truthy prefix then prefix ++ js "." ++ key else key.

(** The body of the loop of [extractTranslations] on one entry; [recur]
    is the call on a nested value. *)
Definition visit_entry (fileName prefix : jsstring)
  (recur : json -> jsstring -> list TranslationUnit -> M (list TranslationUnit))
  (entry : jsstring * json) (units : list TranslationUnit)
  : M (list TranslationUnit) :=
  let (key, value) := entry in
  let fullKey := fullKey_of prefix key in
  match value with
  | JString s => push_unit units fullKey s [] None None fileName None
  | JObject _ | JArray _ => recur value fullKey units
  | _ => ret units
  end.

(** [extractTranslations(obj, prefix)], with [units] passed along.  The
    recursion follows the value: an object through its entries, an array
    through its elements, whose keys are their positions.  The call stack
    is taken to be deep enough for the document. *)
Fixpoint extractTranslations (fileName : jsstring) (obj : json)
  (prefix : jsstring) (units : list TranslationUnit) {struct obj}
  : M (list TranslationUnit) :=
  match obj with
  | JObject entries =>
      (fix loop (entries : list (jsstring * json))
           (units : list TranslationUnit) : M (list TranslationUnit) :=
         match entries with
         | [] => ret units
         | (key, value) :: entries' =>
             units' <-
               match value with
               | JString s =>
                   push_unit units (fullKey_of prefix key) s [] None None
                     fileName None
               | JObject _ | JArray _ =>
                   extractTranslations fileName value (fullKey_of prefix key)
                     units
               | _ => ret units
               end ;;
             loop entries' units'
         end) entries units
  | JArray items =>
      (fix loop (i : nat) (items : list json)
           (units : list TranslationUnit) : M (list TranslationUnit) :=
         match items with
         | [] => ret units
         | value :: items' =>
             units' <-
               match value with
               | JString s =>
                   push_unit units (fullKey_of prefix (decimal i)) s [] None
                     None fileName None
               | JObject _ | JArray _ =>
                   extractTranslations fileName value
                     (fullKey_of prefix (decimal i)) units
               | _ => ret units
               end ;;
             loop (S i) items' units'
         end) 0 items units
  | JString s =>
      for_of (Object_entries obj)
        (visit_entry fileName prefix (fun _ _ units => ret units)) units
  | _ => ret units
  end.

(** The value [parseJSON] hands to [extractTranslations]:
    [data.translations || data.messages || data.strings] when that is
    truthy, [data] otherwise. *)
Definition json_root (data : json) : json :=
  let wrapper :=
    json_or (json_or (json_get data (js "translations"))
               (json_get data (js "messages")))
      (json_get data (js "strings")) in
  match wrapper with
  | Some w => if json_truthy w then w else data
  | None => data
  end.

Definition parseJSON (content fileName : jsstring)
  : M (outcome TranslationFile) :=
  let invalid :=
    Throws {| error_message := js "Invalid JSON format";
              error_fileName := fileName |} in
  match JSON_parse content with
  | None => ret invalid
  | Some JNull => ret invalid      (* [data.translations] throws a TypeError *)
  | Some data =>
      units <- extractTranslations fileName (json_root data) [] [] ;;
      file <- new_file fileName FT_json (js "en") [] units content ;;
      ret (Returns file)
  end.

(** *** XLIFF *)

(** The body of the loop over the [trans-unit] elements. *)
Definition xliff_unit (fileName : jsstring) (unit : xml_node)
  (units : list TranslationUnit) : M (list TranslationUnit) :=
  id <-
    match getAttribute unit (js "id") with
    | Some a => if truthy a then ret a else generateId
    | None => generateId
    end ;;
  let sourceEl := head (getElementsByTagName unit (js "source")) in
  let targetEl := head (getElementsByTagName unit (js "target")) in
  let noteEl := head (getElementsByTagName unit (js "note")) in
  let source := text_or_empty sourceEl in
  let target := text_or_empty targetEl in
  let notes := text_or_undefined noteEl in
  push_unit units id source target None notes fileName None.

Definition parseXLIFF (content fileName : jsstring)
  : M (outcome TranslationFile) :=
  let doc := DOMParser_parseFromString content in
  if 0 <? List.length (doc_getElementsByTagName doc (js "parsererror"))
  then ret (Throws {| error_message := js "Invalid XLIFF format";
                      error_fileName := fileName |})
  else
    match doc_getElementsByTagName doc (js "file") with
    | [] => ret (Throws {| error_message :=
                             js "No file elements found in XLIFF";
                           error_fileName := fileName |})
    | fileEl :: _ =>
        let sourceLang :=
          or_else (getAttribute fileEl (js "source-language")) (js "en") in
        let targetLang :=
          or_else (getAttribute fileEl (js "target-language")) [] in
        let transUnits := doc_getElementsByTagName doc (js "trans-unit") in
        units <- for_of transUnits (xliff_unit fileName) [] ;;
        file <- new_file fileName FT_xliff sourceLang targetLang units
                  content ;;
        ret (Returns file)
    end.

(** *** Android XML *)

(** A loop [for (let i = 0; i < xs.length; i++)] whose body reads [i]. *)
Fixpoint for_index {A St : Type} (i : nat) (xs : list A)
  (body : nat -> A -> St -> M St) (s : St) : M St :=
  match xs with
  | [] => ret s
  | x :: xs' => bind (body i x s) (for_index (S i) xs' body)
  end.

Definition parseXML (content fileName : jsstring)
  : M (outcome TranslationFile) :=
  let doc := DOMParser_parseFromString content in
  if 0 <? List.length (doc_getElementsByTagName doc (js "parsererror"))
  then ret (Throws {| error_message := js "Invalid XML format";
                      error_fileName := fileName |})
  else
    let stringElements := doc_getElementsByTagName doc (js "string") in
    units <-
      for_index 0 stringElements
        (fun i el units =>
           let name :=
             or_else (getAttribute el (js "name")) (js "string_" ++ decimal i) in
           let text := textContent el in
           push_unit units name text [] None None fileName None)
        [] ;;
    let arrayElements := doc_getElementsByTagName doc (js "string-array") in
    units <-
      for_index 0 arrayElements
        (fun i arr units =>
           let name :=
             or_else (getAttribute arr (js "name")) (js "array_" ++ decimal i) in
           let items := getElementsByTagName arr (js "item") in
           for_index 0 items
             (fun j item units =>
                push_unit units (name ++ js "[" ++ decimal j ++ js "]")
                  (textContent item) [] None None fileName None)
             units)
        units ;;
    file <- new_file fileName FT_xml (js "en") [] units content ;;
    ret (Returns file).

(** *** PO / POT *)

Definition quote : regex := Chr (N.eqb 34).
Definition not_quote : regex := Chr (fun c => negb (N.eqb c 34)).
Definition any : regex := Chr (fun c => negb (is_line_terminator c)). (* . *)

(** The pattern of [extractQuotedString]: optional spaces, a quote, any
    text (group 1), a quote, optional spaces, from the start of the
    string to its end. *)
Definition re_quoted : regex :=
  seqs [Bol; Star space; quote; Group 1 (Star any); quote; Star space; Eol].

Definition extractQuotedString (str : jsstring) : jsstring :=
  match exec re_quoted str with
  | Some m =>
      replace_all (Lit [92; 92]%N) [92%N]
        (replace_all (Lit [92; 34]%N) [34%N]
           (replace_all (Lit [92; 110]%N) [10%N]
              (default [] (capture str m 1))))
  | None => []
  end.

(** The variables of [parsePO]. *)
Record po_state : Type := {
  currentMsgid : jsstring;
  currentMsgstr : jsstring;
  currentContext : jsstring;
  currentNotes : jsstring;
  inMsgid : bool;
  inMsgstr : bool;
  po_units : list TranslationUnit;
}.

Definition saveUnit (fileName : jsstring) (st : po_state) : M po_state :=
  units <-
    (if truthy (currentMsgid st)
     then push_unit (po_units st)
            (if truthy (currentContext st)
             then currentContext st ++ [4%N] ++ currentMsgid st
             else currentMsgid st)
            (currentMsgid st) (currentMsgstr st)
            (if truthy (currentContext st) then Some (currentContext st)
             else None)
            (if truthy (currentNotes st) then Some (currentNotes st)
             else None)
            fileName None
     else ret (po_units st)) ;;
  ret {| currentMsgid := [];
         currentMsgstr := [];
         currentContext := [];
         currentNotes := [];
         inMsgid := inMsgid st;
         inMsgstr := inMsgstr st;
         po_units := units |}.

(** The body of the loop over the lines. *)
Definition po_line (fileName : jsstring) (line : jsstring) (st : po_state)
  : M po_state :=
  let trimmed := trim line in
  if startsWith (js "msgctxt ") trimmed then
    st <- saveUnit fileName st ;;
    ret {| currentMsgid := currentMsgid st;
           currentMsgstr := currentMsgstr st;
           currentContext := extractQuotedString (substring_from 8 trimmed);
           currentNotes := currentNotes st;
           inMsgid := false;
           inMsgstr := false;
           po_units := po_units st |}
  else if startsWith (js "msgid ") trimmed then
    st <- (if inMsgstr st then saveUnit fileName st else ret st) ;;
    ret {| currentMsgid := extractQuotedString (substring_from 6 trimmed);
           currentMsgstr := currentMsgstr st;
           currentContext := currentContext st;
           currentNotes := currentNotes st;
           inMsgid := true;
           inMsgstr := false;
           po_units := po_units st |}
  else if startsWith (js "msgstr ") trimmed then
    ret {| currentMsgid := currentMsgid st;
           currentMsgstr := extractQuotedString (substring_from 7 trimmed);
           currentContext := currentContext st;
           currentNotes := currentNotes st;
           inMsgid := false;
           inMsgstr := true;
           po_units := po_units st |}
  else if startsWith [34%N] trimmed && inMsgid st then
    ret {| currentMsgid := currentMsgid st ++ extractQuotedString trimmed;
           currentMsgstr := currentMsgstr st;
           currentContext := currentContext st;
           currentNotes := currentNotes st;
           inMsgid := inMsgid st;
           inMsgstr := inMsgstr st;
           po_units := po_units st |}
  else if startsWith [34%N] trimmed && inMsgstr st then
    ret {| currentMsgid := currentMsgid st;
           currentMsgstr := currentMsgstr st ++ extractQuotedString trimmed;
           currentContext := currentContext st;
           currentNotes := currentNotes st;
           inMsgid := inMsgid st;
           inMsgstr := inMsgstr st;
           po_units := po_units st |}
  else if startsWith (js "#.") trimmed then
    ret {| currentMsgid := currentMsgid st;
           currentMsgstr := currentMsgstr st;
           currentContext := currentContext st;
           currentNotes :=
             currentNotes st
             ++ (if truthy (currentNotes st) then js " " else [])
             ++ trim (substring_from 2 trimmed);
           inMsgid := inMsgid st;
           inMsgstr := inMsgstr st;
           po_units := po_units st |}
  else ret st.

Definition parsePO (content fileName : jsstring) : M TranslationFile :=
  let lines := split_on 10 content in
  st <- for_of lines (po_line fileName)
          {| currentMsgid := []; currentMsgstr := []; currentContext := [];
             currentNotes := []; inMsgid := false; inMsgstr := false;
             po_units := [] |} ;;
  st <- saveUnit fileName st ;;
  new_file fileName
    (if endsWith (js ".pot") fileName then FT_pot else FT_po)
    (js "en") [] (po_units st) content.

(** *** iOS strings *)

(** A quoted key, an equals sign between optional spaces, a quoted value
    and a semicolon, from the start of the line to its end; neither text
    holds a quote. *)
Definition re_strings_line : regex :=
  seqs [Bol; quote; Group 1 (Star not_quote); quote; Star space; ch "=";
        Star space; quote; Group 2 (Star not_quote); quote; ch ";"; Eol].

Definition parseStrings (content fileName : jsstring) : M TranslationFile :=
  let lines := split_on 10 content in
  units <-
    for_of lines
      (fun line units =>
         let trimmed := trim line in
         match exec re_strings_line trimmed with
         | Some m =>
             push_unit units (default [] (capture trimmed m 1))
               (default [] (capture trimmed m 1))
               (default [] (capture trimmed m 2))
               None None fileName None
         | None => ret units
         end)
      [] ;;
  new_file fileName FT_strings (js "en") [] units content.

(** *** YAML *)

(** Leading spaces (group 1), a key of word characters and hyphens
    (group 2), a colon, optional spaces, the rest of the line (group 3). *)
Definition re_yaml_line : regex :=
  seqs [Bol; Group 1 (Star space);
        Group 2 (Plus (Chr (fun c => is_word c || (c =? 45)%N)));
        ch ":"; Star space; Group 3 (Star any); Eol].

Record yaml_line : Type := {
  yaml_key : jsstring;
  yaml_value : jsstring;
  newIndent : nat;
}.

Definition parseYamlLine (line : jsstring) : option yaml_line :=
  match exec re_yaml_line line with
  | Some m =>
      Some {| yaml_key := default [] (capture line m 2);
              yaml_value := trim (default [] (capture line m 3));
              newIndent := strlen (default [] (capture line m 1)) |}
  | None => None
  end.

(** [while (keyStack.length > newIndent / 2) keyStack.pop()]; [n] bounds
    the number of turns, and the length of the stack is enough. *)
Fixpoint pop_while (n : nat) (indent : nat) (keyStack : list jsstring)
  : list jsstring :=
  match n with
  | O => keyStack
  | S n' =>
      if indent <? 2 * List.length keyStack
      then pop_while n' indent (removelast keyStack)
      else keyStack
  end.

Definition parseYAML (content fileName : jsstring) : M TranslationFile :=
  let lines := split_on 10 content in
  st <-
    for_index 0 lines
      (fun i line (st : list jsstring * list TranslationUnit) =>
         let (keyStack, units) := st in
         match parseYamlLine line with
         | Some parsed =>
             let keyStack :=
               pop_while (List.length keyStack) (newIndent parsed) keyStack in
             if truthy (yaml_value parsed)
             then
               let fullKey :=
                 join (js ".") (keyStack ++ [yaml_key parsed]) in
               units <- push_unit units fullKey (yaml_value parsed) [] None
                          None fileName (Some (i + 1)) ;;
               ret (keyStack, units)
             else ret (keyStack ++ [yaml_key parsed], units)
         | None => ret (keyStack, units)
         end)
      ([], []) ;;
  new_file fileName FT_yaml (js "en") [] (snd st) content.

(** *** Java properties *)

Definition parseProperties (content fileName : jsstring) : M TranslationFile :=
  let lines := split_on 10 content in
  units <-
    for_index 0 lines
      (fun i line units =>
         let line := trim line in
         if negb (truthy line) || startsWith (js "#") line
            || startsWith (js "!") line
         then ret units
         else
           let separatorIndex := indexOf (js "=") line in
           if (0 <? separatorIndex)%Z
           then
             let key := trim (substring 0 separatorIndex line) in
             let value :=
               replace_all (Lit [92; 92]%N) [92%N]
                 (replace_all (Lit [92; 116]%N) [9%N]
                    (replace_all (Lit [92; 110]%N) [10%N]
                       (trim (substring_from (separatorIndex + 1) line)))) in
             push_unit units key value [] None None fileName (Some (i + 1))
           else ret units)
      [] ;;
  new_file fileName FT_properties (js "en") [] units content.

(** *** CSV / TSV *)

(** The variables of [parseCSVLine]. *)
Record csv_state : Type := {
  csv_result : list jsstring;
  csv_current : jsstring;
  csv_inQuotes : bool;
}.

(** [parseCSVLine].  The loop [for (const char of line)] walks code
    points; no surrogate pair equals a quote or the delimiter, and the
    units of a pair are appended together, so it may as well walk code
    units.  The test after a quote reads the unit that follows the
    {e first} quote of the line ([line.indexOf(char) + 1]). *)
Definition parseCSVLine (line : jsstring) (delimiter : N) : list jsstring :=
  let after_first_quote :=
    nth_error line (Z.to_nat (indexOf [34%N] line + 1)) in
  let final :=
    fold_left
      (fun st char =>
         if (char =? 34)%N then
           if csv_inQuotes st
              && match after_first_quote with
                 | Some c => (c =? 34)%N
                 | None => false
                 end
           then {| csv_result := csv_result st;
                   csv_current := csv_current st ++ [34%N];
                   csv_inQuotes := csv_inQuotes st |}
           else {| csv_result := csv_result st;
                   csv_current := csv_current st;
                   csv_inQuotes := negb (csv_inQuotes st) |}
         else if (char =? delimiter)%N && negb (csv_inQuotes st) then
           {| csv_result := csv_result st ++ [trim (csv_current st)];
              csv_current := [];
              csv_inQuotes := csv_inQuotes st |}
         else
           {| csv_result := csv_result st;
              csv_current := csv_current st ++ [char];
              csv_inQuotes := csv_inQuotes st |})
      line
      {| csv_result := []; csv_current := []; csv_inQuotes := false |} in
  csv_result final ++ [trim (csv_current final)].

Definition parseCSV (content fileName : jsstring) (delimiter : N)
  : M TranslationFile :=
  let lines := split_on 10 content in
  let first := toLowerCase (List.hd [] lines) in
  let startIndex :=
    if includes (js "key") first || includes (js "source") first
    then 1 else 0 in
  units <-
    for_index startIndex (skipn startIndex lines)
      (fun i line units =>
         let line := trim line in
         if negb (truthy line) then ret units
         else
           let columns := parseCSVLine line delimiter in
           if 2 <=? List.length columns
           then push_unit units (nth 0 columns []) (nth 1 columns [])
                  (or_else (nth_error columns 2) [])
                  None None fileName (Some (i + 1))
           else ret units)
      [] ;;
  new_file fileName (if (delimiter =? 9)%N then FT_tsv else FT_csv)
    (js "en") [] units content.

(** *** RESX *)

Definition parseRESX (content fileName : jsstring)
  : M (outcome TranslationFile) :=
  let doc := DOMParser_parseFromString content in
  if 0 <? List.length (doc_getElementsByTagName doc (js "parsererror"))
  then ret (Throws {| error_message := js "Invalid RESX format";
                      error_fileName := fileName |})
  else
    let dataElements := doc_getElementsByTagName doc (js "data") in
    units <-
      for_index 0 dataElements
        (fun i el units =>
           let name :=
             or_else (getAttribute el (js "name")) (js "data_" ++ decimal i) in
           let valueEl := head (getElementsByTagName el (js "value")) in
           let commentEl := head (getElementsByTagName el (js "comment")) in
           let value := text_or_empty valueEl in
           let comment := text_or_undefined commentEl in
           push_unit units name value [] None comment fileName None)
        [] ;;
    file <- new_file fileName FT_resx (js "en") [] units content ;;
    ret (Returns file).

(** *** TMX *)

(** The inner loop over the [tuv] elements of one [tu]: the pair
    (source, target) after it. *)
Definition tmx_sides (tuvElements : list xml_node) : jsstring * jsstring :=
  snd
    (fold_left
       (fun (st : nat * (jsstring * jsstring)) tuv =>
          let '(j, (source, target)) := st in
          let lang :=
            or_else (getAttribute tuv (js "xml:lang"))
              (or_else (getAttribute tuv (js "lang")) []) in
          let seg := head (getElementsByTagName tuv (js "seg")) in
          let text := text_or_empty seg in
          if (j =? 0) || startsWith (js "en") lang
          then (S j, (text, target))
          else (S j, (source, text)))
       tuvElements (0, ([], []))).

Definition parseTMX (content fileName : jsstring)
  : M (outcome TranslationFile) :=
  let doc := DOMParser_parseFromString content in
  if 0 <? List.length (doc_getElementsByTagName doc (js "parsererror"))
  then ret (Throws {| error_message := js "Invalid TMX format";
                      error_fileName := fileName |})
  else
    let tuElements := doc_getElementsByTagName doc (js "tu") in
    units <-
      for_index 0 tuElements
        (fun i tu units =>
           let id := getAttribute tu (js "id") in
           let tuvElements := getElementsByTagName tu (js "tuv") in
           let (source, target) := tmx_sides tuvElements in
           push_unit units (or_else id (js "tu_" ++ decimal i)) source target
             None None fileName None)
        [] ;;
    file <- new_file fileName FT_tmx (js "en") [] units content ;;
    ret (Returns file).

(** *** The dispatch of [parseFile]

    What [reader.onload] does with the text of the file: the promise is
    resolved with the file ([Returns]) or rejected with the error
    ([Throws]). *)

(** [result.type = t] *)
Definition set_type (t : FileType) (f : TranslationFile) : TranslationFile :=
  {| file_id := file_id f;
     file_name := file_name f;
     file_type := t;
     file_sourceLanguage := file_sourceLanguage f;
     file_targetLanguage := file_targetLanguage f;
     file_units := file_units f;
     file_uploadedAt := file_uploadedAt f;
     file_size := file_size f |}.

Definition returns {A : Type} (m : M A) : M (outcome A) :=
  a <- m ;; ret (Returns a).

Definition parseFile (content fileName : jsstring)
  : M (outcome TranslationFile) :=
  match detectFileType fileName with
  | None =>
      ret (Throws {| error_message := js "Unsupported file type: " ++ fileName;
                     error_fileName := fileName |})
  | Some (Inherited name) =>
      (* a member of Object.prototype is truthy and no case of the switch *)
      ret (Throws {| error_message :=
                       js "Parser not implemented for type: "
                       ++ String_of_prototype_member name;
                     error_fileName := fileName |})
  | Some (Own fileType) =>
      match fileType with
      | FT_json => parseJSON content fileName
      | FT_xliff => parseXLIFF content fileName
      | FT_sdlxliff =>
          r <- parseXLIFF content fileName ;;
          match r with
          | Returns result => ret (Returns (set_type FT_sdlxliff result))
          | Throws e => ret (Throws e)
          end
      | FT_xml => parseXML content fileName
      | FT_po | FT_pot => returns (parsePO content fileName)
      | FT_strings => returns (parseStrings content fileName)
      | FT_yaml | FT_yml => returns (parseYAML content fileName)
      | FT_properties => returns (parseProperties content fileName)
      | FT_csv => returns (parseCSV content fileName 44)
      | FT_tsv => returns (parseCSV content fileName 9)
      | FT_resx => parseRESX content fileName
      | FT_tmx => parseTMX content fileName
      end
  end.

End Parser.

(** ** The rest of the surface of [lib/qaEngine.ts] and [lib/fileParser.ts] *)

Module Surface.

(** [Object.entries(rules)] of the merged rules.  [DEFAULT_CONFIG.rules]
    holds every issue type, in the order of their declaration; the spread
    of [config.rules] over it changes values and adds no key, so the
    entries come in that order. *)
Definition rule_entries (rules : gmap IssueType bool)
  : list (IssueType * bool) :=
  omap (fun t => match rules !! t with
                 | Some enabled => Some (t, enabled)
                 | None => None
                 end)
    all_issue_types.

(** [getEnabledRules] *)
Definition getEnabledRules (config : QAConfig) : list IssueType :=
  let rules := merged_rules config in
  map fst (List.filter (fun e : IssueType * bool => snd e) (rule_entries rules)).

(** [getSupportedFileTypes]: the keys of the extension table without
    their dot. *)
Definition getSupportedFileTypes : list jsstring :=
  map (fun e : jsstring * FileType => substring_from 1 (fst e))
    SUPPORTED_FILE_EXTENSIONS.

End Surface.
Export Surface.

(** ** The glossary loaders ([lib/fileParser.ts]) *)

Section Glossary.

Context {host : Platform}.

Local Open Scope nat_scope.

(** The inner loop of [parseTMXGlossary] over the [tuv] elements of one
    [tu]: the pair (source, target) after it. *)
Definition glossary_sides (tuvElements : list xml_node) : jsstring * jsstring :=
  snd
    (fold_left
       (fun (st : nat * (jsstring * jsstring)) tuv =>
          let '(j, (source, target)) := st in
          let lang :=
            or_else (getAttribute tuv (js "xml:lang"))
              (or_else (getAttribute tuv (js "lang")) []) in
          let seg := head (getElementsByTagName tuv (js "seg")) in
          let text := text_or_empty seg in
          if startsWith (js "en") (toLowerCase lang) || (j =? 0)
          then
            if negb (truthy source) then (S j, (text, target))
            else if 0 <? j then (S j, (source, text))
            else (S j, (source, target))
          else (S j, (source, text)))
       tuvElements (0, ([], []))).

(** [parseTMXGlossary], on the text of the file: the terms the promise is
    resolved with.  The document is not tested for a parser error. *)
Definition parseTMXGlossary (content : jsstring) : list GlossaryTerm :=
  let doc := DOMParser_parseFromString content in
  let tuEntries := doc_getElementsByTagName doc (js "tu") in
  fold_left
    (fun terms tu =>
       let tuvElements := getElementsByTagName tu (js "tuv") in
       let (source, target) := glossary_sides tuvElements in
       if truthy source && truthy target
       then terms ++ [ {| term_source := source;
                          term_target := target;
                          term_context := None |} ]
       else terms)
    tuEntries [].

(** A quote at the start of the string, or a quote at its end. *)
Definition re_edge_quote : regex :=
  Alt (Seq Bol quote) (Seq quote Eol).

(** [line.split(delimiter).map(c => c.trim().replace(re, ''))] *)
Definition glossary_columns (line : jsstring) (delimiter : N) : list jsstring :=
  map (fun c => replace_all re_edge_quote [] (trim c)) (split_on delimiter line).

(** [parseCSVGlossary], on the text and the name of the file. *)
Definition parseCSVGlossary (content fileName : jsstring) : list GlossaryTerm :=
  let delimiter : N := if endsWith (js ".tsv") fileName then 9%N else 44%N in
  let lines := split_on 10 content in
  let startIndex :=
    if 0 <? List.length lines
    then
      let firstRow := toLowerCase (List.hd [] lines) in
      if includes (js "source") firstRow || includes (js "term") firstRow
      then 1 else 0
    else 0 in
  fold_left
    (fun terms line =>
       let line := trim line in
       if negb (truthy line) then terms
       else
         let columns := glossary_columns line delimiter in
         if 2 <=? List.length columns
         then terms ++ [ {| term_source := nth 0 columns [];
                            term_target := nth 1 columns [];
                            term_context := nth_error columns 2 |} ]
         else terms)
    (skipn startIndex lines) [].

End Glossary.

(** ** The views of [App.tsx] on a result *)

Section App.

Context {host : Platform}.

Local Open Scope nat_scope.

(** [severityFilter.includes(s)]; the filter holds severities only. *)
Definition includes_severity (s : Severity) (l : list Severity) : bool :=
  existsb (fun x => bool_decide (x = s)) l.

(** [getFilteredIssues], with the state it closes over. *)
Definition getFilteredIssues (searchQuery : jsstring)
  (severityFilter : list Severity) (result : QAResult) : list QAIssue :=
  List.filter
    (fun issue =>
       let matchesSearch :=
         negb (truthy searchQuery)
         || includes (toLowerCase searchQuery) (toLowerCase (issue_key issue))
         || includes (toLowerCase searchQuery)
              (toLowerCase (issue_source issue))
         || includes (toLowerCase searchQuery)
              (toLowerCase (issue_target issue))
         || includes (toLowerCase searchQuery)
              (toLowerCase (issue_message issue)) in
       let matchesSeverity :=
         includes_severity (issue_severity issue) severityFilter in
       matchesSearch && matchesSeverity)
    (result_issues result).

(** The update of [severityFilter] on a click on the button of [sev]. *)
Definition toggle_severity (sev : Severity) (prev : list Severity)
  : list Severity :=
  if includes_severity sev prev
  then List.filter (fun s => negb (bool_decide (s = sev))) prev
  else prev ++ [sev].

End App.

Module AppViews.

Record OverallStats : Type := {
  overall_totalFiles : nat;
  overall_totalUnits : nat;
  overall_totalIssues : nat;
  overall_errors : nat;
  overall_warnings : nat;
  overall_info : nat;
}.

(** [xs.reduce((sum, x) => sum + f(x), 0)] *)
Definition sum_of {A : Type} (f : A -> nat) (xs : list A) : nat :=
  fold_left (fun sum x => (sum + f x)%nat) xs 0%nat.

(** [overallStats] *)
Definition overallStats (files : list TranslationFile)
  (results : list QAResult) : OverallStats :=
  {| overall_totalFiles := List.length files;
     overall_totalUnits :=
       sum_of (fun f => List.length (file_units f)) files;
     overall_totalIssues :=
       sum_of (fun r => List.length (result_issues r)) results;
     overall_errors := sum_of (fun r => stats_errors (result_stats r)) results;
     overall_warnings :=
       sum_of (fun r => stats_warnings (result_stats r)) results;
     overall_info := sum_of (fun r => stats_info (result_stats r)) results |}.

(** [BilingualView]: the set [unitsWithIssues], the units it shows under
    the filter "issues", and the issues it lists under a unit. *)
Definition unitsWithIssues (issues : list QAIssue) : list jsstring :=
  fold_left (fun acc i => Set_add (issue_unitId i) acc) issues [].

Definition displayUnits (only_issues : bool) (file : TranslationFile)
  (issues : list QAIssue) : list TranslationUnit :=
  if only_issues
  then List.filter (fun u => mem (unit_id u) (unitsWithIssues issues))
         (file_units file)
  else file_units file.

Definition unitIssues (unit : TranslationUnit) (issues : list QAIssue)
  : list QAIssue :=
  List.filter (fun i => str_eqb (issue_unitId i) (unit_id unit)) issues.

End AppViews.
Export AppViews.

(** ** A host and a world for the examples

    The examples below run on ASCII text, where every host agrees with
    this one on the case mappings.  [JSON.parse] and [DOMParser] answer
    from the tables they are given: the value or the document of each
    text of the example. *)

Module ExampleHost.

(** [x.toFixed(0)] for a finite [x] below 1e21: the nearest integer, the
    larger one on a tie. *)
Definition toFixed0_finite (x : float) : jsstring :=
  match Prim2SF x with
  | S754_zero s => (if s then js "-" else []) ++ js "0"
  | S754_infinity s => (if s then js "-" else []) ++ js "Infinity"
  | S754_nan => js "NaN"
  | S754_finite s m e =>
      let n :=
        match e with
        | Z0 => Zpos m
        | Zpos p => (Zpos m * 2 ^ Zpos p)%Z
        | Zneg p => ((Zpos m + 2 ^ (Zpos p - 1)) / 2 ^ Zpos p)%Z
        end in
      (if s then js "-" else [])
      ++ js (NilZero.string_of_uint (N.to_uint (Z.to_N n)))
  end.

Definition lookup_text {A : Type} (table : list (jsstring * A))
  (s : jsstring) : option A :=
  assoc s table.

Definition example_host (jsons : list (jsstring * json))
  (docs : list (jsstring * list xml_node)) : Platform :=
  {| toLowerCase := map lower_ascii;
     toUpperCase := map upper_ascii;
     toFixed0 := toFixed0_finite;
     JSON_parse := lookup_text jsons;
     DOMParser_parseFromString := fun s => default [] (lookup_text docs s);
     String_of_prototype_member := fun name => js "[object " ++ name ++ js "]";
     toLowerCase_ascii := fun _ _ => eq_refl;
     toUpperCase_ascii := fun _ _ => eq_refl |}.

(** A world whose [n]-th random text is "0." followed by [n] in decimal
    and letters, and whose clock shows [n] at the [n]-th reading. *)
Definition example_world : World :=
  {| random_source := fun n => js "0." ++ decimal n ++ js "abcdefghijklm";
     random_taken := 0;
     clock_source := fun n => N.of_nat n;
     clock_taken := 0 |}.

(** The same world with other random texts and another clock. *)
Definition other_world : World :=
  {| random_source := fun n => js "0.z" ++ decimal (7 * n) ++ js "qrstuvwxyz";
     random_taken := 3;
     clock_source := fun n => N.of_nat (1000 + n);
     clock_taken := 0 |}.

Definition example_unit (i : nat) (source target : jsstring)
  : TranslationUnit :=
  {| unit_id := js "unit" ++ decimal i;
     unit_key := js "key" ++ decimal i;
     unit_source := source;
     unit_target := target;
     unit_context := None;
     unit_notes := None;
     unit_filePath := js "example.json";
     unit_lineNumber := None;
     unit_index := i |}.

Definition example_file (units : list TranslationUnit) : TranslationFile :=
  {| file_id := js "file0";
     file_name := js "example.json";
     file_type := FT_json;
     file_sourceLanguage := js "en";
     file_targetLanguage := [];
     file_units := units;
     file_uploadedAt := 0%N;
     file_size := 0 |}.

End ExampleHost.
Export ExampleHost.

(** ** The inputs of the examples *)

Module Examples.

(** A unit whose target is one space. *)
Definition blank_target_unit : TranslationUnit :=
  example_unit 1 (js "Save") (js " ").

(** Two units with the same source and the same empty target, and two
    units with the same empty source and the same target. *)
Definition untranslated_pair : list TranslationUnit :=
  [example_unit 1 (js "Save") []; example_unit 2 (js "Save") []].

Definition unlabelled_pair : list TranslationUnit :=
  [example_unit 1 [] (js "Enregistrer"); example_unit 2 [] (js "Enregistrer")].

(** A string between double quotes. *)
Definition quoted (s : jsstring) : jsstring := [34] ++ s ++ [34].

(** The text of a document with one key "a" whose value is the array of
    the one string "x", and the value [JSON.parse] returns for it. *)
Definition array_document : jsstring :=
  js "{" ++ quoted (js "a") ++ js ":[" ++ quoted (js "x") ++ js "]}".

Definition array_value : json :=
  JObject [(js "a", JArray [JString (js "x")])].

(** A translation memory of two units, the second without identifier and
    without target, as the document [DOMParser] returns for its text. *)
Definition tmx_text : jsstring := js "<tmx>two units</tmx>".

Definition tmx_document : list xml_node :=
  [XElement (js "tmx") []
     [XElement (js "body") []
        [XElement (js "tu") [(js "id", js "greeting")]
           [XElement (js "tuv") [(js "xml:lang", js "en")]
              [XElement (js "seg") [] [XText (js "Hello")]];
            XElement (js "tuv") [(js "xml:lang", js "fr")]
              [XElement (js "seg") [] [XText (js "Bonjour")]]];
         XElement (js "tu") []
           [XElement (js "tuv") [(js "xml:lang", js "en")]
              [XElement (js "seg") [] [XText (js "Bye")]]]]]].

(** The file [parseFile] returns for it. *)
Definition tmx_file : TranslationFile :=
  Eval vm_compute in
    match fst (parseFile (host := example_host [] [(tmx_text, tmx_document)])
                 tmx_text (js "memory.tmx") example_world) with
    | Returns file => file
    | Throws _ => example_file []
    end.


(** The file of one unit, and the types of the issues of its run under a
    config, on the example host. *)
Definition issue_types_of (units : list TranslationUnit) (config : QAConfig)
  : list (option nat * IssueType) :=
  map (fun i => (issue_index i, issue_type i))
    (result_issues
       (fst (runQA (host := example_host [] []) (example_file units) config
               example_world))).

(** The default configuration with a glossary of one term. *)
Definition glossary_config : QAConfig :=
  {| config_rules := config_rules DEFAULT_CONFIG;
     config_maxLengthRatio := config_maxLengthRatio DEFAULT_CONFIG;
     config_ignorePatterns := [];
     config_customPlaceholders := [];
     config_checkHtmlTags := true;
     config_checkXmlTags := true;
     config_checkPlaceholders := true;
     config_caseSensitive := false;
     config_glossary :=
       Some [ {| term_source := js "file";
                 term_target := js "fichier";
                 term_context := None |} ] |}.

(** A catalogue of two entries, the second under a context. *)
Definition po_text : jsstring :=
  js "#. a note" ++ [10]
  ++ js "msgid " ++ quoted (js "Hello") ++ [10]
  ++ js "msgstr " ++ quoted (js "Bonjour") ++ [10; 10]
  ++ js "msgctxt " ++ quoted (js "menu") ++ [10]
  ++ js "msgid " ++ quoted (js "Open") ++ [10]
  ++ js "msgstr " ++ quoted [] ++ [10].

(** A table with a header, an empty line and a row without target. *)
Definition csv_text : jsstring :=
  js "key,source,target" ++ [10]
  ++ js "k1,Hello,Bonjour" ++ [10; 10]
  ++ js "k2,Bye".

(** Nested mappings with two-space indentation. *)
Definition yaml_text : jsstring :=
  js "app:" ++ [10]
  ++ js "  title: Hello" ++ [10]
  ++ js "  menu:" ++ [10]
  ++ js "    open: Open" ++ [10]
  ++ js "footer: Bye".

(** The text of a document whose key "strings" holds the string "Ab",
    and the value [JSON.parse] returns for it. *)
Definition letters_document : jsstring :=
  js "{" ++ quoted (js "strings") ++ js ":" ++ quoted (js "Ab") ++ js "}".

Definition letters_value : json :=
  JObject [(js "strings", JString (js "Ab"))].

(** A host that parses the two documents, and the files [parseJSON]
    returns for them. *)
Definition json_host : Platform :=
  example_host
    [(array_document, array_value); (letters_document, letters_value)] [].

Definition array_file : TranslationFile :=
  Eval vm_compute in
    match fst (parseJSON (host := json_host) array_document
                 (js "labels.json") example_world) with
    | Returns file => file
    | Throws _ => example_file []
    end.

Definition letters_file : TranslationFile :=
  Eval vm_compute in
    match fst (parseJSON (host := json_host) letters_document
                 (js "letters.json") example_world) with
    | Returns file => file
    | Throws _ => example_file []
    end.




End Examples.
Export Examples.

(** ** Further examples *)

Module FurtherExamples.

(** The file [parseFile] returns on the example host, in the example
    world. *)
Definition parsed (content fileName : jsstring) : TranslationFile :=
  match fst (parseFile (host := example_host [] []) content fileName
               example_world) with
  | Returns file => file
  | Throws _ => example_file []
  end.

(** The catalogue under a name in upper case, and the mappings under a
    name with the short extension. *)
Definition template_file : TranslationFile :=
  Eval vm_compute in parsed po_text (js "TEMPLATE.POT").

Definition yml_file : TranslationFile :=
  Eval vm_compute in parsed yaml_text (js "labels.yml").

Definition catalogue_file : TranslationFile :=
  Eval vm_compute in parsed po_text (js "messages.po").

End FurtherExamples.
Export FurtherExamples.

(** * Properties *)

(** ** Vocabulary of the statements *)

Module Vocabulary.

(** The loop of [Star], named. *)
Definition star_loop (a : regex) (k : mstate -> option mstate)
  : nat -> mstate -> option mstate :=
  fix star (n : nat) (st : mstate) {struct n} : option mstate :=
    match n with
    | O => k st
    | S n' =>
        match rmatch a st
                (fun st' =>
                   if (List.length (rest st') <? List.length (rest st))%nat
                   then star n' st' else None) with
        | Some r => Some r
        | None => k st
        end
    end.

(** The turns [split_loop] has left: two for each code unit of the rest,
    and one more when the position is past the last cut. *)
Definition split_turns (st : mstate) (p : nat) : nat :=
  (2 * List.length (rest st) + (if (pos st =? p)%nat then 0 else 1))%nat.

(** An issue without its identifier: what two runs can be compared on. *)
Definition erase_id (i : QAIssue) : QAIssue :=
  {| issue_id := [];
     issue_unitId := issue_unitId i;
     issue_type := issue_type i;
     issue_severity := issue_severity i;
     issue_message := issue_message i;
     issue_source := issue_source i;
     issue_target := issue_target i;
     issue_key := issue_key i;
     issue_suggestion := issue_suggestion i;
     issue_index := issue_index i |}.

Definition with_id (id : jsstring) (i : QAIssue) : QAIssue :=
  {| issue_id := id;
     issue_unitId := issue_unitId i;
     issue_type := issue_type i;
     issue_severity := issue_severity i;
     issue_message := issue_message i;
     issue_source := issue_source i;
     issue_target := issue_target i;
     issue_key := issue_key i;
     issue_suggestion := issue_suggestion i;
     issue_index := issue_index i |}.

(** The identifier [generateIssueId] returns in a world, and the world
    it leaves. *)
Definition next_issue_id (w : World) : jsstring :=
  js "issue_" ++ substring 2 11 (random_source w (random_taken w)).

Definition after_random (w : World) : World :=
  {| random_source := random_source w;
     random_taken := S (random_taken w);
     clock_source := clock_source w;
     clock_taken := clock_taken w |}.

(** What a rule of type [t] does, whatever the world: nothing, or one
    issue of type [t] that takes one identifier from the world and
    nothing else. *)
Inductive rule_shape (t : IssueType) (m : M (option QAIssue)) : Prop :=
| shape_silent :
    (forall w, m w = (None, w)) -> rule_shape t m
| shape_emits (i : QAIssue) :
    issue_type i = t ->
    (forall w, m w = (Some (with_id (next_issue_id w) i), after_random w)) ->
    rule_shape t m.

(** A world to read the issue of a rule in, when only the issue without
    its identifier is wanted. *)
Definition blank_world : World :=
  {| random_source := fun _ => [];
     random_taken := 0;
     clock_source := fun _ => 0%N;
     clock_taken := 0 |}.

(** The issue of a rule, without identifier. *)
Definition finding (m : M (option QAIssue)) : option QAIssue :=
  option_map erase_id (fst (m blank_world)).

(** The issues of one unit without identifiers, rule by rule. *)
Definition unit_findings (rules : gmap IssueType bool)
  (index : nat) (cs : list (M (option QAIssue) * IssueType)) : list QAIssue :=
  omap (fun c : M (option QAIssue) * IssueType =>
          if rule_enabled rules (snd c)
          then option_map (fun i => set_index i index) (finding (fst c))
          else None)
    cs.

(** The number of issues of a type. *)
Definition count_type (t : IssueType) (issues : list QAIssue) : nat :=
  List.length (List.filter (fun i => bool_decide (issue_type i = t)) issues).

(** [stats.byType[t] || 0] *)
Definition byType_count (stats : QAStats) (t : IssueType) : nat :=
  default 0%nat (stats_byType stats !! t).

(** The config with one rule switched off. *)
Definition disable (r : IssueType) (c : QAConfig) : QAConfig :=
  {| config_rules := <[r := false]> (config_rules c);
     config_maxLengthRatio := config_maxLengthRatio c;
     config_ignorePatterns := config_ignorePatterns c;
     config_customPlaceholders := config_customPlaceholders c;
     config_checkHtmlTags := config_checkHtmlTags c;
     config_checkXmlTags := config_checkXmlTags c;
     config_checkPlaceholders := config_checkPlaceholders c;
     config_caseSensitive := config_caseSensitive c;
     config_glossary := config_glossary c |}.

(** A rule speaks when it returns an issue. *)
Definition emits (m : M (option QAIssue)) (w : World) : Prop :=
  exists i, fst (m w) = Some i.

(** The issues of a file without identifiers: unit by unit, rule by
    rule. *)
Definition file_findings {host : Platform} (file : TranslationFile)
  (config : QAConfig)
  : list QAIssue :=
  flat_map
    (fun unit =>
       unit_findings (merged_rules config) (unit_index unit)
         (checks unit (file_units file) config))
    (file_units file).

(** The entry of a type in a tally of [issues]: absent when the type has
    no issue, its count otherwise. *)
Definition tally_of (issues : list QAIssue) (t : IssueType) : option nat :=
  if (count_type t issues =? 0)%nat then None else Some (count_type t issues).

(** The statistics of a list of issues. *)
Definition stats_of (issues : list QAIssue) : QAStats :=
  {| stats_total := List.length issues;
     stats_errors := List.length (List.filter (has_severity error) issues);
     stats_warnings := List.length (List.filter (has_severity warning) issues);
     stats_info := List.length (List.filter (has_severity info) issues);
     stats_byType := count_by_type issues |}.

Definition not_of_type (r : IssueType) (i : QAIssue) : bool :=
  negb (bool_decide (issue_type i = r)).

(** What the scenario reads of an issue. *)
Definition scenario_view (i : QAIssue)
  : jsstring * option nat * IssueType * Severity :=
  (issue_unitId i, issue_index i, issue_type i, issue_severity i).

(** The units carry the indices 1, 2, 3, ... in their order. *)
Definition dense (units : list TranslationUnit) : Prop :=
  map unit_index units = seq 1 (List.length units).

(** The string leaves of a JSON value in the order of the traversal, each
    under its path: the keys of the objects and the positions in the
    arrays that lead to it.  This is the traversal as the specification
    words it (one unit per string leaf, under its path from the root),
    with arrays walked like objects. *)
Fixpoint string_leaves (v : json) : list (list jsstring * jsstring) :=
  match v with
  | JString s => [([], s)]
  | JObject entries =>
      flat_map
        (fun e : jsstring * json =>
           map (fun l : list jsstring * jsstring => (fst e :: fst l, snd l))
             (string_leaves (snd e)))
        entries
  | JArray items =>
      (fix walk (i : nat) (items : list json)
         : list (list jsstring * jsstring) :=
         match items with
         | [] => []
         | x :: items' =>
             map (fun l : list jsstring * jsstring =>
                    (decimal i :: fst l, snd l))
               (string_leaves x)
             ++ walk (S i) items'
         end) 0%nat items
  | _ => []
  end.

Definition is_container (v : json) : bool :=
  match v with
  | JObject _ | JArray _ => true
  | _ => false
  end.

(** No key at the top of the value is the empty string. *)
Definition top_keys_nonempty (v : json) : bool :=
  forallb (fun e : jsstring * json => truthy (fst e)) (Object_entries v).

(** The key the decoder builds along a path. *)
Definition path_key (prefix : jsstring) (path : list jsstring) : jsstring :=
  fold_left fullKey_of path prefix.

Definition key_and_source (u : TranslationUnit) : jsstring * jsstring :=
  (unit_key u, unit_source u).

Definition under (prefix : jsstring) (l : list jsstring * jsstring)
  : jsstring * jsstring :=
  (path_key prefix (fst l), snd l).

(** The leaves below the entries of a value. *)
Definition entry_leaves (e : jsstring * json)
  : list (list jsstring * jsstring) :=
  map (fun l : list jsstring * jsstring => (fst e :: fst l, snd l))
    (string_leaves (snd e)).

(** What [f] reads of the units of a file that was returned. *)
Definition decoded {A : Type} (f : TranslationUnit -> A)
  (o : outcome TranslationFile) : option (list A) :=
  match o with
  | Returns file => Some (map f (file_units file))
  | Throws _ => None
  end.

(** A path without the empty keys at its head. *)
Fixpoint drop_empty (path : list jsstring) : list jsstring :=
  match path with
  | [] => []
  | k :: path' => if truthy k then path else drop_empty path'
  end.

(** The path joined by dots, the empty keys at its head left out. *)
Definition dotted (path : list jsstring) : jsstring :=
  join (js ".") (drop_empty path).

(** The string leaves below the value the traversal starts from, each
    under its path: those of an object or an array; of a string, its
    code units, each under its position; none of a number, of a boolean
    or of [null]. *)
Definition root_leaves (v : json) : list (list jsstring * jsstring) :=
  match v with
  | JString s =>
      map (fun e : jsstring * N => ([fst e], [snd e])) (indexed_from 0 s)
  | _ => string_leaves v
  end.



(** A unit without its line number. *)
Definition without_line (u : TranslationUnit) : TranslationUnit :=
  {| unit_id := unit_id u;
     unit_key := unit_key u;
     unit_source := unit_source u;
     unit_target := unit_target u;
     unit_context := unit_context u;
     unit_notes := unit_notes u;
     unit_filePath := unit_filePath u;
     unit_lineNumber := None;
     unit_index := unit_index u |}.

(** Two lists of units that differ by the line numbers at most. *)
Definition same_but_lines (units units' : list TranslationUnit) : Prop :=
  map without_line units = map without_line units'.

End Vocabulary.
Export Vocabulary.

(** ** Vocabulary of the further properties *)

Module FurtherVocabulary.

(** The severity each rule gives its issues. *)
Definition severity_of (t : IssueType) : Severity :=
  match t with
  | missing_translation | empty_translation | inconsistent_brackets
  | inconsistent_placeholders | invalid_html_tags => error
  | duplicate_translation | formatting_issues | target_same_as_source => info
  | _ => warning
  end.

(** What a rule of type [t] does on a unit, whatever the world: nothing,
    or the issue that [new_issue] builds for that unit with the type [t]
    and the severity of [t]. *)
Inductive rule_report (unit : TranslationUnit) (t : IssueType)
  (m : M (option QAIssue)) : Prop :=
| report_silent :
    (forall w, m w = (None, w)) -> rule_report unit t m
| report_emits (message : jsstring) (suggestion : option jsstring) :
    (forall w, m w = new_issue unit t (severity_of t) message suggestion w) ->
    rule_report unit t m.

(** An issue is about a unit: it carries the identifier, the key, the
    source, the target and the index of the unit. *)
Definition about (unit : TranslationUnit) (i : QAIssue) : Prop :=
  issue_unitId i = unit_id unit
  /\ issue_index i = Some (unit_index unit)
  /\ issue_key i = unit_key unit
  /\ issue_source i = unit_source unit
  /\ issue_target i = unit_target unit.

(** The types of the table [checks], in its order. *)
Definition rule_order : list IssueType :=
  [ missing_translation; empty_translation; leading_trailing_spaces;
    inconsistent_brackets; inconsistent_placeholders;
    inconsistent_punctuation; inconsistent_numbers; inconsistent_urls;
    inconsistent_emails; too_long_translation; duplicate_translation;
    invalid_html_tags; invalid_xml_tags; special_characters_mismatch;
    formatting_issues; untranslated_text; target_same_as_source;
    key_term_mismatch; alphanumeric_mismatch; inconsistent_source;
    inconsistent_target ].

(** The issue lists of the units of a file, one after the other, each run
    of [checkUnit] starting in the world the one before left. *)
Fixpoint unit_runs {host : Platform} (allUnits units : list TranslationUnit)
  (config : QAConfig) (w : World) : list (list QAIssue) :=
  match units with
  | [] => []
  | unit :: units' =>
      fst (checkUnit unit allUnits config w)
      :: unit_runs allUnits units' config (snd (checkUnit unit allUnits config w))
  end.

(** The unit with another target. *)
Definition with_target (target : jsstring) (u : TranslationUnit)
  : TranslationUnit :=
  {| unit_id := unit_id u;
     unit_key := unit_key u;
     unit_source := unit_source u;
     unit_target := target;
     unit_context := unit_context u;
     unit_notes := unit_notes u;
     unit_filePath := unit_filePath u;
     unit_lineNumber := unit_lineNumber u;
     unit_index := unit_index u |}.

(** A rule is silent when it returns no issue. *)
Definition silent (m : M (option QAIssue)) : Prop :=
  forall w, m w = (None, w).

(** The identifier the [k]-th call of [generateIssueId] from a world
    returns. *)
Definition issue_id_at (w : World) (k : nat) : jsstring :=
  js "issue_" ++ substring 2 11 (random_source w (random_taken w + k)%nat).

(** The world [w'] is the world [w] after [n] calls of [Math.random] and
    nothing else. *)
Definition after_draws (n : nat) (w w' : World) : Prop :=
  random_source w' = random_source w
  /\ random_taken w' = (random_taken w + n)%nat
  /\ clock_source w' = clock_source w
  /\ clock_taken w' = clock_taken w.

(** What holds of the issues a unit gets under the rules [rules]. *)
Definition reported (rules : gmap IssueType bool) (unit : TranslationUnit)
  (i : QAIssue) : Prop :=
  about unit i
  /\ issue_severity i = severity_of (issue_type i)
  /\ rule_enabled rules (issue_type i) = true.

(** The type [parseFile] writes into the file it returns for a name that
    [detectFileType] gave the tag [t]: the decoders of YAML and of
    catalogues set the type themselves. *)
Definition declared_type (fileName : jsstring) (t : FileType) : FileType :=
  match t with
  | FT_yml => FT_yaml
  | FT_po | FT_pot => if endsWith (js ".pot") fileName then FT_pot else FT_po
  | _ => t
  end.

(** The formats whose decoders read one text per entry. *)
Definition monolingual_formats : list FileType :=
  [FT_json; FT_xml; FT_yaml; FT_yml; FT_properties; FT_resx].

(** The formats decoded line by line, at most one unit per line. *)
Definition one_per_line_formats : list FileType :=
  [FT_strings; FT_yaml; FT_yml; FT_properties; FT_csv; FT_tsv].


(** A property of the list of units that every [units.push] of a decoder
    keeps; with [monolingual], only the pushes of an empty target have to
    keep it. *)
Definition kept_by_push {host : Platform} (fileName : jsstring)
  (monolingual : bool) (I : list TranslationUnit -> Prop) : Prop :=
  forall units key source target context notes line w,
    (monolingual = true -> target = []) ->
    I units ->
    I (fst (push_unit units key source target context notes fileName line w)).

(** A unit made from an entry of a catalogue with a [msgid]: the source
    is not empty, and the key is the source, or the context, the code
    unit 4 and the source when the entry has a context. *)
Definition has_msgid (u : TranslationUnit) : Prop :=
  unit_source u <> []
  /\ (unit_key u = unit_source u /\ unit_context u = None
      \/ exists context,
           context <> []
           /\ unit_context u = Some context
           /\ unit_key u = context ++ [4%N] ++ unit_source u).

(** The cells of a line when the text [current] stands before them:
    it belongs to the first cell. *)
Definition join_first (current : jsstring) (cells : list jsstring)
  : list jsstring :=
  match cells with
  | h :: r => (current ++ h) :: r
  | [] => [current]
  end.

(** The target of the unit is empty or white space only. *)
Definition blank_target (u : TranslationUnit) : bool :=
  str_eqb (trim (unit_target u)) [].

(** The counter of a severity in the statistics. *)
Definition severity_count (stats : QAStats) (s : Severity) : nat :=
  match s with
  | error => stats_errors stats
  | warning => stats_warnings stats
  | info => stats_info stats
  end.

(** A glossary term with a source and a target. *)
Definition complete_term (term : GlossaryTerm) : Prop :=
  term_source term <> [] /\ term_target term <> [].

(** The results of runs of [runQA]. *)
Definition results_of {host : Platform}
  (runs : list (TranslationFile * QAConfig * World)) : list QAResult :=
  map (fun r : TranslationFile * QAConfig * World =>
         fst (runQA (fst (fst r)) (snd (fst r)) (snd r)))
    runs.

(** The element a decoder of an XML format makes one unit of. *)
Definition unit_element (t : FileType) : option jsstring :=
  match t with
  | FT_xliff | FT_sdlxliff => Some (js "trans-unit")
  | FT_resx => Some (js "data")
  | FT_tmx => Some (js "tu")
  | _ => None
  end.

End FurtherVocabulary.
Export FurtherVocabulary.
Lemma str_eqb_eq (a b : jsstring) : str_eqb a b = true <-> a = b.
Proof.
  revert b; induction a as [|x a IH]; intros [|y b]; simpl; split;
    try congruence; try discriminate; auto.
  - intros H. apply andb_true_iff in H as [Hx Hab].
    apply N.eqb_eq in Hx. apply IH in Hab. congruence.
  - intros H. injection H as -> ->. rewrite N.eqb_refl. simpl.
    apply IH. reflexivity.
Qed.

Lemma str_eqb_refl (a : jsstring) : str_eqb a a = true.
Proof. apply str_eqb_eq. reflexivity. Qed.

Lemma str_eqb_neq (a b : jsstring) : str_eqb a b = false <-> a <> b.
Proof.
  split.
  - intros H E. apply str_eqb_eq in E. congruence.
  - intros H. destruct (str_eqb a b) eqn:E; [|reflexivity].
    apply str_eqb_eq in E. contradiction.
Qed.

(** ** The matcher: the bounds of its loops are never reached *)

Section Matcher.

Local Open Scope nat_scope.

Lemma rmatch_Star (a : regex) (st : mstate) (k : mstate -> option mstate) :
  rmatch (Star a) st k = star_loop a k (List.length (rest st)) st.
Proof. reflexivity. Qed.

(** The matcher calls its continuation on states that are no further
    from the end of the string than the state it starts from: two
    continuations that agree there give the same result. *)
Lemma rmatch_ext (r : regex) :
  forall st k1 k2,
    (forall st', List.length (rest st') <= List.length (rest st) ->
                 k1 st' = k2 st') ->
    rmatch r st k1 = rmatch r st k2.
Proof.
  induction r as [| p | a IHa b IHb | a IHa b IHb | a IHa | a IHa
                 | g a IHa | | |]; intros st k1 k2 Hk; cbn [rmatch].
  - apply Hk. lia.
  - destruct (rest st) as [|c t] eqn:E; [reflexivity|].
    destruct (p c); [|reflexivity]. apply Hk. cbn [rest List.length]. lia.
  - apply IHa. intros st' Hst'. apply IHb. intros st'' Hst''. apply Hk. lia.
  - rewrite (IHa st k1 k2 Hk), (IHb st k1 k2 Hk). reflexivity.
  - rewrite (IHa st k1 k2 Hk), (Hk st) by lia. reflexivity.
  - fold (star_loop a k1) (star_loop a k2).
    assert (H : forall n st0,
               List.length (rest st0) <= List.length (rest st) ->
               star_loop a k1 n st0 = star_loop a k2 n st0).
    { induction n as [|n IHn]; intros st0 Hst0; cbn [star_loop].
      - apply Hk, Hst0.
      - rewrite (Hk st0 Hst0).
        rewrite (IHa st0 _
                   (fun st' =>
                      if List.length (rest st') <? List.length (rest st0)
                      then star_loop a k2 n st' else None)).
        + reflexivity.
        + intros st' Hst'. destruct (_ <? _); [|reflexivity].
          apply IHn. lia. }
    apply H. lia.
  - apply IHa. intros st' Hst'. apply Hk. exact Hst'.
  - destruct (prev st); [reflexivity|]. apply Hk. apply Nat.le_refl.
  - destruct (rest st) eqn:E; [|reflexivity]. apply Hk. rewrite E. apply Nat.le_refl.
  - destruct (xorb _ _); [|reflexivity]. apply Hk. apply Nat.le_refl.
Qed.

(** A continuation that always fails makes the match fail. *)
Lemma rmatch_fails (r : regex) (st : mstate) (k : mstate -> option mstate) :
  (forall st', List.length (rest st') <= List.length (rest st) ->
               k st' = None) ->
  rmatch r st k = None.
Proof.
  revert st k.
  induction r as [| p | a IHa b IHb | a IHa b IHb | a IHa | a IHa
                 | g a IHa | | |]; intros st k Hk; cbn [rmatch].
  - apply Hk. lia.
  - destruct (rest st) as [|c t] eqn:E; [reflexivity|].
    destruct (p c); [|reflexivity]. apply Hk. cbn [rest List.length]. lia.
  - apply IHa. intros st' Hst'. apply IHb. intros st'' Hst''. apply Hk. lia.
  - rewrite (IHa st k Hk). apply IHb, Hk.
  - rewrite (IHa st k Hk). apply Hk. lia.
  - fold (star_loop a k).
    assert (H : forall n st0,
               List.length (rest st0) <= List.length (rest st) ->
               star_loop a k n st0 = None).
    { induction n as [|n IHn]; intros st0 Hst0; cbn [star_loop].
      - apply Hk, Hst0.
      - rewrite IHa; [apply Hk, Hst0|].
        intros st' Hst'. destruct (_ <? _); [|reflexivity]. apply IHn. lia. }
    apply H. lia.
  - apply IHa. intros st' Hst'. apply Hk. exact Hst'.
  - destruct (prev st); [reflexivity|]. apply Hk. apply Nat.le_refl.
  - destruct (rest st) eqn:E; [|reflexivity]. apply Hk. rewrite E. apply Nat.le_refl.
  - destruct (xorb _ _); [|reflexivity]. apply Hk. apply Nat.le_refl.
Qed.

(** Any bound at least the length of the rest gives the same loop. *)
Lemma star_loop_bound (a : regex) (k : mstate -> option mstate) :
  forall n m st,
    List.length (rest st) <= n -> List.length (rest st) <= m ->
    star_loop a k n st = star_loop a k m st.
Proof.
  assert (Hzero : forall m st,
             List.length (rest st) = 0 -> star_loop a k m st = k st).
  { intros [|m] st Hst; cbn [star_loop]; [reflexivity|].
    rewrite rmatch_fails; [reflexivity|].
    intros st' Hst'. rewrite Hst.
    destruct (_ <? 0) eqn:E; [|reflexivity].
    apply Nat.ltb_lt in E. lia. }
  induction n as [|n IHn]; intros m st Hn Hm.
  - rewrite (Hzero m st) by lia. reflexivity.
  - destruct m as [|m].
    + rewrite (Hzero (S n) st) by lia. reflexivity.
    + cbn [star_loop]. erewrite rmatch_ext; [reflexivity|].
      intros st' Hst'. cbn beta.
      destruct (_ <? _) eqn:E; [|reflexivity].
      apply Nat.ltb_lt in E. apply IHn; lia.
Qed.

(** The equation of the greedy star: one more turn of [a] that consumes
    something and then the star again, or else the rest of the pattern.
    The bound of the loop does not show. *)
Lemma rmatch_Star_unfold (a : regex) (st : mstate)
  (k : mstate -> option mstate) :
  rmatch (Star a) st k
  = match rmatch a st
            (fun st' =>
               if List.length (rest st') <? List.length (rest st)
               then rmatch (Star a) st' k else None) with
    | Some r => Some r
    | None => k st
    end.
Proof.
  rewrite rmatch_Star.
  destruct (List.length (rest st)) as [|n] eqn:En.
  - cbn [star_loop]. rewrite rmatch_fails; [reflexivity|].
    intros st' Hst'. destruct (_ <? 0) eqn:E; [|reflexivity].
    apply Nat.ltb_lt in E. lia.
  - cbn [star_loop]. erewrite rmatch_ext; [reflexivity|].
    intros st' Hst'. cbn beta. rewrite En.
    destruct (_ <? _) eqn:E; [|reflexivity].
    apply Nat.ltb_lt in E. rewrite rmatch_Star.
    apply star_loop_bound; lia.
Qed.

(** A match ends no further from the end of the string than it
    starts. *)
Ltac here :=
  match goal with
  | H : ?k ?st = Some _ |- exists st', _ /\ ?k st' = Some _ =>
      exists st; split; [apply Nat.le_refl | exact H]
  end.

Lemma rmatch_reaches (r : regex) :
  forall st k x,
    rmatch r st k = Some x ->
    exists st', List.length (rest st') <= List.length (rest st)
                /\ k st' = Some x.
Proof.
  induction r as [| p | a IHa b IHb | a IHa b IHb | a IHa | a IHa
                 | g a IHa | | |]; intros st k x H; cbn [rmatch] in H.
  - here.
  - destruct (rest st) as [|c t] eqn:E; [discriminate|].
    destruct (p c); [|discriminate].
    eexists. split; [|exact H]. cbn [rest List.length]. lia.
  - apply IHa in H as (st1 & H1 & H). apply IHb in H as (st2 & H2 & H).
    exists st2. split; [lia|exact H].
  - destruct (rmatch a st k) eqn:Ea.
    + injection H as <-. apply IHa in Ea. exact Ea.
    + apply IHb in H. exact H.
  - destruct (rmatch a st k) eqn:Ea.
    + injection H as <-. apply IHa in Ea. exact Ea.
    + here.
  - fold (star_loop a k) in H.
    assert (Hs : forall n st0 x,
               star_loop a k n st0 = Some x ->
               exists st', List.length (rest st') <= List.length (rest st0)
                           /\ k st' = Some x).
    { induction n as [|n IHn]; intros st0 y Hy; cbn [star_loop] in Hy.
      - exists st0. split; [apply Nat.le_refl | exact Hy].
      - destruct (rmatch a st0 _) eqn:Ea.
        + injection Hy as <-. apply IHa in Ea as (st1 & H1 & Ea).
          destruct (_ <? _); [|discriminate].
          apply IHn in Ea as (st2 & H2 & Ea). exists st2. split; [lia|exact Ea].
        + exists st0. split; [apply Nat.le_refl | exact Hy]. }
    apply (Hs _ _ _ H).
  - apply IHa in H as (st1 & H1 & H). eexists. split; [|exact H].
    cbn [rest]. exact H1.
  - destruct (prev st); [discriminate|]. here.
  - destruct (rest st) eqn:E; [|discriminate]. exists st. rewrite E.
    split; [apply Nat.le_refl | exact H].
  - destruct (xorb _ _); [|discriminate]. here.
Qed.

Lemma match_here_shorter (r : regex) (st st' : mstate) :
  match_here r st = Some st' ->
  List.length (rest st') <= List.length (rest st).
Proof.
  intros H. apply rmatch_reaches in H as (st1 & H1 & [= <-]). exact H1.
Qed.

(** The position moves with the rest: what a match consumes is what it
    advances by. *)
Lemma rmatch_position (r : regex) :
  forall st k x,
    rmatch r st k = Some x ->
    exists st', pos st' + List.length (rest st')
                = pos st + List.length (rest st)
                /\ k st' = Some x.
Proof.
  induction r as [| p | a IHa b IHb | a IHa b IHb | a IHa | a IHa
                 | g a IHa | | |]; intros st k x H; cbn [rmatch] in H.
  - exists st. split; [reflexivity|exact H].
  - destruct (rest st) as [|c t] eqn:E; [discriminate|].
    destruct (p c); [|discriminate].
    eexists. split; [|exact H]. cbn [rest pos List.length]. lia.
  - apply IHa in H as (st1 & H1 & H). apply IHb in H as (st2 & H2 & H).
    exists st2. split; [lia|exact H].
  - destruct (rmatch a st k) eqn:Ea.
    + injection H as <-. apply IHa in Ea. exact Ea.
    + apply IHb in H. exact H.
  - destruct (rmatch a st k) eqn:Ea.
    + injection H as <-. apply IHa in Ea. exact Ea.
    + exists st. split; [reflexivity|exact H].
  - fold (star_loop a k) in H.
    assert (Hs : forall n st0 x,
               star_loop a k n st0 = Some x ->
               exists st', pos st' + List.length (rest st')
                           = pos st0 + List.length (rest st0)
                           /\ k st' = Some x).
    { induction n as [|n IHn]; intros st0 y Hy; cbn [star_loop] in Hy.
      - exists st0. split; [reflexivity|exact Hy].
      - destruct (rmatch a st0 _) eqn:Ea.
        + injection Hy as <-. apply IHa in Ea as (st1 & H1 & Ea).
          destruct (_ <? _); [|discriminate].
          apply IHn in Ea as (st2 & H2 & Ea). exists st2. split; [lia|exact Ea].
        + exists st0. split; [reflexivity|exact Hy]. }
    apply (Hs _ _ _ H).
  - apply IHa in H as (st1 & H1 & H). eexists. split; [|exact H].
    cbn [rest pos]. exact H1.
  - destruct (prev st); [discriminate|]. exists st. split; [reflexivity|exact H].
  - destruct (rest st) eqn:E; [|discriminate]. exists st. rewrite E.
    split; [reflexivity|exact H].
  - destruct (xorb _ _); [|discriminate]. exists st. split; [reflexivity|exact H].
Qed.

Lemma match_here_position (r : regex) (st st' : mstate) :
  match_here r st = Some st' ->
  pos st' + List.length (rest st') = pos st + List.length (rest st).
Proof.
  intros H. apply rmatch_position in H as (st1 & H1 & [= <-]). exact H1.
Qed.

Lemma advance_shorter (st st1 : mstate) :
  advance st = Some st1 ->
  S (List.length (rest st1)) = List.length (rest st).
Proof.
  unfold advance. destruct (rest st) as [|c t]; [discriminate|].
  intros [= <-]. reflexivity.
Qed.

(** What [search_from] finds: a match that ends no further from the end
    than the search starts, and strictly nearer when it is not empty. *)
Lemma search_from_shorter (r : regex) :
  forall n st m st',
    search_from r n st = Some (m, st') ->
    List.length (rest st') <= List.length (rest st)
    /\ (m_end m <> m_start m ->
        List.length (rest st') < List.length (rest st)).
Proof.
  induction n as [|n IHn]; intros st m st' H; cbn [search_from] in H.
  - destruct (match_here r _) as [st1|] eqn:E; [|discriminate].
    injection H as <- <-. cbn [m_end m_start].
    pose proof (match_here_shorter _ _ _ E) as Hs.
    pose proof (match_here_position _ _ _ E) as Hp.
    cbn [rest pos] in Hs, Hp. split; [exact Hs|]. intros Hne. lia.
  - destruct (match_here r _) as [st1|] eqn:E.
    + injection H as <- <-. cbn [m_end m_start].
      pose proof (match_here_shorter _ _ _ E) as Hs.
      pose proof (match_here_position _ _ _ E) as Hp.
      cbn [rest pos] in Hs, Hp. split; [exact Hs|]. intros Hne. lia.
    + destruct (advance st) as [st1|] eqn:Ea; [|discriminate].
      apply advance_shorter in Ea. apply IHn in H as [H1 H2].
      split; [lia|]. intros Hne. specialize (H2 Hne). lia.
Qed.

Lemma search_from_bound (r : regex) :
  forall n m st,
    List.length (rest st) <= n -> List.length (rest st) <= m ->
    search_from r n st = search_from r m st.
Proof.
  induction n as [|n IHn]; intros m st Hn Hm.
  - destruct m as [|m]; [reflexivity|]. cbn [search_from].
    destruct (match_here r _); [reflexivity|].
    unfold advance. destruct (rest st); [reflexivity|].
    cbn [List.length] in Hn. lia.
  - destruct m as [|m]; cbn [search_from].
    + destruct (match_here r _); [reflexivity|].
      unfold advance. destruct (rest st); [reflexivity|].
      cbn [List.length] in Hm. lia.
    + destruct (match_here r _); [reflexivity|].
      destruct (advance st) as [st1|] eqn:Ea; [|reflexivity].
      apply advance_shorter in Ea. apply IHn; lia.
Qed.

(** The list of all matches does not depend on the bound of its loop,
    once the bound exceeds the length of the rest: the loop ends on its
    own, each match moving the search on. *)
Lemma exec_all_from_bound (r : regex) :
  forall n m st,
    List.length (rest st) < n -> List.length (rest st) < m ->
    exec_all_from r n st = exec_all_from r m st.
Proof.
  induction n as [|n IHn]; intros m st Hn Hm; [lia|].
  destruct m as [|m]; [lia|]. cbn [exec_all_from].
  destruct (search_from r _ st) as [[x st']|] eqn:Es; [|reflexivity].
  apply search_from_shorter in Es as [H1 H2].
  destruct (m_end x =? m_start x) eqn:Ee.
  - destruct (advance st') as [st1|] eqn:Ea; [|reflexivity].
    apply advance_shorter in Ea. f_equal. apply IHn; lia.
  - apply Nat.eqb_neq in Ee. specialize (H2 Ee). f_equal. apply IHn; lia.
Qed.

(** [match_all] with any larger bound. *)
Lemma exec_all_bound (r : regex) (s : jsstring) (n : nat) :
  List.length s < n ->
  exec_all r s = exec_all_from r n (start_state s).
Proof.
  intros Hn. unfold exec_all. apply exec_all_from_bound; cbn [rest start_state]; lia.
Qed.

Lemma split_loop_bound (r : regex) :
  forall n m st p acc,
    split_turns st p < n -> split_turns st p < m ->
    split_loop r n st p acc = split_loop r m st p acc.
Proof.
  induction n as [|n IHn]; intros m st p acc Hn Hm; [lia|].
  destruct m as [|m]; [lia|]. cbn [split_loop].
  destruct (rest st) as [|c t] eqn:Er; [reflexivity|].
  assert (Hstep : forall acc',
             split_loop r n (MState (Some c) t (S (pos st)) []) p acc'
             = split_loop r m (MState (Some c) t (S (pos st)) []) p acc').
  { intros acc'. apply IHn; unfold split_turns in *; cbn [rest pos];
      rewrite Er in *; cbn [List.length] in *;
      destruct (S (pos st) =? p), (pos st =? p); lia. }
  destruct (match_here r _) as [st'|] eqn:E; [|apply Hstep].
  destruct (pos st' =? p) eqn:Ep; [apply Hstep|].
  f_equal.
  pose proof (match_here_shorter _ _ _ E) as Hs.
  pose proof (match_here_position _ _ _ E) as Hp.
  cbn [rest pos List.length] in Hs, Hp.
  apply Nat.eqb_neq in Ep.
  apply IHn; unfold split_turns in *; cbn [rest pos];
    rewrite Er in *; cbn [List.length] in *; rewrite Nat.eqb_refl;
    destruct (pos st =? p) eqn:Eq;
    try (apply Nat.eqb_eq in Eq); lia.
Qed.

End Matcher.

(** ** Strings *)

Lemma split_on_nonempty (c : N) (s : jsstring) : split_on c s <> [].
Proof.
  induction s as [|x s IH]; cbn [split_on]; [discriminate|].
  destruct (N.eqb x c); [discriminate|].
  destruct (split_on c s); discriminate.
Qed.

(** ** The key stack of the YAML decoder *)

Lemma removelast_firstn_length {A : Type} (l : list A) :
  removelast l = firstn (List.length l - 1) l.
Proof.
  induction l as [|x l IH]; [reflexivity|].
  destruct l as [|y l]; [reflexivity|].
  cbn [removelast List.length Nat.sub firstn] in *. rewrite IH.
  rewrite Nat.sub_0_r. reflexivity.
Qed.

(** The loop that pops the key stack ends on its own: with a bound of at
    least the height of the stack it leaves the lowest [indent / 2] keys,
    or the whole stack when it is not higher. *)
Lemma pop_while_firstn (indent : nat) :
  forall n keyStack,
    (List.length keyStack <= n)%nat ->
    pop_while n indent keyStack
    = firstn (Nat.min (List.length keyStack) (indent / 2)) keyStack.
Proof.
  induction n as [|n IH]; intros keyStack Hn.
  - destruct keyStack; [reflexivity|]. cbn [List.length] in Hn. lia.
  - cbn [pop_while]. destruct (indent <? 2 * List.length keyStack)%nat eqn:E.
    + apply Nat.ltb_lt in E.
      assert (Hlen : List.length (removelast keyStack)
                     = (List.length keyStack - 1)%nat).
      { rewrite removelast_firstn_length, length_firstn. lia. }
      rewrite IH by lia. rewrite Hlen.
      assert (Hd : (indent / 2 < List.length keyStack)%nat).
      { apply Nat.Div0.div_lt_upper_bound. lia. }
      rewrite !Nat.min_r by lia.
      rewrite removelast_firstn_length, firstn_firstn.
      rewrite Nat.min_l by lia. reflexivity.
    + apply Nat.ltb_ge in E.
      assert (Hd : (List.length keyStack <= indent / 2)%nat).
      { apply Nat.div_le_lower_bound; lia. }
      rewrite Nat.min_l by lia. rewrite firstn_all. reflexivity.
Qed.

(** ** The monad and its loops *)

Lemma for_of_cons {A St : Type} (x : A) (xs : list A)
  (body : A -> St -> M St) (s : St) (w : World) :
  for_of (x :: xs) body s w = for_of xs body (fst (body x s w)) (snd (body x s w)).
Proof. simpl. unfold bind. destruct (body x s w). reflexivity. Qed.

(** A loop keeps what each turn keeps. *)
Lemma for_of_invariant {A St : Type} (P : St -> Prop) (xs : list A)
  (body : A -> St -> M St) :
  (forall x s w, P s -> P (fst (body x s w))) ->
  forall s w, P s -> P (fst (for_of xs body s w)).
Proof.
  intros Hbody. induction xs as [|x xs IH]; intros s w Hs.
  - exact Hs.
  - rewrite for_of_cons. apply IH, Hbody, Hs.
Qed.

Lemma for_index_cons {A St : Type} (i : nat) (x : A) (xs : list A)
  (body : nat -> A -> St -> M St) (s : St) (w : World) :
  for_index i (x :: xs) body s w
  = for_index (S i) xs body (fst (body i x s w)) (snd (body i x s w)).
Proof. simpl. unfold bind. destruct (body i x s w). reflexivity. Qed.

Lemma for_index_invariant {A St : Type} (P : St -> Prop) (xs : list A)
  (body : nat -> A -> St -> M St) :
  (forall i x s w, P s -> P (fst (body i x s w))) ->
  forall i s w, P s -> P (fst (for_index i xs body s w)).
Proof.
  intros Hbody. induction xs as [|x xs IH]; intros i s w Hs.
  - exact Hs.
  - rewrite for_index_cons. apply IH, Hbody, Hs.
Qed.

Lemma bind_run {A B : Type} (m : M A) (f : A -> M B) (w : World) :
  bind m f w = f (fst (m w)) (snd (m w)).
Proof. unfold bind. destruct (m w). reflexivity. Qed.

(** ** The shape of the rules *)

Lemma no_issue_shape (t : IssueType) : rule_shape t no_issue.
Proof. apply shape_silent. reflexivity. Qed.

Lemma new_issue_shape (unit : TranslationUnit) (t : IssueType)
  (sev : Severity) (msg : jsstring) (sug : option jsstring) :
  rule_shape t (new_issue unit t sev msg sug).
Proof.
  apply shape_emits with
    (i := {| issue_id := [];
             issue_unitId := unit_id unit;
             issue_type := t;
             issue_severity := sev;
             issue_message := msg;
             issue_source := unit_source unit;
             issue_target := unit_target unit;
             issue_key := unit_key unit;
             issue_suggestion := sug;
             issue_index := None |}).
  - reflexivity.
  - intros w. reflexivity.
Qed.

Ltac case_if :=
  match goal with
  | |- rule_shape _ (if ?c then _ else _) => destruct c
  end.

Ltac shape :=
  repeat match goal with
    | |- rule_shape _ (new_issue _ _ _ _ _) => apply new_issue_shape
    | |- rule_shape _ no_issue => apply no_issue_shape
    | |- rule_shape _ (if ?c then _ else _) => destruct c
    | |- rule_shape _ (match ?x with _ => _ end) => destruct x
    end.

Section RuleShapes.

Context {host : Platform}.

Lemma checkInconsistentBrackets_loop_shape unit pairs :
  rule_shape inconsistent_brackets (checkInconsistentBrackets_loop unit pairs).
Proof.
  induction pairs as [|[op cl] pairs IH]; simpl; [shape|].
  case_if; [shape | exact IH].
Qed.

Lemma checkInconsistentPlaceholders_loop_shape unit patterns :
  rule_shape inconsistent_placeholders
    (checkInconsistentPlaceholders_loop unit patterns).
Proof.
  induction patterns as [|p patterns IH]; simpl; [shape|].
  case_if; [shape | exact IH].
Qed.

Lemma checkSpecialCharactersMismatch_loop_shape unit chars :
  rule_shape special_characters_mismatch
    (checkSpecialCharactersMismatch_loop unit chars).
Proof.
  induction chars as [|c chars IH]; simpl; [shape|].
  case_if; [shape | exact IH].
Qed.

Lemma checkInvalidHtmlTags_loop_shape unit tags openTags :
  rule_shape invalid_html_tags (checkInvalidHtmlTags_loop unit tags openTags).
Proof.
  revert openTags. induction tags as [|tag tags IH]; intros openTags; simpl.
  - shape.
  - case_if.
    + case_if; [shape | apply IH].
    + case_if; [|apply IH].
      case_if; apply IH.
Qed.

(** Every entry of the table [checks] is a rule of the type it is listed
    under. *)
Lemma checks_shape unit allUnits config :
  Forall (fun c : M (option QAIssue) * IssueType => rule_shape (snd c) (fst c))
    (checks unit allUnits config).
Proof.
  unfold checks.
  repeat (apply List.Forall_cons; [ cbn [fst snd] | ]);
    try apply List.Forall_nil.
  - unfold checkMissingTranslation. shape.
  - unfold checkEmptyTranslation. shape.
  - unfold checkLeadingTrailingSpaces. cbv zeta. shape.
  - apply checkInconsistentBrackets_loop_shape.
  - apply checkInconsistentPlaceholders_loop_shape.
  - unfold checkInconsistentPunctuation. cbv zeta. shape.
  - unfold checkInconsistentNumbers. cbv zeta. shape.
  - unfold checkInconsistentURLs. cbv zeta. shape.
  - unfold checkInconsistentEmails. cbv zeta. shape.
  - unfold checkTooLongTranslation. cbv zeta. shape.
  - unfold checkDuplicateTranslation. cbv zeta. shape.
  - apply checkInvalidHtmlTags_loop_shape.
  - unfold checkInvalidXmlTags. cbv zeta. shape.
  - apply checkSpecialCharactersMismatch_loop_shape.
  - unfold checkFormattingIssues. shape.
  - unfold checkUntranslatedText. cbv zeta. shape.
  - unfold checkTargetSameAsSource. shape.
  - unfold checkKeyTermMismatch. cbv zeta. shape.
  - unfold checkAlphanumericMismatch. cbv zeta. shape.
  - unfold checkInconsistentSource. cbv zeta. shape.
  - unfold checkInconsistentTarget. cbv zeta. shape.
Qed.

End RuleShapes.

(** ** The issues of a run, without identifiers *)

Lemma shape_finding (t : IssueType) (m : M (option QAIssue)) :
  rule_shape t m -> forall w, option_map erase_id (fst (m w)) = finding m.
Proof.
  intros [Hm | i Ht Hm] w; unfold finding; rewrite !Hm; reflexivity.
Qed.

Lemma shape_finding_type (t : IssueType) (m : M (option QAIssue)) :
  rule_shape t m -> forall i, finding m = Some i -> issue_type i = t.
Proof.
  intros [Hm | i0 Ht Hm] i; unfold finding; rewrite Hm; simpl.
  - discriminate.
  - intros [= <-]. exact Ht.
Qed.

Section Findings.

Context {host : Platform}.

Lemma run_check_erased rules unit (c : M (option QAIssue) * IssueType)
  issues w :
  rule_shape (snd c) (fst c) ->
  map erase_id (fst (run_check rules unit c issues w))
  = map erase_id issues ++ unit_findings rules (unit_index unit) [c].
Proof.
  intros Hc. destruct c as [m t]. unfold run_check, unit_findings.
  cbn [fst snd omap list_omap] in *.
  destruct (rule_enabled rules t).
  - rewrite bind_run. rewrite <- (shape_finding t m Hc w).
    destruct (fst (m w)) as [i|]; simpl.
    + rewrite map_app. reflexivity.
    + rewrite app_nil_r. reflexivity.
  - simpl. rewrite app_nil_r. reflexivity.
Qed.

Lemma unit_findings_cons rules index c cs :
  unit_findings rules index (c :: cs)
  = unit_findings rules index [c] ++ unit_findings rules index cs.
Proof.
  unfold unit_findings. cbn [omap list_omap].
  destruct (if rule_enabled rules (snd c) then _ else _); reflexivity.
Qed.

Lemma checks_loop_erased rules unit cs issues w :
  Forall (fun c : M (option QAIssue) * IssueType => rule_shape (snd c) (fst c))
    cs ->
  map erase_id (fst (for_of cs (run_check rules unit) issues w))
  = map erase_id issues ++ unit_findings rules (unit_index unit) cs.
Proof.
  intros Hcs. revert issues w.
  induction Hcs as [|c cs Hc Hcs IH]; intros issues w.
  - simpl. rewrite app_nil_r. reflexivity.
  - rewrite for_of_cons, IH, run_check_erased by exact Hc.
    rewrite (unit_findings_cons rules _ c cs), app_assoc. reflexivity.
Qed.

(** The issues [checkUnit] returns are, identifiers apart, the findings
    of the enabled rules in the order of the table. *)
Lemma checkUnit_erased unit allUnits config w :
  map erase_id (fst (checkUnit unit allUnits config w))
  = unit_findings (merged_rules config) (unit_index unit)
      (checks unit allUnits config).
Proof.
  unfold checkUnit. rewrite checks_loop_erased by apply checks_shape.
  reflexivity.
Qed.

Lemma units_loop_erased (allUnits units : list TranslationUnit) config
  issues w :
  map erase_id
    (fst (for_of units
            (fun unit allIssues =>
               issues <- checkUnit unit allUnits config ;;
               ret (allIssues ++ issues))
            issues w))
  = map erase_id issues
    ++ flat_map
         (fun unit =>
            unit_findings (merged_rules config) (unit_index unit)
              (checks unit allUnits config))
         units.
Proof.
  revert issues w. induction units as [|u units IH]; intros issues w.
  - simpl. rewrite app_nil_r. reflexivity.
  - rewrite for_of_cons, IH. rewrite bind_run. cbn [ret fst].
    rewrite map_app, checkUnit_erased. cbn [flat_map].
    rewrite app_assoc. reflexivity.
Qed.

Lemma runQA_issues file config w :
  result_issues (fst (runQA file config w))
  = fst (for_of (file_units file)
           (fun unit allIssues =>
              issues <- checkUnit unit (file_units file) config ;;
              ret (allIssues ++ issues))
           [] w).
Proof.
  unfold runQA. rewrite bind_run. cbv zeta. rewrite bind_run. reflexivity.
Qed.

Lemma runQA_erased file config w :
  map erase_id (result_issues (fst (runQA file config w)))
  = file_findings file config.
Proof. rewrite runQA_issues, units_loop_erased. reflexivity. Qed.

(** The statistics are computed from the list of issues. *)
Lemma runQA_stats file config w :
  let issues := result_issues (fst (runQA file config w)) in
  result_stats (fst (runQA file config w))
  = {| stats_total := List.length issues;
       stats_errors := List.length (List.filter (has_severity error) issues);
       stats_warnings :=
         List.length (List.filter (has_severity warning) issues);
       stats_info := List.length (List.filter (has_severity info) issues);
       stats_byType := count_by_type issues |}.
Proof.
  unfold runQA. rewrite !bind_run. cbv zeta. rewrite ?bind_run. reflexivity.
Qed.

End Findings.

(** ** Statistics *)

Lemma severity_partition (issues : list QAIssue) :
  (List.length (List.filter (has_severity error) issues)
   + List.length (List.filter (has_severity warning) issues)
   + List.length (List.filter (has_severity info) issues)
   = List.length issues)%nat.
Proof.
  induction issues as [|i issues IH]; [reflexivity|].
  unfold has_severity in *. cbn [List.filter].
  destruct (issue_severity i); simpl; lia.
Qed.

Lemma count_type_snoc (t : IssueType) (issues : list QAIssue) (i : QAIssue) :
  count_type t (issues ++ [i])
  = (count_type t issues + if bool_decide (issue_type i = t) then 1 else 0)%nat.
Proof.
  unfold count_type. rewrite List.filter_app, length_app. cbn [List.filter].
  destruct (bool_decide (issue_type i = t)); reflexivity.
Qed.

Lemma count_by_type_from (seen issues : list QAIssue)
  (byType : gmap IssueType nat) :
  (forall t, byType !! t = tally_of seen t) ->
  forall t,
    fold_left
      (fun byType issue =>
         <[issue_type issue := (default 0 (byType !! issue_type issue) + 1)%nat]>
           byType)
      issues byType !! t
    = tally_of (seen ++ issues) t.
Proof.
  revert seen byType. induction issues as [|i issues IH]; intros seen byType H t.
  - rewrite app_nil_r. apply H.
  - cbn [fold_left].
    replace (seen ++ i :: issues) with ((seen ++ [i]) ++ issues)
      by (rewrite <- app_assoc; reflexivity).
    apply IH. clear t. intros t. unfold tally_of. rewrite count_type_snoc.
    destruct (decide (issue_type i = t)) as [E|N].
    + subst t. rewrite lookup_insert_eq, H. unfold tally_of.
      rewrite bool_decide_eq_true_2 by reflexivity.
      destruct (count_type (issue_type i) seen) as [|n] eqn:En; simpl.
      * reflexivity.
      * replace (n + 1 =? 0)%nat with false
          by (symmetry; apply Nat.eqb_neq; lia).
        reflexivity.
    + rewrite lookup_insert_ne by exact N.
      rewrite bool_decide_eq_false_2 by exact N.
      rewrite Nat.add_0_r. apply H.
Qed.

Lemma count_by_type_lookup (issues : list QAIssue) (t : IssueType) :
  count_by_type issues !! t = tally_of issues t.
Proof.
  unfold count_by_type.
  apply (count_by_type_from [] issues ∅). intros t'. reflexivity.
Qed.

(** C1. Statistic closure: in the result of [runQA], errors + warnings +
    info = total = the number of issues, and for every issue type the
    entry of [byType] is the number of issues of that type.  A type
    without issue has no entry; it reads as 0, the way the source reads an
    entry ([byType[t] || 0]). *)
Theorem statistic_closure {host : Platform} (file : TranslationFile)
  (config : QAConfig) (w : World) :
  let result := fst (runQA file config w) in
  let stats := result_stats result in
  (stats_errors stats + stats_warnings stats + stats_info stats
   = stats_total stats)%nat
  /\ stats_total stats = List.length (result_issues result)
  /\ (forall t, byType_count stats t = count_type t (result_issues result))
  /\ (forall t, stats_byType stats !! t = tally_of (result_issues result) t).
Proof.
  intros result stats. subst stats result. rewrite runQA_stats. cbv zeta.
  cbn [stats_errors stats_warnings stats_info stats_total stats_byType].
  split; [apply severity_partition|].
  split; [reflexivity|].
  split; intros t.
  - unfold byType_count. cbn [stats_byType]. rewrite count_by_type_lookup.
    unfold tally_of.
    destruct (count_type t _ =? 0)%nat eqn:E; simpl; [|reflexivity].
    apply Nat.eqb_eq in E. congruence.
  - apply count_by_type_lookup.
Qed.

(** ** Determinism *)

Lemma filter_severity_erased (s : Severity) (issues : list QAIssue) :
  List.length (List.filter (has_severity s) (map erase_id issues))
  = List.length (List.filter (has_severity s) issues).
Proof.
  induction issues as [|i issues IH]; [reflexivity|].
  cbn [map List.filter]. unfold has_severity in *. cbn [erase_id issue_severity].
  destruct (bool_decide (issue_severity i = s)); simpl; congruence.
Qed.

Lemma count_by_type_erased (issues : list QAIssue) :
  count_by_type (map erase_id issues) = count_by_type issues.
Proof.
  unfold count_by_type. generalize (∅ : gmap IssueType nat).
  induction issues as [|i issues IH]; intros m; [reflexivity|].
  cbn [map fold_left]. apply IH.
Qed.

Lemma stats_of_erased (issues : list QAIssue) :
  stats_of (map erase_id issues) = stats_of issues.
Proof.
  unfold stats_of.
  rewrite !filter_severity_erased, count_by_type_erased, length_map.
  reflexivity.
Qed.

(** C2. Determinism: two runs of [runQA] on the same file and config, in
    any two worlds, return issue lists of the same length whose (index,
    type, severity, message) coincide position by position; the issues
    are equal in every field but the identifier, and so are the
    statistics and the rest of the result but the completion time. *)
Theorem runQA_deterministic {host : Platform} (file : TranslationFile)
  (config : QAConfig) (w1 w2 : World) :
  let r1 := fst (runQA file config w1) in
  let r2 := fst (runQA file config w2) in
  let observed (i : QAIssue) :=
    (issue_index i, issue_type i, issue_severity i, issue_message i) in
  List.length (result_issues r1) = List.length (result_issues r2)
  /\ map observed (result_issues r1) = map observed (result_issues r2)
  /\ map erase_id (result_issues r1) = map erase_id (result_issues r2)
  /\ result_stats r1 = result_stats r2
  /\ result_fileId r1 = result_fileId r2
  /\ result_fileName r1 = result_fileName r2
  /\ result_totalUnits r1 = result_totalUnits r2.
Proof.
  intros r1 r2 observed.
  assert (E : map erase_id (result_issues r1) = map erase_id (result_issues r2)).
  { subst r1 r2. rewrite !runQA_erased. reflexivity. }
  split; [|split; [|split; [exact E|split]]].
  - rewrite <- (length_map erase_id (result_issues r1)), E. apply length_map.
  - assert (O : forall l, map observed l = map observed (map erase_id l)).
    { intros l. rewrite map_map. reflexivity. }
    rewrite (O (result_issues r1)), (O (result_issues r2)), E. reflexivity.
  - subst r1 r2. rewrite !runQA_stats. cbv zeta.
    fold (stats_of (result_issues (fst (runQA file config w1)))).
    fold (stats_of (result_issues (fst (runQA file config w2)))).
    rewrite <- stats_of_erased, E. apply stats_of_erased.
  - subst r1 r2. unfold runQA. rewrite !bind_run. cbv zeta.
    rewrite ?bind_run. auto.
Qed.

(** ** Rule independence *)

Lemma rule_enabled_disable (r t : IssueType) (config : QAConfig) :
  rule_enabled (merged_rules (disable r config)) t
  = if decide (t = r) then false
    else rule_enabled (merged_rules config) t.
Proof.
  unfold rule_enabled, merged_rules, disable. cbn [config_rules].
  rewrite !lookup_union.
  destruct (decide (t = r)) as [->|N].
  - rewrite lookup_insert_eq.
    destruct (config_rules DEFAULT_CONFIG !! r); reflexivity.
  - rewrite lookup_insert_ne by congruence. reflexivity.
Qed.

Lemma unit_findings_disable (r : IssueType) (config : QAConfig) (index : nat)
  (cs : list (M (option QAIssue) * IssueType)) :
  Forall (fun c : M (option QAIssue) * IssueType => rule_shape (snd c) (fst c))
    cs ->
  unit_findings (merged_rules (disable r config)) index cs
  = List.filter (not_of_type r)
      (unit_findings (merged_rules config) index cs).
Proof.
  induction 1 as [|[m t] cs Hc Hcs IH]; [reflexivity|].
  rewrite (unit_findings_cons _ _ (m, t) cs).
  rewrite (unit_findings_cons (merged_rules config) _ (m, t) cs).
  rewrite List.filter_app, IH. f_equal.
  unfold unit_findings. cbn [omap list_omap fst snd] in *.
  rewrite rule_enabled_disable.
  destruct (decide (t = r)) as [->|N].
  - destruct (rule_enabled (merged_rules config) r); [|reflexivity].
    destruct (finding m) as [i|] eqn:Ei; [|reflexivity].
    cbn [option_map List.filter]. unfold not_of_type. cbn [set_index issue_type].
    rewrite (shape_finding_type r m Hc i Ei).
    rewrite bool_decide_eq_true_2 by reflexivity. reflexivity.
  - destruct (rule_enabled (merged_rules config) t); [|reflexivity].
    destruct (finding m) as [i|] eqn:Ei; [|reflexivity].
    cbn [option_map List.filter]. unfold not_of_type. cbn [set_index issue_type].
    rewrite (shape_finding_type t m Hc i Ei).
    rewrite bool_decide_eq_false_2 by exact N. reflexivity.
Qed.

Lemma filter_flat_map {A B : Type} (p : B -> bool) (f : A -> list B)
  (l : list A) :
  List.filter p (flat_map f l) = flat_map (fun x => List.filter p (f x)) l.
Proof.
  induction l as [|x l IH]; [reflexivity|].
  cbn [flat_map]. rewrite List.filter_app, IH. reflexivity.
Qed.

(** C3. Rule independence: switching one rule off (in any config, so in
    one with all rules enabled) leaves, identifiers apart, the issues of
    the run with the rule on, without those of the type of that rule and
    in the same order. *)
Theorem rule_independence {host : Platform} (file : TranslationFile)
  (config : QAConfig) (r : IssueType) (w w' : World) :
  map erase_id (result_issues (fst (runQA file (disable r config) w')))
  = List.filter (not_of_type r)
      (map erase_id (result_issues (fst (runQA file config w)))).
Proof.
  rewrite !runQA_erased. unfold file_findings. rewrite filter_flat_map.
  apply flat_map_ext. intros unit.
  rewrite <- unit_findings_disable by apply checks_shape. reflexivity.
Qed.

(** ** Missing and empty translations *)

Lemma new_issue_returns unit t sev msg sug w :
  fst (new_issue unit t sev msg sug w)
  = Some {| issue_id := next_issue_id w;
            issue_unitId := unit_id unit;
            issue_type := t;
            issue_severity := sev;
            issue_message := msg;
            issue_source := unit_source unit;
            issue_target := unit_target unit;
            issue_key := unit_key unit;
            issue_suggestion := sug;
            issue_index := None |}.
Proof. reflexivity. Qed.

Lemma emits_new_issue unit t sev msg sug w :
  emits (new_issue unit t sev msg sug) w.
Proof. eexists. apply new_issue_returns. Qed.

Lemma emits_no_issue w : ~ emits no_issue w.
Proof. intros [i Hi]. discriminate Hi. Qed.

(** C4, as stated, fails: on a target of one space, which is not of
    length zero, [checkMissingTranslation] returns an issue of type
    [missing_translation], and [checkEmptyTranslation] returns one too. *)
Lemma missing_translation_on_blank_target :
  strlen (unit_target blank_target_unit) = 1%nat
  /\ option_map issue_type
       (fst (checkMissingTranslation blank_target_unit example_world))
     = Some missing_translation
  /\ option_map issue_type
       (fst (checkEmptyTranslation blank_target_unit example_world))
     = Some empty_translation.
Proof. repeat split. Qed.

Lemma emits_if (c : bool) unit t sev msg sug w :
  emits (if c then new_issue unit t sev msg sug else no_issue) w <-> c = true.
Proof.
  destruct c; split; intros H; try reflexivity; try discriminate.
  - apply emits_new_issue.
  - apply emits_no_issue in H. contradiction.
Qed.

Lemma returns_if (c : bool) unit t sev msg sug w i :
  fst ((if c then new_issue unit t sev msg sug else no_issue) w) = Some i ->
  issue_type i = t /\ issue_severity i = sev /\ issue_suggestion i = sug.
Proof.
  destruct c; [|discriminate].
  rewrite new_issue_returns. intros [= <-]. repeat split.
Qed.

Lemma missing_condition (target : jsstring) :
  negb (truthy target) || str_eqb (trim target) [] = true
  <-> trim target = [].
Proof.
  rewrite orb_true_iff, str_eqb_eq. split; [|auto].
  intros [H|H]; [|exact H]. destruct target; [reflexivity|discriminate].
Qed.

Lemma empty_condition (target : jsstring) :
  truthy target && str_eqb (trim target) [] && (0 <? strlen target)%nat = true
  <-> trim target = [] /\ target <> [].
Proof.
  rewrite !andb_true_iff, str_eqb_eq. split.
  - intros [[Ht He] _]. split; [exact He|]. destruct target; [discriminate|].
    discriminate.
  - intros [He Hn]. destruct target as [|c t]; [contradiction|]. auto.
Qed.

(** C4, amended. [checkMissingTranslation] returns an issue exactly when
    the trimmed target is empty, that is for the empty target and for a
    target of white space only; the issue is an error of type
    [missing_translation] whose suggestion is the source.
    [checkEmptyTranslation] returns an issue exactly when the target is
    not empty and its trimmed text is, so a target of white space only is
    flagged by both rules, and the empty target by the first only. *)
Theorem missing_and_empty_translation (unit : TranslationUnit) (w : World) :
  (emits (checkMissingTranslation unit) w <-> trim (unit_target unit) = [])
  /\ (forall i, fst (checkMissingTranslation unit w) = Some i ->
        issue_type i = missing_translation
        /\ issue_severity i = error
        /\ issue_suggestion i = Some (unit_source unit))
  /\ (emits (checkEmptyTranslation unit) w <->
        trim (unit_target unit) = [] /\ unit_target unit <> [])
  /\ (forall i, fst (checkEmptyTranslation unit w) = Some i ->
        issue_type i = empty_translation /\ issue_severity i = error).
Proof.
  unfold checkMissingTranslation, checkEmptyTranslation.
  split; [|split; [|split]].
  - rewrite emits_if. apply missing_condition.
  - intros i Hi. apply returns_if in Hi. exact Hi.
  - rewrite emits_if. apply empty_condition.
  - intros i Hi. apply returns_if in Hi. tauto.
Qed.

(** ** The relational rules *)

Lemma filter_nonempty {A : Type} (p : A -> bool) (l : list A) :
  (0 <? List.length (List.filter p l))%nat = true
  <-> exists x, In x l /\ p x = true.
Proof.
  rewrite Nat.ltb_lt. split.
  - intros H. destruct (List.filter p l) as [|x r] eqn:E; [simpl in H; lia|].
    exists x. apply List.filter_In. rewrite E. left. reflexivity.
  - intros [x Hx]. apply List.filter_In in Hx.
    destruct (List.filter p l); [contradiction|simpl; lia].
Qed.

(** C5, as stated, fails both ways.  Two units share the non-empty source
    "Save" and the (empty) target, and the rule is silent on the first;
    two units share the empty source and the target "Enregistrer", and the
    rule returns an issue on the first. *)
Lemma duplicate_translation_reads_the_target :
  fst (checkDuplicateTranslation (example_unit 1 (js "Save") [])
         untranslated_pair example_world) = None
  /\ option_map issue_type
       (fst (checkDuplicateTranslation (example_unit 1 [] (js "Enregistrer"))
               unlabelled_pair example_world))
     = Some duplicate_translation.
Proof. split; reflexivity. Qed.

(** C5, amended. [checkDuplicateTranslation] returns an issue, of
    severity info, exactly when the corpus holds another unit (one with
    a different identifier) with the same source and the same target,
    that target being non-empty. *)
Theorem duplicate_translation_iff (unit : TranslationUnit)
  (allUnits : list TranslationUnit) (w : World) :
  (emits (checkDuplicateTranslation unit allUnits) w <->
     exists u, In u allUnits
               /\ unit_id u <> unit_id unit
               /\ unit_source u = unit_source unit
               /\ unit_target u = unit_target unit
               /\ unit_target u <> [])
  /\ (forall i, fst (checkDuplicateTranslation unit allUnits w) = Some i ->
        issue_type i = duplicate_translation /\ issue_severity i = info).
Proof.
  unfold checkDuplicateTranslation. cbv zeta. split.
  - rewrite emits_if, filter_nonempty.
    split; intros [u Hu]; exists u.
    + destruct Hu as [Hin Hp]. rewrite !andb_true_iff, !negb_true_iff in Hp.
      rewrite !str_eqb_neq, !str_eqb_eq in Hp. tauto.
    + rewrite !andb_true_iff, !negb_true_iff, !str_eqb_neq, !str_eqb_eq.
      tauto.
  - intros i Hi. apply returns_if in Hi. tauto.
Qed.

Lemma inconsistent_target_iff (unit : TranslationUnit)
  (allUnits : list TranslationUnit) (w : World) :
  emits (checkInconsistentTarget unit allUnits) w <->
  exists u, In u allUnits
            /\ unit_id u <> unit_id unit
            /\ unit_source u = unit_source unit
            /\ unit_target u <> unit_target unit.
Proof.
  unfold checkInconsistentTarget. cbv zeta.
  rewrite emits_if, filter_nonempty.
  split; intros [u Hu]; exists u.
  - destruct Hu as [Hin Hp]. rewrite !andb_true_iff, !negb_true_iff in Hp.
    rewrite !str_eqb_neq, !str_eqb_eq in Hp. tauto.
  - rewrite !andb_true_iff, !negb_true_iff, !str_eqb_neq, !str_eqb_eq. tauto.
Qed.

Lemma inconsistent_source_iff (unit : TranslationUnit)
  (allUnits : list TranslationUnit) (w : World) :
  emits (checkInconsistentSource unit allUnits) w <->
  exists u, In u allUnits
            /\ unit_id u <> unit_id unit
            /\ unit_target u = unit_target unit
            /\ unit_source u <> unit_source unit.
Proof.
  unfold checkInconsistentSource. cbv zeta.
  rewrite emits_if, filter_nonempty.
  split; intros [u Hu]; exists u.
  - destruct Hu as [Hin Hp]. rewrite !andb_true_iff, !negb_true_iff in Hp.
    rewrite !str_eqb_neq, !str_eqb_eq in Hp. tauto.
  - rewrite !andb_true_iff, !negb_true_iff, !str_eqb_neq, !str_eqb_eq. tauto.
Qed.

(** ** The format detector *)

Lemma assoc_None {A : Type} (key : jsstring) (l : list (jsstring * A)) :
  ~ In key (map fst l) -> assoc key l = None.
Proof.
  induction l as [|[k v] l IH]; [reflexivity|]. cbn [map fst In assoc].
  intros H. destruct (str_eqb k key) eqn:E.
  - apply str_eqb_eq in E. tauto.
  - apply IH. tauto.
Qed.

Lemma dotted_not_inherited (extension : jsstring) :
  startsWith (js ".") extension = true ->
  mem extension Object_prototype_keys = false.
Proof.
  destruct extension as [|c r]; [discriminate|]. cbn [js startsWith].
  rewrite andb_true_r. intros H. apply N.eqb_eq in H. subst c.
  reflexivity.
Qed.

Lemma lastIndexOf_from_absent (s : jsstring) :
  ~ In 46%N s ->
  forall i found, lastIndexOf_from (js ".") s i found = found.
Proof.
  induction s as [|c s IH]; intros Hs i found; [reflexivity|].
  cbn [lastIndexOf_from js startsWith]. change (N_of_ascii ".") with 46%N.
  replace (46 =? c)%N with false
    by (symmetry; apply N.eqb_neq; intros <-; apply Hs; left; reflexivity).
  cbn [andb]. apply IH. intros H. apply Hs. right. exact H.
Qed.

Lemma lastIndexOf_from_last_dot (base ext : jsstring) :
  ~ In 46%N ext ->
  forall i found,
    lastIndexOf_from (js ".") (base ++ [46%N] ++ ext) i found
    = (i + Z.of_nat (List.length base))%Z.
Proof.
  intros Hext. induction base as [|c base IH]; intros i found.
  - cbn [app lastIndexOf_from js startsWith List.length].
    change (N_of_ascii ".") with 46%N. rewrite N.eqb_refl. cbn [andb].
    rewrite lastIndexOf_from_absent by exact Hext. lia.
  - cbn [app lastIndexOf_from List.length]. cbn [app] in IH. rewrite IH. lia.
Qed.

Lemma extension_of_dotted {host : Platform} (base ext : jsstring) :
  forallb is_ascii base = true ->
  forallb is_ascii ext = true ->
  ~ In 46%N ext ->
  extension_of (base ++ [46%N] ++ ext) = [46%N] ++ map lower_ascii ext.
Proof.
  intros Hbase Hext Hdot. unfold extension_of, lastIndexOf.
  rewrite lastIndexOf_from_last_dot by exact Hdot.
  rewrite toLowerCase_ascii
    by (rewrite !forallb_app, Hbase, Hext; reflexivity).
  rewrite !map_app. unfold substring_from, clamp, strlen.
  rewrite !length_app, !length_map.
  replace (Nat.min _ _) with (List.length (map lower_ascii base) + 0)%nat
    by (rewrite length_map; cbn [List.length]; lia).
  rewrite skipn_app, Nat.add_0_r, skipn_all.
  replace (_ - _)%nat with 0%nat by lia.
  reflexivity.
Qed.

(** C7, as stated, fails: for a file name whose lowercased final
    extension is [.yml] the detector returns the tag [yml], which is not
    the tag [yaml]. *)
Lemma detectFileType_yml_is_not_yaml :
  FT_yml <> FT_yaml
  /\ (forall host : Platform,
        extension_of (js "messages.yml") = js ".yml"
        /\ detectFileType (js "messages.yml") = Some (Own FT_yml)).
Proof.
  split; [discriminate|]. intros host.
  unfold detectFileType, extension_of.
  rewrite toLowerCase_ascii by reflexivity. split; reflexivity.
Qed.

(** C7, amended.  For a file name of ASCII characters that ends in a dot
    and an extension without dot, the detector reads the lowercased
    final extension and nothing else: another such name with the same
    lowercased final extension gets the same answer, whatever stands
    before its last dot.  The extension [.yaml] gives the tag [yaml] and
    the extension [.yml] the tag [yml]; under both tags [parseFile] runs
    the decoder of YAML, and the file it returns has the type [yaml].
    Every extension of the table gives its tag, and an extension that is
    not in the table gives [null]. *)
Theorem detectFileType_by_extension {host : Platform} (base ext : jsstring) :
  forallb is_ascii base = true ->
  forallb is_ascii ext = true ->
  ~ In 46%N ext ->
  let fileName := base ++ [46%N] ++ ext in
  let extension := [46%N] ++ map lower_ascii ext in
  (forall base' ext',
      forallb is_ascii base' = true ->
      forallb is_ascii ext' = true ->
      ~ In 46%N ext' ->
      map lower_ascii ext' = map lower_ascii ext ->
      detectFileType (base' ++ [46%N] ++ ext') = detectFileType fileName)
  /\ (extension = js ".yaml" -> detectFileType fileName = Some (Own FT_yaml))
  /\ (extension = js ".yml" -> detectFileType fileName = Some (Own FT_yml))
  /\ (forall t, In (extension, t) SUPPORTED_FILE_EXTENSIONS ->
                detectFileType fileName = Some (Own t))
  /\ (~ In extension (map fst SUPPORTED_FILE_EXTENSIONS) ->
      detectFileType fileName = None)
  /\ (extension = js ".yaml" \/ extension = js ".yml" ->
      forall content w,
        parseFile content fileName w
        = (Returns (fst (parseYAML content fileName w)),
           snd (parseYAML content fileName w))
        /\ file_type (fst (parseYAML content fileName w)) = FT_yaml).
Proof.
  intros Hbase Hext Hdot fileName extension.
  assert (Hextension : extension_of fileName = extension)
    by (apply extension_of_dotted; assumption).
  assert (Hdetect : detectFileType fileName
                    = object_get SUPPORTED_FILE_EXTENSIONS extension).
  { unfold detectFileType. rewrite Hextension. reflexivity. }
  assert (Hstart : startsWith (js ".") extension = true).
  { unfold extension. cbn [js app startsWith]. rewrite N.eqb_refl.
    reflexivity. }
  split.
  { intros base' ext' Hbase' Hext' Hdot' Hsame. rewrite Hdetect.
    unfold detectFileType.
    rewrite extension_of_dotted by assumption. rewrite Hsame. reflexivity. }
  clearbody extension fileName. clear Hextension.
  split; [|split; [|split; [|split]]].
  - intros E. rewrite Hdetect, E. reflexivity.
  - intros E. rewrite Hdetect, E. reflexivity.
  - intros t Hin. rewrite Hdetect.
    unfold SUPPORTED_FILE_EXTENSIONS in Hin. cbn [In] in Hin.
    repeat (destruct Hin as [Hin|Hin];
            [injection Hin as <- <-; reflexivity|]).
    contradiction.
  - intros Hout. rewrite Hdetect. unfold object_get.
    rewrite (assoc_None extension _ Hout), dotted_not_inherited
      by exact Hstart.
    reflexivity.
  - intros E content w.
    assert (Ht : detectFileType fileName = Some (Own FT_yaml)
                 \/ detectFileType fileName = Some (Own FT_yml)).
    { rewrite Hdetect. destruct E as [-> | ->]; [left | right]; reflexivity. }
    split.
    + unfold parseFile.
      destruct Ht as [-> | ->]; unfold returns; rewrite bind_run;
        reflexivity.
    + unfold parseYAML. rewrite !bind_run. reflexivity.
Qed.

(** The theorem at the file names "Archive.v2.YML" and "notes.JSON.txt"
    on the example host. *)
Lemma detectFileType_by_extension_witness :
  detectFileType (host := example_host [] []) (js "Archive.v2.YML")
  = Some (Own FT_yml)
  /\ detectFileType (host := example_host [] []) (js "x.yml")
     = detectFileType (host := example_host [] []) (js "Archive.v2.YML")
  /\ detectFileType (host := example_host [] []) (js "notes.JSON.txt") = None
  /\ (parseFile (host := example_host [] []) yaml_text (js "Archive.v2.YML")
        example_world
      = (Returns
           (fst (parseYAML yaml_text (js "Archive.v2.YML") example_world)),
         snd (parseYAML yaml_text (js "Archive.v2.YML") example_world))
      /\ file_type
           (fst (parseYAML yaml_text (js "Archive.v2.YML") example_world))
         = FT_yaml).
Proof.
  assert (H := detectFileType_by_extension (host := example_host [] [])
                 (js "Archive.v2") (js "YML") eq_refl eq_refl).
  assert (H' := detectFileType_by_extension (host := example_host [] [])
                  (js "notes.JSON") (js "txt") eq_refl eq_refl).
  cbv zeta in H, H'.
  assert (Hdot : forall ext : jsstring,
             forallb (fun c => negb (c =? 46)%N) ext = true ->
             ~ In 46%N ext).
  { intros ext Hall Hin. rewrite forallb_forall in Hall.
    specialize (Hall _ Hin). discriminate Hall. }
  destruct (H (Hdot (js "YML") eq_refl)) as (H1 & _ & H3 & _ & _ & H6).
  destruct (H' (Hdot (js "txt") eq_refl)) as (_ & _ & _ & _ & H5 & _).
  split; [exact (H3 eq_refl)|].
  split; [exact (H1 (js "x") (js "yml") eq_refl eq_refl
                   (Hdot (js "yml") eq_refl) eq_refl)|].
  split.
  - apply H5. cbn. intros Hin.
    repeat (destruct Hin as [Hin|Hin]; [discriminate Hin|]). exact Hin.
  - exact (H6 (or_intror eq_refl) yaml_text example_world).
Defined.

(** ** The scenario of the two translations of "OK" *)

Lemma scenario_view_erased (issues : list QAIssue) :
  map scenario_view (map erase_id issues) = map scenario_view issues.
Proof. rewrite map_map. reflexivity. Qed.

Section Scenario.

Context {host : Platform}.

Lemma scenario_findings (id1 id2 key1 key2 path1 path2 : jsstring)
  (ctx1 ctx2 notes1 notes2 : option jsstring) (line1 line2 : option nat)
  (index1 index2 : nat) :
  id1 <> id2 ->
  let u1 := {| unit_id := id1; unit_key := key1; unit_source := js "OK";
               unit_target := js "OK"; unit_context := ctx1;
               unit_notes := notes1; unit_filePath := path1;
               unit_lineNumber := line1; unit_index := index1 |} in
  let u2 := {| unit_id := id2; unit_key := key2; unit_source := js "OK";
               unit_target := js "Oui"; unit_context := ctx2;
               unit_notes := notes2; unit_filePath := path2;
               unit_lineNumber := line2; unit_index := index2 |} in
  map scenario_view
    (unit_findings (merged_rules DEFAULT_CONFIG) index1
       (checks u1 [u1; u2] DEFAULT_CONFIG))
  = [(id1, Some index1, inconsistent_target, warning)]
  /\ map scenario_view
       (unit_findings (merged_rules DEFAULT_CONFIG) index2
          (checks u2 [u1; u2] DEFAULT_CONFIG))
     = [(id2, Some index2, alphanumeric_mismatch, warning);
        (id2, Some index2, inconsistent_target, warning)].
Proof.
  intros Hne u1 u2.
  assert (E12 : str_eqb id1 id2 = false) by (apply str_eqb_neq; exact Hne).
  assert (E21 : str_eqb id2 id1 = false)
    by (apply str_eqb_neq; congruence).
  subst u1 u2.
  unfold unit_findings, checks, finding, checkDuplicateTranslation,
    checkInconsistentSource, checkInconsistentTarget.
  cbn [List.filter unit_id unit_source unit_target].
  rewrite !str_eqb_refl, E12, E21.
  split; vm_compute; reflexivity.
Qed.

End Scenario.

(** C8, as stated, fails: in the run on two units of source "OK" and
    targets "OK" and "Oui" under the default configuration, the first
    unit gets no issue of type [target_same_as_source]; its only issue is
    [inconsistent_target]. *)
Lemma ok_oui_without_target_same_as_source :
  map (fun i => (issue_index i, issue_type i))
    (result_issues
       (fst (runQA (host := example_host [] [])
               (example_file [example_unit 1 (js "OK") (js "OK");
                              example_unit 2 (js "OK") (js "Oui")])
               DEFAULT_CONFIG example_world)))
  = [(Some 1%nat, inconsistent_target);
     (Some 2%nat, alphanumeric_mismatch);
     (Some 2%nat, inconsistent_target)].
Proof. vm_compute. reflexivity. Qed.

(** C8, amended.  For a file of exactly two units with distinct
    identifiers, of source "OK" both and of targets "OK" and "Oui", the
    run under the default configuration returns three issues, all
    warnings: [inconsistent_target] on the first unit, and
    [alphanumeric_mismatch] and [inconsistent_target] on the second.
    The rule [target_same_as_source] skips a source shorter than three
    code units. *)
Theorem ok_oui_scenario {host : Platform} (file : TranslationFile)
  (u1 u2 : TranslationUnit) (w : World) :
  file_units file = [u1; u2] ->
  unit_source u1 = js "OK" -> unit_target u1 = js "OK" ->
  unit_source u2 = js "OK" -> unit_target u2 = js "Oui" ->
  unit_id u1 <> unit_id u2 ->
  map scenario_view (result_issues (fst (runQA file DEFAULT_CONFIG w)))
  = [(unit_id u1, Some (unit_index u1), inconsistent_target, warning);
     (unit_id u2, Some (unit_index u2), alphanumeric_mismatch, warning);
     (unit_id u2, Some (unit_index u2), inconsistent_target, warning)].
Proof.
  intros Hunits Hs1 Ht1 Hs2 Ht2 Hid.
  rewrite <- scenario_view_erased, runQA_erased. unfold file_findings.
  rewrite Hunits. cbn [flat_map]. rewrite app_nil_r, map_app.
  destruct u1 as [id1 key1 s1 t1 ctx1 notes1 path1 line1 index1].
  destruct u2 as [id2 key2 s2 t2 ctx2 notes2 path2 line2 index2].
  cbn [unit_source unit_target unit_id unit_index] in *. subst s1 t1 s2 t2.
  destruct (scenario_findings id1 id2 key1 key2 path1 path2 ctx1 ctx2
              notes1 notes2 line1 line2 index1 index2 Hid) as [E1 E2].
  cbv zeta in E1, E2. rewrite E1, E2. reflexivity.
Qed.

(** The scenario on the example units. *)
Lemma ok_oui_scenario_witness :
  map scenario_view
    (result_issues
       (fst (runQA (host := example_host [] [])
               (example_file [example_unit 1 (js "OK") (js "OK");
                              example_unit 2 (js "OK") (js "Oui")])
               DEFAULT_CONFIG example_world)))
  = [(js "unit1", Some 1%nat, inconsistent_target, warning);
     (js "unit2", Some 2%nat, alphanumeric_mismatch, warning);
     (js "unit2", Some 2%nat, inconsistent_target, warning)].
Proof.
  apply (ok_oui_scenario (host := example_host [] [])
           (example_file [example_unit 1 (js "OK") (js "OK");
                          example_unit 2 (js "OK") (js "Oui")])
           (example_unit 1 (js "OK") (js "OK"))
           (example_unit 2 (js "OK") (js "Oui")) example_world);
    try reflexivity.
  intros H. vm_compute in H. discriminate H.
Defined.

(** ** Dense indices *)

Lemma dense_nil : dense [].
Proof. reflexivity. Qed.

Lemma push_unit_units units key source target context notes fileName line w :
  fst (push_unit units key source target context notes fileName line w)
  = units ++ [ {| unit_id := substring 2 15 (random_source w (random_taken w));
                  unit_key := key;
                  unit_source := source;
                  unit_target := target;
                  unit_context := context;
                  unit_notes := notes;
                  unit_filePath := fileName;
                  unit_lineNumber := line;
                  unit_index := List.length units + 1 |} ].
Proof. reflexivity. Qed.

Lemma push_unit_dense units key source target context notes fileName line w :
  dense units ->
  dense (fst (push_unit units key source target context notes fileName line w)).
Proof.
  unfold dense. intros H. rewrite push_unit_units.
  rewrite map_app, length_app, H. cbn [map List.length unit_index].
  rewrite Nat.add_1_r, seq_S. reflexivity.
Qed.

Lemma new_file_units fileName type sl tl units content w :
  file_units (fst (new_file fileName type sl tl units content w)) = units.
Proof. reflexivity. Qed.

(** Induction on a JSON value, through the elements of arrays and the
    values of objects. *)
Lemma json_induction (P : json -> Prop) :
  P JNull ->
  (forall b, P (JBool b)) ->
  (forall x, P (JNumber x)) ->
  (forall s, P (JString s)) ->
  (forall items, Forall P items -> P (JArray items)) ->
  (forall entries, Forall (fun e => P (snd e)) entries -> P (JObject entries)) ->
  forall v, P v.
Proof.
  intros Hnull Hbool Hnum Hstr Harr Hobj.
  fix IH 1. intros [| b | x | s | items | entries].
  - exact Hnull.
  - apply Hbool.
  - apply Hnum.
  - apply Hstr.
  - apply Harr. induction items as [|v items IHitems].
    + apply List.Forall_nil.
    + apply List.Forall_cons; [apply IH | exact IHitems].
  - apply Hobj. induction entries as [|[k v] entries IHentries].
    + apply List.Forall_nil.
    + apply List.Forall_cons; [apply IH | exact IHentries].
Qed.

Section Decoders.

Context {host : Platform}.

(** [extractTranslations] is the loop of the source over
    [Object.entries(obj)]. *)
Lemma extractTranslations_array fileName prefix items :
  forall i units w,
    (fix loop (i : nat) (items : list json) (units : list TranslationUnit)
       : M (list TranslationUnit) :=
       match items with
       | [] => ret units
       | value :: items' =>
           units' <-
             match value with
             | JString s =>
                 push_unit units (fullKey_of prefix (decimal i)) s [] None
                   None fileName None
             | JObject _ | JArray _ =>
                 extractTranslations fileName value
                   (fullKey_of prefix (decimal i)) units
             | _ => ret units
             end ;;
           loop (S i) items' units'
       end) i items units w
    = for_of (indexed_from i items)
        (visit_entry fileName prefix (extractTranslations fileName)) units w.
Proof.
  induction items as [|v items IH]; intros i units w; [reflexivity|].
  cbn [indexed_from]. rewrite for_of_cons. rewrite bind_run.
  rewrite IH. unfold visit_entry. destruct v; reflexivity.
Qed.

Lemma extractTranslations_object fileName prefix entries :
  forall units w,
    (fix loop (entries : list (jsstring * json))
       (units : list TranslationUnit) : M (list TranslationUnit) :=
       match entries with
       | [] => ret units
       | (key, value) :: entries' =>
           units' <-
             match value with
             | JString s =>
                 push_unit units (fullKey_of prefix key) s [] None None
                   fileName None
             | JObject _ | JArray _ =>
                 extractTranslations fileName value (fullKey_of prefix key)
                   units
             | _ => ret units
             end ;;
           loop entries' units'
       end) entries units w
    = for_of entries
        (visit_entry fileName prefix (extractTranslations fileName)) units w.
Proof.
  induction entries as [|[k v] entries IH]; intros units w; [reflexivity|].
  rewrite for_of_cons. rewrite bind_run.
  rewrite IH. unfold visit_entry. destruct v; reflexivity.
Qed.

Lemma visit_string_entries fileName prefix recur recur' (s : list json) :
  Forall (fun v => exists t, v = JString t) s ->
  forall i units w,
    for_of (indexed_from i s) (visit_entry fileName prefix recur) units w
    = for_of (indexed_from i s) (visit_entry fileName prefix recur') units w.
Proof.
  induction 1 as [|v s [t ->] Hs IH]; intros i units w; [reflexivity|].
  cbn [indexed_from]. rewrite !for_of_cons. cbn [visit_entry]. apply IH.
Qed.

Lemma extractTranslations_unfold fileName obj prefix units w :
  extractTranslations fileName obj prefix units w
  = for_of (Object_entries obj)
      (visit_entry fileName prefix (extractTranslations fileName)) units w.
Proof.
  destruct obj as [| b | x | s | items | entries]; try reflexivity.
  - cbn [extractTranslations]. apply visit_string_entries.
    cbn [Object_entries]. apply Forall_map, Forall_forall. intros c _. eauto.
  - cbn [extractTranslations Object_entries].
    apply extractTranslations_array.
  - cbn [extractTranslations Object_entries].
    apply extractTranslations_object.
Qed.

Lemma for_of_dense_in {A : Type} (xs : list A)
  (body : A -> list TranslationUnit -> M (list TranslationUnit)) :
  Forall (fun x => forall units w, dense units -> dense (fst (body x units w)))
    xs ->
  forall units w, dense units -> dense (fst (for_of xs body units w)).
Proof.
  induction 1 as [|x xs Hx Hxs IH]; intros units w Hd; [exact Hd|].
  rewrite for_of_cons. apply IH, Hx, Hd.
Qed.

Lemma Forall_indexed_from {A : Type} (P : A -> Prop) (l : list A) (i : nat) :
  Forall P l -> Forall (fun e => P (snd e)) (indexed_from i l).
Proof.
  intros H. revert i. induction H as [|x l Hx Hl IH]; intros i.
  - apply List.Forall_nil.
  - cbn [indexed_from]. apply List.Forall_cons; [exact Hx | apply IH].
Qed.

Lemma extractTranslations_dense fileName obj :
  forall prefix units w,
    dense units ->
    dense (fst (extractTranslations fileName obj prefix units w)).
Proof.
  induction obj as [| b | x | s | items IH | entries IH] using json_induction;
    intros prefix units w Hd; try exact Hd;
    rewrite extractTranslations_unfold; cbn [Object_entries].
  - apply for_of_dense_in; [|exact Hd].
    apply Forall_forall. intros [k v] Hin units' w' Hd'.
    assert (Hv : exists t, v = JString t).
    { clear - Hin. revert Hin. generalize 0%nat.
      induction s as [|c s IHs]; intros i Hin; [inversion Hin|].
      cbn [map indexed_from] in Hin. apply elem_of_cons in Hin.
      destruct Hin as [[= _ ->]|Hin]; [eauto|]. apply (IHs _ Hin). }
    destruct Hv as [t ->]. apply push_unit_dense, Hd'.
  - apply for_of_dense_in; [|exact Hd].
    apply (Forall_indexed_from _ items 0) in IH.
    eapply Forall_impl; [exact IH|].
    intros [k v] Hv units' w' Hd'. cbn [snd] in Hv.
    unfold visit_entry. destruct v; try exact Hd'.
    + apply push_unit_dense, Hd'.
    + apply Hv, Hd'.
    + apply Hv, Hd'.
  - apply for_of_dense_in; [|exact Hd].
    eapply Forall_impl; [exact IH|].
    intros [k v] Hv units' w' Hd'. cbn [snd] in Hv.
    unfold visit_entry. destruct v; try exact Hd'.
    + apply push_unit_dense, Hd'.
    + apply Hv, Hd'.
    + apply Hv, Hd'.
Qed.















Lemma returns_run {A : Type} (m : M A) (w : World) :
  returns m w = (Returns (fst (m w)), snd (m w)).
Proof. unfold returns. rewrite bind_run. reflexivity. Qed.

End Decoders.


(** ** The JSON decoder *)

Lemma string_leaves_array (items : list json) (i : nat) :
  (fix walk (i : nat) (items : list json)
     : list (list jsstring * jsstring) :=
     match items with
     | [] => []
     | x :: items' =>
         map (fun l : list jsstring * jsstring =>
                (decimal i :: fst l, snd l))
           (string_leaves x)
         ++ walk (S i) items'
     end) i items
  = flat_map entry_leaves (indexed_from i items).
Proof.
  revert i. induction items as [|x items IH]; intros i; [reflexivity|].
  cbn [indexed_from flat_map]. rewrite IH. reflexivity.
Qed.

Lemma string_leaves_container (v : json) :
  is_container v = true ->
  string_leaves v = flat_map entry_leaves (Object_entries v).
Proof.
  destruct v; try discriminate; intros _.
  - cbn [string_leaves Object_entries]. apply string_leaves_array.
  - reflexivity.
Qed.

Lemma path_key_cons (prefix key : jsstring) (path : list jsstring) :
  path_key prefix (key :: path) = path_key (fullKey_of prefix key) path.
Proof. reflexivity. Qed.

Lemma join_cons_cons (sep x y : jsstring) (l : list jsstring) :
  join sep (x :: y :: l) = x ++ sep ++ join sep (y :: l).
Proof. reflexivity. Qed.

Lemma path_key_join (prefix : jsstring) (path : list jsstring) :
  prefix <> [] ->
  path_key prefix path = join (js ".") (prefix :: path).
Proof.
  revert prefix. induction path as [|k path IH]; intros prefix Hp.
  - reflexivity.
  - rewrite path_key_cons. unfold fullKey_of.
    destruct prefix as [|c prefix]; [contradiction|]. cbn [truthy].
    rewrite IH by (destruct prefix; discriminate).
    rewrite (join_cons_cons _ (c :: prefix) k path).
    destruct path as [|k' path].
    + reflexivity.
    + rewrite !join_cons_cons. rewrite <- !app_assoc. reflexivity.
Qed.

Lemma path_key_dotted (path : list jsstring) : path_key [] path = dotted path.
Proof.
  unfold dotted. induction path as [|k path IH]; [reflexivity|].
  rewrite path_key_cons. cbn [drop_empty].
  destruct k as [|c k]; cbn [truthy fullKey_of].
  - exact IH.
  - apply path_key_join. discriminate.
Qed.

Lemma drop_empty_nonempty (k : jsstring) (path : list jsstring) :
  truthy k = true -> dotted (k :: path) = join (js ".") (k :: path).
Proof. intros H. unfold dotted. cbn [drop_empty]. rewrite H. reflexivity. Qed.

Lemma root_leaves_entries (v : json) :
  root_leaves v = flat_map entry_leaves (Object_entries v).
Proof.
  destruct v as [| b | x | s | items | entries]; try reflexivity.
  - cbn [root_leaves Object_entries]. generalize 0%nat.
    induction s as [|c s IH]; intros i; [reflexivity|].
    cbn [map indexed_from flat_map]. rewrite IH. reflexivity.
  - apply (string_leaves_container (JArray items)). reflexivity.
Qed.

Section JsonDecoder.

Context {host : Platform}.

(** What one entry adds to the units: its string leaves, each under the
    key built along its path. *)
Lemma visit_entry_leaves fileName (value : json) :
  forall prefix key units w,
    map key_and_source
      (fst (visit_entry fileName prefix (extractTranslations fileName)
              (key, value) units w))
    = map key_and_source units
      ++ map (under prefix) (entry_leaves (key, value)).
Proof.
  induction value as [| b | x | s | items IH | entries IH]
    using json_induction; intros prefix key units w;
    unfold visit_entry, entry_leaves; cbn [fst snd];
    try (cbn [string_leaves map]; rewrite app_nil_r; reflexivity).
  - rewrite push_unit_units, map_app. reflexivity.
  - rewrite extractTranslations_unfold.
    rewrite (string_leaves_container (JArray items)) by reflexivity.
    cbn [Object_entries].
    apply (Forall_indexed_from _ items 0) in IH. revert IH units w.
    generalize (indexed_from 0 items).
    induction 1 as [|[k v] es Hv Hes IHes]; intros units w.
    + cbn [for_of ret fst flat_map map]. rewrite app_nil_r. reflexivity.
    + rewrite for_of_cons, IHes. cbn [snd] in Hv. rewrite Hv.
      cbn [flat_map]. rewrite !map_app, <- app_assoc. f_equal. f_equal.
      unfold entry_leaves, under. cbn [fst snd]. rewrite !map_map.
      reflexivity.
  - rewrite extractTranslations_unfold.
    rewrite (string_leaves_container (JObject entries)) by reflexivity.
    cbn [Object_entries]. revert units w.
    induction IH as [|[k v] es Hv Hes IHes]; intros units w.
    + cbn [for_of ret fst flat_map map]. rewrite app_nil_r. reflexivity.
    + rewrite for_of_cons, IHes. cbn [snd] in Hv. rewrite Hv.
      cbn [flat_map]. rewrite !map_app, <- app_assoc. f_equal. f_equal.
      unfold entry_leaves, under. cbn [fst snd]. rewrite !map_map.
      reflexivity.
Qed.

Lemma extractTranslations_root fileName (root : json) prefix units w :
  map key_and_source (fst (extractTranslations fileName root prefix units w))
  = map key_and_source units ++ map (under prefix) (root_leaves root).
Proof.
  rewrite extractTranslations_unfold, root_leaves_entries.
  generalize (Object_entries root). intros es. revert units w.
  induction es as [|[k v] es IH]; intros units w.
  - cbn [for_of ret fst flat_map map]. rewrite app_nil_r. reflexivity.
  - rewrite for_of_cons, IH, visit_entry_leaves.
    cbn [flat_map]. rewrite map_app, <- app_assoc. reflexivity.
Qed.

Lemma root_leaves_dotted (root : json) :
  map (under []) (root_leaves root)
  = map (fun l : list jsstring * jsstring => (dotted (fst l), snd l))
      (root_leaves root).
Proof.
  apply map_ext. intros [p s]. unfold under. cbn [fst snd].
  rewrite path_key_dotted. reflexivity.
Qed.

Lemma root_leaves_joined (root : json) :
  top_keys_nonempty root = true ->
  map (fun l : list jsstring * jsstring => (dotted (fst l), snd l))
    (root_leaves root)
  = map (fun l : list jsstring * jsstring => (join (js ".") (fst l), snd l))
      (root_leaves root).
Proof.
  intros Hk. rewrite root_leaves_entries.
  unfold top_keys_nonempty in Hk. revert Hk.
  generalize (Object_entries root). intros es Hk.
  induction es as [|[k v] es IH]; [reflexivity|].
  cbn [forallb fst] in Hk. apply andb_true_iff in Hk as [Hk Hes].
  cbn [flat_map]. rewrite !map_app, IH by exact Hes. f_equal.
  unfold entry_leaves. cbn [fst snd]. rewrite !map_map.
  apply map_ext. intros [p s]. cbn [fst snd].
  rewrite drop_empty_nonempty by exact Hk. reflexivity.
Qed.

End JsonDecoder.

(** C6, as stated, fails: a string inside an array contributes a unit.
    For the document of one key "a" holding the array of the string "x",
    [parseJSON] returns one unit, of key "a.0" and source "x". *)
Lemma parseJSON_walks_arrays :
  decoded key_and_source
    (fst (parseJSON (host := example_host [(array_document, array_value)] [])
            array_document (js "labels.json") example_world))
  = Some [(js "a.0", js "x")].
Proof. vm_compute. reflexivity. Qed.

(** C6, amended.  Whenever [parseJSON] returns a file, the text parsed
    to a value other than [null], and the units of the file are the
    string leaves below the value the traversal starts from (the root,
    or the value of its wrapper key), one unit per leaf in the order of
    the traversal, those inside arrays included: the key of the unit is
    the path of the leaf joined by dots, an element of an array counting
    under its position and the empty keys at the head of the path left
    out, its source is the leaf, and its index is its rank from 1.  When
    no key at the top is empty the key is the whole path joined by dots.
    A value to traverse that is itself a string gives one unit per code
    unit, under its position; a number or a boolean gives none. *)
Theorem parseJSON_units {host : Platform} (content fileName : jsstring)
  (w : World) (file : TranslationFile) :
  fst (parseJSON content fileName w) = Returns file ->
  exists data,
    JSON_parse content = Some data
    /\ data <> JNull
    /\ map key_and_source (file_units file)
       = map (fun l : list jsstring * jsstring => (dotted (fst l), snd l))
           (root_leaves (json_root data))
    /\ map unit_index (file_units file)
       = seq 1 (List.length (root_leaves (json_root data)))
    /\ (top_keys_nonempty (json_root data) = true ->
        map key_and_source (file_units file)
        = map (fun l : list jsstring * jsstring =>
                 (join (js ".") (fst l), snd l))
            (root_leaves (json_root data))).
Proof.
  unfold parseJSON. destruct (JSON_parse content) as [data|]; [|discriminate].
  intros Hfile. exists data. split; [reflexivity|].
  assert (Hdata : data <> JNull).
  { intros ->. discriminate Hfile. }
  split; [exact Hdata|].
  assert (E : forall (A : Type) (a b : A),
             match data with JNull => a | _ => b end = b).
  { intros A a b. destruct data; congruence. }
  rewrite E in Hfile. rewrite !bind_run in Hfile. cbn [ret fst] in Hfile.
  match type of Hfile with
  | Returns ?f = _ => assert (Hf : f = file) by congruence
  end.
  rewrite <- Hf, new_file_units. clear Hf Hfile.
  pose proof (extractTranslations_root fileName (json_root data) [] [] w)
    as Hl.
  cbn [map app] in Hl. rewrite root_leaves_dotted in Hl.
  split; [exact Hl|]. split.
  - pose proof (extractTranslations_dense fileName (json_root data) [] [] w
                  dense_nil) as Hd.
    unfold dense in Hd. rewrite Hd. f_equal.
    rewrite <- (length_map key_and_source), Hl, length_map. reflexivity.
  - intros Hk. rewrite root_leaves_joined in Hl by exact Hk. exact Hl.
Qed.

(** The theorem at the document of the counterexample, and at a
    document whose wrapper key holds a string. *)
Lemma parseJSON_units_witness :
  (map key_and_source (file_units array_file) = [(js "a.0", js "x")]
   /\ map unit_index (file_units array_file) = [1%nat])
  /\ (map key_and_source (file_units letters_file)
      = [(js "0", js "A"); (js "1", js "b")]
      /\ map unit_index (file_units letters_file) = [1%nat; 2%nat]).
Proof.
  split.
  - destruct (parseJSON_units (host := json_host) array_document
                (js "labels.json") example_world array_file)
      as (data & Hp & _ & Hk & Hi & _).
    + vm_compute. reflexivity.
    + vm_compute in Hp. injection Hp as <-. split; [exact Hk | exact Hi].
  - destruct (parseJSON_units (host := json_host) letters_document
                (js "letters.json") example_world letters_file)
      as (data & Hp & _ & Hk & Hi & _).
    + vm_compute. reflexivity.
    + vm_compute in Hp. injection Hp as <-. split; [exact Hk | exact Hi].
Defined.

(** ** Witness of the dense indices: a translation memory of two units *)


(** ** The decoders of lines: nothing is rejected, what has no shape is
    skipped *)









Section Skipping.

Context {host : Platform}.

Local Open Scope nat_scope.



Lemma same_but_lines_refl units : same_but_lines units units.
Proof. reflexivity. Qed.

(** *** iOS strings *)



(** *** PO and POT *)




(** *** Java properties *)



(** *** CSV and TSV *)



End Skipping.



(** ** The model on the scenarios of the specification and on small files *)

(** Scenario 1: two units without target; each is missing. *)
Example scenario_missing :
  issue_types_of
    [example_unit 1 (js "Hello {name}!") []; example_unit 2 (js "Save") []]
    DEFAULT_CONFIG
  = [(Some 1, missing_translation); (Some 1, inconsistent_brackets);
     (Some 1, inconsistent_placeholders); (Some 1, inconsistent_punctuation);
     (Some 1, alphanumeric_mismatch); (Some 1, inconsistent_source);
     (Some 2, missing_translation); (Some 2, alphanumeric_mismatch);
     (Some 2, inconsistent_source)]%nat.
Proof. vm_compute. reflexivity. Qed.

(** Scenario 2: a trailing space in the target only. *)
Example scenario_trailing_space :
  issue_types_of
    [example_unit 1 (js "Save file") (js "Sauver le fichier ")] DEFAULT_CONFIG
  = [(Some 1, leading_trailing_spaces); (Some 1, too_long_translation);
     (Some 1, alphanumeric_mismatch)]%nat.
Proof. vm_compute. reflexivity. Qed.

(** Scenario 3: a placeholder lost. *)
Example scenario_placeholders :
  issue_types_of
    [example_unit 1 (js "Hello %s, you have %d messages.")
       (js "Bonjour %s, vous avez messages.")] DEFAULT_CONFIG
  = [(Some 1, inconsistent_placeholders); (Some 1, alphanumeric_mismatch)]%nat
  /\ match_all re_printf (js "Hello %s, you have %d messages.")
     = [js "%s"; js "%d"].
Proof. split; vm_compute; reflexivity. Qed.

(** Scenario 4: the question mark lost; the suggestion restores it. *)
Example scenario_punctuation :
  map (fun i => (issue_type i, issue_suggestion i))
    (result_issues
       (fst (runQA (host := example_host [] [])
               (example_file
                  [example_unit 1 (js "Are you sure?") (js "Etes-vous sur")])
               DEFAULT_CONFIG example_world)))
  = [(inconsistent_punctuation, Some (js "Etes-vous sur?"));
     (alphanumeric_mismatch, None)].
Proof. vm_compute. reflexivity. Qed.

(** Scenario 6: a tag left open. *)
Example scenario_unclosed_tag :
  issue_types_of
    [example_unit 1 (js "Click <b>here</b>") (js "Cliquez <b>ici")]
    DEFAULT_CONFIG
  = [(Some 1, inconsistent_brackets); (Some 1, invalid_html_tags);
     (Some 1, alphanumeric_mismatch)]%nat.
Proof. vm_compute. reflexivity. Qed.

(** Scenario 7: a glossary term not used. *)
Example scenario_glossary :
  issue_types_of
    [example_unit 1 (js "Open file") (js "Ouvrir document")] glossary_config
  = [(Some 1, too_long_translation); (Some 1, key_term_mismatch);
     (Some 1, alphanumeric_mismatch)]%nat.
Proof. vm_compute. reflexivity. Qed.

Example po_example :
  decoded (fun u => (unit_key u, unit_source u, unit_target u, unit_notes u))
    (fst (parseFile (host := example_host [] []) po_text (js "fr.po")
            example_world))
  = Some [(js "Hello", js "Hello", js "Bonjour", Some (js "a note"));
          (js "menu" ++ [4] ++ js "Open", js "Open", [], None)].
Proof. vm_compute. reflexivity. Qed.

Example csv_example :
  decoded
    (fun u => (unit_key u, unit_source u, unit_target u, unit_lineNumber u))
    (fst (parseFile (host := example_host [] []) csv_text (js "fr.csv")
            example_world))
  = Some [(js "k1", js "Hello", js "Bonjour", Some 2%nat);
          (js "k2", js "Bye", [], Some 4%nat)].
Proof. vm_compute. reflexivity. Qed.

Example yaml_example :
  decoded (fun u => (unit_key u, unit_source u, unit_lineNumber u))
    (fst (parseFile (host := example_host [] []) yaml_text (js "en.yml")
            example_world))
  = Some [(js "app.title", js "Hello", Some 2%nat);
          (js "app.menu.open", js "Open", Some 4%nat);
          (js "footer", js "Bye", Some 5%nat)].
Proof. vm_compute. reflexivity. Qed.

Example split_examples :
  split_re (Plus space) (js " ab  cd e ")
  = [[]; js "ab"; js "cd"; js "e"; []]
  /\ split_on 10 [] = [[]]
  /\ trim (js "  a b  ") = js "a b"
  /\ substring_from (lastIndexOf (js ".") (js "README")) (js "readme")
     = js "readme".
Proof. repeat split. Qed.

(** * Further properties of the code *)

(** ** What every rule reports *)

Lemma no_issue_report unit t : rule_report unit t no_issue.
Proof. apply report_silent. reflexivity. Qed.

Ltac report :=
  repeat match goal with
    | |- rule_report _ _ (new_issue _ _ _ _ _) =>
        eapply report_emits; intros; reflexivity
    | |- rule_report _ _ no_issue => apply no_issue_report
    | |- rule_report _ _ (if ?c then _ else _) => destruct c
    | |- rule_report _ _ (match ?x with _ => _ end) => destruct x
    end.

Ltac report_if :=
  match goal with
  | |- rule_report _ _ (if ?c then _ else _) => destruct c
  end.

Section Reports.

Context {host : Platform}.

Lemma checkInconsistentBrackets_loop_report unit pairs :
  rule_report unit inconsistent_brackets
    (checkInconsistentBrackets_loop unit pairs).
Proof.
  induction pairs as [|[op cl] pairs IH]; simpl; [report|].
  report_if; [report | exact IH].
Qed.

Lemma checkInconsistentPlaceholders_loop_report unit patterns :
  rule_report unit inconsistent_placeholders
    (checkInconsistentPlaceholders_loop unit patterns).
Proof.
  induction patterns as [|p patterns IH]; simpl; [report|].
  report_if; [report | exact IH].
Qed.

Lemma checkSpecialCharactersMismatch_loop_report unit chars :
  rule_report unit special_characters_mismatch
    (checkSpecialCharactersMismatch_loop unit chars).
Proof.
  induction chars as [|c chars IH]; simpl; [report|].
  report_if; [report | exact IH].
Qed.

Lemma checkInvalidHtmlTags_loop_report unit tags openTags :
  rule_report unit invalid_html_tags
    (checkInvalidHtmlTags_loop unit tags openTags).
Proof.
  revert openTags. induction tags as [|tag tags IH]; intros openTags; simpl.
  - report.
  - report_if.
    + report_if; [report | apply IH].
    + report_if; [|apply IH].
      report_if; apply IH.
Qed.

(** Every entry of the table [checks] reports on the unit it is called
    with, under the type it is listed under and with the severity of that
    type. *)
Lemma checks_report unit allUnits config :
  Forall (fun c : M (option QAIssue) * IssueType =>
            rule_report unit (snd c) (fst c))
    (checks unit allUnits config).
Proof.
  unfold checks.
  repeat (apply List.Forall_cons; [ cbn [fst snd] | ]);
    try apply List.Forall_nil.
  - unfold checkMissingTranslation. report.
  - unfold checkEmptyTranslation. report.
  - unfold checkLeadingTrailingSpaces. cbv zeta. report.
  - apply checkInconsistentBrackets_loop_report.
  - apply checkInconsistentPlaceholders_loop_report.
  - unfold checkInconsistentPunctuation. cbv zeta. report.
  - unfold checkInconsistentNumbers. cbv zeta. report.
  - unfold checkInconsistentURLs. cbv zeta. report.
  - unfold checkInconsistentEmails. cbv zeta. report.
  - unfold checkTooLongTranslation. cbv zeta. report.
  - unfold checkDuplicateTranslation. cbv zeta. report.
  - apply checkInvalidHtmlTags_loop_report.
  - unfold checkInvalidXmlTags. cbv zeta. report.
  - apply checkSpecialCharactersMismatch_loop_report.
  - unfold checkFormattingIssues. report.
  - unfold checkUntranslatedText. cbv zeta. report.
  - unfold checkTargetSameAsSource. report.
  - unfold checkKeyTermMismatch. cbv zeta. report.
  - unfold checkAlphanumericMismatch. cbv zeta. report.
  - unfold checkInconsistentSource. cbv zeta. report.
  - unfold checkInconsistentTarget. cbv zeta. report.
Qed.

Lemma checks_types unit allUnits config :
  map snd (checks unit allUnits config) = rule_order.
Proof. reflexivity. Qed.

End Reports.

(** ** The issues of one unit and of a file, with their identifiers *)

Lemma after_draws_refl w : after_draws 0 w w.
Proof. unfold after_draws. rewrite Nat.add_0_r. auto. Qed.

Lemma after_draws_trans n m w1 w2 w3 :
  after_draws n w1 w2 -> after_draws m w2 w3 -> after_draws (n + m) w1 w3.
Proof.
  unfold after_draws. intros (A1 & A2 & A3 & A4) (B1 & B2 & B3 & B4).
  repeat split; try congruence. rewrite B2, A2. lia.
Qed.

Lemma issue_id_at_after n w w' k :
  after_draws n w w' -> issue_id_at w' k = issue_id_at w (n + k).
Proof.
  intros (A1 & A2 & _). unfold issue_id_at. rewrite A1, A2.
  rewrite Nat.add_assoc. reflexivity.
Qed.

Lemma seq_shift_map_id_at (w w' : World) (n m : nat) :
  after_draws n w w' ->
  map (issue_id_at w) (seq n m) = map (issue_id_at w') (seq 0 m).
Proof.
  intros Hw. revert n w' Hw. induction m as [|m IH]; intros n w' Hw.
  - reflexivity.
  - rewrite !seq_S, !map_app, (IH n w' Hw). cbn [map].
    rewrite (issue_id_at_after n w w' _ Hw). reflexivity.
Qed.

Lemma ids_append (w w' : World) (a b : list QAIssue) :
  after_draws (List.length a) w w' ->
  map issue_id a = map (issue_id_at w) (seq 0 (List.length a)) ->
  map issue_id b = map (issue_id_at w') (seq 0 (List.length b)) ->
  map issue_id (a ++ b)
  = map (issue_id_at w) (seq 0 (List.length (a ++ b))).
Proof.
  intros Hw Ha Hb. rewrite map_app, length_app, seq_app, map_app, Ha, Hb.
  f_equal. cbn [Nat.add]. rewrite <- (seq_shift_map_id_at w w' _ _ Hw).
  reflexivity.
Qed.

Lemma new_issue_world unit t sev msg sug w :
  after_draws 1 w (snd (new_issue unit t sev msg sug w)).
Proof. unfold after_draws. cbn. repeat split. lia. Qed.

Section UnitIssues.

Context {host : Platform}.

(** The issues a run of the table adds to [issues]: each is about the
    unit, with the severity of its type and under an enabled rule; their
    types are picked from the table in its order; their identifiers are
    the next ones of the world. *)
Lemma checks_loop_issues rules unit cs :
  Forall (fun c : M (option QAIssue) * IssueType =>
            rule_report unit (snd c) (fst c)) cs ->
  forall issues w,
  exists new,
    fst (for_of cs (run_check rules unit) issues w) = issues ++ new
    /\ after_draws (List.length new) w
         (snd (for_of cs (run_check rules unit) issues w))
    /\ map issue_id new = map (issue_id_at w) (seq 0 (List.length new))
    /\ Forall (reported rules unit) new
    /\ sublist (map issue_type new) (map snd cs).
Proof.
  induction 1 as [|[m t] cs Hc Hcs IH]; intros issues w.
  - exists []. cbn [for_of ret fst snd List.length seq map].
    rewrite app_nil_r. repeat split; auto using after_draws_refl;
      try constructor.
  - rewrite for_of_cons. cbn [fst snd] in Hc.
    destruct (rule_enabled rules t) eqn:Et.
    + destruct Hc as [Hm | msg sug Hm].
      * assert (Hrun : run_check rules unit (m, t) issues w = (issues, w)).
        { unfold run_check. rewrite Et, bind_run, Hm. reflexivity. }
        rewrite Hrun. cbn [fst snd].
        destruct (IH issues w) as (new & E1 & E2 & E3 & E4 & E5).
        exists new. split; [exact E1|]. split; [exact E2|].
        split; [exact E3|]. split; [exact E4|]. cbn [map snd].
        apply sublist_cons, E5.
      * set (i := set_index
                    {| issue_id := next_issue_id w;
                       issue_unitId := unit_id unit;
                       issue_type := t;
                       issue_severity := severity_of t;
                       issue_message := msg;
                       issue_source := unit_source unit;
                       issue_target := unit_target unit;
                       issue_key := unit_key unit;
                       issue_suggestion := sug;
                       issue_index := None |} (unit_index unit)).
        set (w1 := snd (new_issue unit t (severity_of t) msg sug w)).
        assert (Hrun : run_check rules unit (m, t) issues w
                       = (issues ++ [i], w1)).
        { unfold run_check. rewrite Et, bind_run, Hm. reflexivity. }
        rewrite Hrun. cbn [fst snd].
        assert (Hw1 : after_draws 1 w w1) by apply new_issue_world.
        destruct (IH (issues ++ [i]) w1) as (new & E1 & E2 & E3 & E4 & E5).
        exists (i :: new). rewrite E1, <- app_assoc. split; [reflexivity|].
        split; [apply (after_draws_trans 1 _ w w1 _ Hw1 E2)|].
        split.
        { apply (ids_append w w1 [i] new Hw1); [|exact E3].
          cbn. unfold issue_id_at, next_issue_id. rewrite Nat.add_0_r.
          reflexivity. }
        split.
        { constructor; [|exact E4]. subst i. unfold reported, about.
          cbn. repeat split; auto. }
        cbn [map snd]. subst i. cbn [set_index issue_type].
        apply sublist_skip, E5.
    + assert (Hrun : run_check rules unit (m, t) issues w = (issues, w)).
      { unfold run_check. rewrite Et. reflexivity. }
      rewrite Hrun. cbn [fst snd].
      destruct (IH issues w) as (new & E1 & E2 & E3 & E4 & E5).
      exists new. split; [exact E1|]. split; [exact E2|].
      split; [exact E3|]. split; [exact E4|]. cbn [map snd].
      apply sublist_cons, E5.
Qed.

Lemma checkUnit_issues unit allUnits config w :
  let issues := fst (checkUnit unit allUnits config w) in
  after_draws (List.length issues) w (snd (checkUnit unit allUnits config w))
  /\ map issue_id issues = map (issue_id_at w) (seq 0 (List.length issues))
  /\ Forall (reported (merged_rules config) unit) issues
  /\ sublist (map issue_type issues) rule_order.
Proof.
  unfold checkUnit.
  destruct (checks_loop_issues (merged_rules config) unit
              (checks unit allUnits config)
              (checks_report unit allUnits config) [] w)
    as (new & E1 & E2 & E3 & E4 & E5).
  cbv zeta. rewrite E1. cbn [app]. rewrite checks_types in E5. auto.
Qed.

(** The issues of a run are the issues of its units, one unit after the
    other. *)
Lemma units_loop_runs allUnits units config :
  forall issues w,
    fst (for_of units
           (fun unit allIssues =>
              found <- checkUnit unit allUnits config ;;
              ret (allIssues ++ found))
           issues w)
    = issues ++ concat (unit_runs allUnits units config w).
Proof.
  induction units as [|u units IH]; intros issues w.
  - cbn. rewrite app_nil_r. reflexivity.
  - rewrite for_of_cons, bind_run. cbn [ret fst snd]. rewrite IH.
    cbn [unit_runs concat]. rewrite app_assoc. reflexivity.
Qed.

Lemma runQA_runs file config w :
  result_issues (fst (runQA file config w))
  = concat (unit_runs (file_units file) (file_units file) config w).
Proof. rewrite runQA_issues, units_loop_runs. reflexivity. Qed.

Lemma unit_runs_reported allUnits units config w :
  Forall2 (fun unit run =>
             Forall (reported (merged_rules config) unit) run
             /\ sublist (map issue_type run) rule_order)
    units (unit_runs allUnits units config w).
Proof.
  revert w. induction units as [|u units IH]; intros w; cbn [unit_runs].
  - constructor.
  - constructor; [|apply IH].
    destruct (checkUnit_issues u allUnits config w) as (_ & _ & H1 & H2).
    auto.
Qed.

End UnitIssues.

Section RunLemmas.

Context {host : Platform}.

Local Open Scope nat_scope.

Lemma units_loop_ids allUnits units config :
  forall issues w,
  exists new,
    fst (for_of units
           (fun unit allIssues =>
              found <- checkUnit unit allUnits config ;;
              ret (allIssues ++ found))
           issues w) = issues ++ new
    /\ after_draws (List.length new) w
         (snd (for_of units
                 (fun unit allIssues =>
                    found <- checkUnit unit allUnits config ;;
                    ret (allIssues ++ found))
                 issues w))
    /\ map issue_id new = map (issue_id_at w) (seq 0 (List.length new)).
Proof.
  induction units as [|u units IH]; intros issues w.
  - exists []. cbn. rewrite app_nil_r.
    split; [reflexivity|]. split; [apply after_draws_refl | reflexivity].
  - rewrite for_of_cons, bind_run. cbn [ret fst snd].
    destruct (checkUnit_issues u allUnits config w) as (A1 & A2 & _).
    cbv zeta in A1, A2.
    destruct (IH (issues ++ fst (checkUnit u allUnits config w))
                (snd (checkUnit u allUnits config w)))
      as (new & E1 & E2 & E3).
    exists (fst (checkUnit u allUnits config w) ++ new).
    rewrite E1, <- app_assoc. split; [reflexivity|].
    split.
    + rewrite length_app. exact (after_draws_trans _ _ _ _ _ A1 E2).
    + exact (ids_append _ _ _ _ A1 A2 E3).
Qed.

Lemma Forall2_concat {A B : Type} (R : A -> list B -> Prop) (P : B -> Prop)
  (xs : list A) (ls : list (list B)) :
  Forall2 R xs ls ->
  (forall x l, In x xs -> R x l -> Forall P l) ->
  Forall P (concat ls).
Proof.
  induction 1 as [|x l xs ls Hx _ IH]; intros HP; cbn [concat].
  - constructor.
  - apply Forall_app. split.
    + apply (HP x l); [left; reflexivity | exact Hx].
    + apply IH. intros x' l' Hin. apply HP. right. exact Hin.
Qed.

Lemma runQA_reported file config w :
  Forall (fun i => exists unit,
            In unit (file_units file)
            /\ reported (merged_rules config) unit i
            /\ In (issue_type i) rule_order)
    (result_issues (fst (runQA file config w))).
Proof.
  rewrite runQA_runs.
  eapply Forall2_concat; [apply unit_runs_reported|].
  intros unit run Hin [Hr Hs]. apply Forall_forall. intros i Hi.
  exists unit. split; [exact Hin|]. split.
  - rewrite Forall_forall in Hr. apply Hr, Hi.
  - apply list_elem_of_In. eapply elem_of_sublist; [|exact Hs].
    apply list_elem_of_In, in_map, list_elem_of_In, Hi.
Qed.

Lemma runQA_totalUnits file config w :
  result_totalUnits (fst (runQA file config w))
  = List.length (file_units file).
Proof.
  unfold runQA. rewrite !bind_run. cbv zeta. rewrite ?bind_run. reflexivity.
Qed.

Lemma concat_length_bound {A B : Type} (R : A -> list B -> Prop) (n : nat)
  (xs : list A) (ls : list (list B)) :
  Forall2 R xs ls ->
  (forall x l, R x l -> List.length l <= n) ->
  List.length (concat ls) <= n * List.length xs.
Proof.
  intros H Hn. induction H as [|x l xs ls Hx _ IH]; cbn [concat List.length].
  - lia.
  - rewrite length_app. specialize (Hn x l Hx). lia.
Qed.

Lemma all_issue_types_complete (t : IssueType) : In t all_issue_types.
Proof. destruct t; cbn; tauto. Qed.

Lemma getEnabledRules_spec (config : QAConfig) (t : IssueType) :
  In t (getEnabledRules config)
  <-> rule_enabled (merged_rules config) t = true.
Proof.
  unfold getEnabledRules, rule_entries, rule_enabled. cbv zeta.
  rewrite in_map_iff. split.
  - intros ([t' b] & E & Hin). cbn in E. subst t'.
    apply filter_In in Hin. destruct Hin as [Hin Hb]. cbn in Hb. subst b.
    apply list_elem_of_In, list_elem_of_omap in Hin.
    destruct Hin as (t' & _ & Ht').
    destruct (merged_rules config !! t') as [b|] eqn:E; [|discriminate].
    injection Ht' as -> ->. rewrite E. reflexivity.
  - intros H. exists (t, true). split; [reflexivity|].
    apply filter_In. split; [|reflexivity].
    apply list_elem_of_In, list_elem_of_omap. exists t.
    split; [apply list_elem_of_In, all_issue_types_complete|].
    destruct (merged_rules config !! t) as [[|]|]; cbn in H;
      try discriminate; reflexivity.
Qed.

End RunLemmas.

(** ** The issues of a run *)

(** X1. The issues of a run come unit by unit, in the order of the file:
    they are the concatenation of one list per unit, and every issue in
    the list of a unit carries the identifier, the index, the key, the
    source and the target of that unit. *)
Theorem runQA_groups_by_unit {host : Platform} (file : TranslationFile)
  (config : QAConfig) (w : World) :
  exists runs : list (list QAIssue),
    result_issues (fst (runQA file config w)) = concat runs
    /\ Forall2 (fun unit run => Forall (about unit) run)
         (file_units file) runs.
Proof.
  exists (unit_runs (file_units file) (file_units file) config w).
  split; [apply runQA_runs|].
  eapply Forall2_impl; [apply unit_runs_reported|].
  intros unit run [H _]. eapply Forall_impl; [exact H|].
  intros i Hi. apply Hi.
Qed.

(** X2. A unit gets at most one issue from each rule, and its issues come
    in the order of the table of [checkUnit]: the types of the issues of
    a unit are a subsequence of the types of the table, so no type
    occurs twice for one unit. *)
Theorem checkUnit_one_issue_per_rule {host : Platform}
  (unit : TranslationUnit) (allUnits : list TranslationUnit)
  (config : QAConfig) (w : World) :
  sublist (map issue_type (fst (checkUnit unit allUnits config w))) rule_order
  /\ NoDup (map issue_type (fst (checkUnit unit allUnits config w))).
Proof.
  destruct (checkUnit_issues unit allUnits config w) as (_ & _ & _ & H).
  split; [exact H|].
  eapply sublist_NoDup; [|exact H].
  unfold rule_order. apply NoDup_ListNoDup.
  repeat (constructor; [cbn; intuition discriminate|]). constructor.
Qed.

(** X3. A run reports at most 21 issues per unit. *)
Theorem runQA_issue_bound {host : Platform} (file : TranslationFile)
  (config : QAConfig) (w : World) :
  (stats_total (result_stats (fst (runQA file config w)))
   <= 21 * result_totalUnits (fst (runQA file config w)))%nat.
Proof.
  rewrite runQA_stats. cbv zeta. cbn [stats_total].
  rewrite runQA_runs, runQA_totalUnits.
  eapply concat_length_bound; [apply unit_runs_reported|].
  intros unit run [_ Hs]. apply sublist_length in Hs.
  rewrite length_map in Hs. exact Hs.
Qed.

(** X4. The severity of an issue is fixed by its type: error for missing
    and empty translations, brackets, placeholders and HTML tags; info
    for duplicates, formatting and target same as source; warning for
    every other type. *)
Theorem runQA_severity_by_type {host : Platform} (file : TranslationFile)
  (config : QAConfig) (w : World) :
  Forall (fun i => issue_severity i = severity_of (issue_type i))
    (result_issues (fst (runQA file config w))).
Proof.
  eapply Forall_impl; [apply runQA_reported|].
  intros i (unit & _ & (_ & H & _) & _). exact H.
Qed.

(** X5. Every issue of a run has a type that [getEnabledRules] lists for
    the same config: a rule that is switched off reports nothing. *)
Theorem runQA_only_enabled_rules {host : Platform} (file : TranslationFile)
  (config : QAConfig) (w : World) :
  Forall (fun i => In (issue_type i) (getEnabledRules config))
    (result_issues (fst (runQA file config w))).
Proof.
  eapply Forall_impl; [apply runQA_reported|].
  intros i (unit & _ & (_ & _ & H) & _). apply getEnabledRules_spec, H.
Qed.

(** X6. No issue has the type [inconsistent_case] or
    [potentially_incorrect_translation], whatever the config says about
    these two: the table of [checkUnit] has no rule for them. *)
Theorem runQA_types_without_rule {host : Platform} (file : TranslationFile)
  (config : QAConfig) (w : World) :
  Forall (fun i => issue_type i <> inconsistent_case
                   /\ issue_type i <> potentially_incorrect_translation)
    (result_issues (fst (runQA file config w))).
Proof.
  eapply Forall_impl; [apply runQA_reported|].
  intros i (unit & _ & _ & Hin). unfold rule_order in Hin. cbn in Hin.
  split; intros E; rewrite E in Hin; intuition discriminate.
Qed.

(** X7. A run takes one random number per issue and reads the clock
    once: the k-th issue carries the identifier made from the k-th draw
    after the start, the stamp [completedAt] is the first reading of the
    clock, and nothing else of the world is used. *)
Theorem runQA_issue_ids {host : Platform} (file : TranslationFile)
  (config : QAConfig) (w : World) :
  map issue_id (result_issues (fst (runQA file config w)))
  = map (issue_id_at w)
      (seq 0 (List.length (result_issues (fst (runQA file config w)))))
  /\ random_taken (snd (runQA file config w))
     = (random_taken w
        + List.length (result_issues (fst (runQA file config w))))%nat
  /\ clock_taken (snd (runQA file config w)) = S (clock_taken w)
  /\ result_completedAt (fst (runQA file config w))
     = clock_source w (clock_taken w).
Proof.
  destruct (units_loop_ids (file_units file) (file_units file) config [] w)
    as (new & E1 & (A1 & A2 & A3 & A4) & E3).
  rewrite runQA_issues, E1. cbn [app].
  unfold runQA. rewrite !bind_run. cbv zeta. rewrite ?bind_run.
  cbn [new_Date ret fst snd random_taken clock_taken result_completedAt].
  rewrite A2, A3, A4. auto.
Qed.

(** ** Single rules *)

Lemma mem_In (x : jsstring) (l : list jsstring) :
  mem x l = true <-> In x l.
Proof.
  unfold mem. rewrite existsb_exists. split.
  - intros (y & Hy & E). apply str_eqb_eq in E. subst y. exact Hy.
  - intros H. exists x. split; [exact H | apply str_eqb_refl].
Qed.

Lemma find_absent_in_itself (l : list jsstring) :
  List.find (fun tag => negb (mem tag l)) l = None.
Proof.
  destruct (List.find (fun tag => negb (mem tag l)) l) as [x|] eqn:E;
    [|reflexivity].
  apply find_some in E. destruct E as [Hin Hx].
  apply mem_In in Hin. rewrite Hin in Hx. discriminate.
Qed.

Lemma tally_from (l : list jsstring) :
  forall (m : gmap jsstring nat) (a : jsstring),
    (forall b n, m !! b = Some n -> (0 < n)%nat) ->
    In a l \/ is_Some (m !! a) ->
    exists n,
      fold_left (fun m a => <[a := (default 0 (m !! a) + 1)%nat]> m) l m !! a
      = Some n
      /\ (0 < n)%nat.
Proof.
  induction l as [|x l IH]; intros m a Hm Ha; cbn [fold_left].
  - destruct Ha as [[]|[n Hn]]. exists n. split; [exact Hn | eapply Hm, Hn].
  - apply IH.
    + intros b n. destruct (decide (x = b)) as [->|N].
      * rewrite lookup_insert_eq. intros [= <-]. lia.
      * rewrite lookup_insert_ne by exact N. apply Hm.
    + destruct (decide (x = a)) as [->|N].
      * right. rewrite lookup_insert_eq. eexists. reflexivity.
      * rewrite lookup_insert_ne by exact N.
        destruct Ha as [[E|Hin]|Hs]; [contradiction | left; exact Hin
                                      | right; exact Hs].
Qed.

Lemma tally_truthy_member (l : list jsstring) (a : jsstring) :
  In a l -> tally_truthy (tally l) a = true.
Proof.
  intros Hin. unfold tally_truthy, tally.
  destruct (tally_from l ∅ a) as (n & -> & Hn).
  - intros b n. rewrite lookup_empty. discriminate.
  - left. exact Hin.
  - apply Nat.ltb_lt, Hn.
Qed.

Lemma filter_none {A : Type} (p : A -> bool) (l : list A) :
  (forall x, In x l -> p x = false) -> List.filter p l = [].
Proof.
  induction l as [|x l IH]; intros H; [reflexivity|]. cbn [List.filter].
  rewrite (H x) by (left; reflexivity). apply IH. intros y Hy. apply H.
  right. exact Hy.
Qed.

Lemma slice_last_snoc (s : jsstring) (c : N) : slice_last (s ++ [c]) = [c].
Proof.
  unfold slice_last, strlen. rewrite length_app. cbn [List.length].
  replace (List.length s + 1 - 1)%nat with (List.length s + 0)%nat by lia.
  rewrite skipn_app, Nat.add_0_r, skipn_all.
  replace (List.length s - List.length s)%nat with 0%nat by lia.
  reflexivity.
Qed.

Lemma punctuationMarks_single (s : jsstring) :
  mem s punctuationMarks = true -> exists c, s = [c].
Proof.
  intros H. apply mem_In in H. cbn in H.
  repeat (destruct H as [<-|H]; [eexists; reflexivity|]). contradiction.
Qed.

Lemma duplicate_iff (unit : TranslationUnit)
  (allUnits : list TranslationUnit) (w : World) :
  emits (checkDuplicateTranslation unit allUnits) w <->
  exists u, In u allUnits
            /\ unit_id u <> unit_id unit
            /\ unit_source u = unit_source unit
            /\ unit_target u = unit_target unit
            /\ unit_target u <> [].
Proof.
  unfold checkDuplicateTranslation. cbv zeta.
  rewrite emits_if, filter_nonempty.
  split; intros [u Hu]; exists u.
  - destruct Hu as [Hin Hp]. rewrite !andb_true_iff, !negb_true_iff in Hp.
    rewrite !str_eqb_neq, !str_eqb_eq in Hp. tauto.
  - rewrite !andb_true_iff, !negb_true_iff, !str_eqb_neq, !str_eqb_eq. tauto.
Qed.

Section SameText.

Context {host : Platform}.

Variable unit : TranslationUnit.
Hypothesis same : unit_target unit = unit_source unit.

Lemma brackets_loop_same pairs :
  silent (checkInconsistentBrackets_loop unit pairs).
Proof.
  induction pairs as [|[op cl] pairs IH]; cbn [checkInconsistentBrackets_loop].
  - intros w. reflexivity.
  - cbv zeta. rewrite same, !Nat.eqb_refl. exact IH.
Qed.

Lemma placeholders_loop_same patterns :
  silent (checkInconsistentPlaceholders_loop unit patterns).
Proof.
  induction patterns as [|p patterns IH];
    cbn [checkInconsistentPlaceholders_loop].
  - intros w. reflexivity.
  - cbv zeta. rewrite same, !Nat.eqb_refl. exact IH.
Qed.

Lemma special_loop_same chars :
  silent (checkSpecialCharactersMismatch_loop unit chars).
Proof.
  induction chars as [|c chars IH];
    cbn [checkSpecialCharactersMismatch_loop].
  - intros w. reflexivity.
  - cbv zeta. rewrite same, !Nat.eqb_refl. exact IH.
Qed.

Lemma alphanumeric_same : silent (checkAlphanumericMismatch unit).
Proof.
  unfold checkAlphanumericMismatch. cbv zeta. rewrite same.
  rewrite (filter_none _ (match_all re_alnum_run (unit_source unit))).
  - intros w. reflexivity.
  - intros a Ha. rewrite tally_truthy_member by exact Ha. reflexivity.
Qed.

End SameText.

(** X8. A unit whose target is its source, character for character,
    passes every rule that compares a feature of the two: spaces at the
    ends, brackets, placeholders, ending punctuation, numbers, URLs,
    emails, XML tags, special characters, formatting and alphanumeric
    tokens. *)
Theorem copied_source_passes_comparisons {host : Platform}
  (unit : TranslationUnit) :
  unit_target unit = unit_source unit ->
  silent (checkLeadingTrailingSpaces unit)
  /\ silent (checkInconsistentBrackets unit)
  /\ silent (checkInconsistentPlaceholders unit)
  /\ silent (checkInconsistentPunctuation unit)
  /\ silent (checkInconsistentNumbers unit)
  /\ silent (checkInconsistentURLs unit)
  /\ silent (checkInconsistentEmails unit)
  /\ silent (checkInvalidXmlTags unit)
  /\ silent (checkSpecialCharactersMismatch unit)
  /\ silent (checkFormattingIssues unit)
  /\ silent (checkAlphanumericMismatch unit).
Proof.
  intros same.
  split; [|split; [|split; [|split; [|split; [|split; [|split; [|split;
    [|split; [|split]]]]]]]]].
  - unfold checkLeadingTrailingSpaces. cbv zeta. rewrite same.
    rewrite !eqb_reflx. intros w. reflexivity.
  - apply brackets_loop_same, same.
  - apply placeholders_loop_same, same.
  - unfold checkInconsistentPunctuation. cbv zeta. rewrite same.
    rewrite str_eqb_refl, andb_false_r. intros w. reflexivity.
  - unfold checkInconsistentNumbers. cbv zeta. rewrite same, Nat.eqb_refl.
    intros w. reflexivity.
  - unfold checkInconsistentURLs. cbv zeta. rewrite same, Nat.eqb_refl.
    intros w. reflexivity.
  - unfold checkInconsistentEmails. cbv zeta. rewrite same, Nat.eqb_refl.
    intros w. reflexivity.
  - unfold checkInvalidXmlTags. cbv zeta.
    rewrite same, find_absent_in_itself. intros w. reflexivity.
  - apply special_loop_same, same.
  - unfold checkFormattingIssues. rewrite same, !andb_negb_r.
    intros w. reflexivity.
  - apply alphanumeric_same, same.
Qed.

Lemma copied_source_passes_comparisons_witness :
  silent (checkInconsistentNumbers
            (example_unit 1 (js "Page 2 of 10") (js "Page 2 of 10")))
  /\ silent (checkAlphanumericMismatch
               (example_unit 1 (js "Page 2 of 10") (js "Page 2 of 10"))).
Proof.
  assert (H := copied_source_passes_comparisons (host := example_host [] [])
                 (example_unit 1 (js "Page 2 of 10") (js "Page 2 of 10"))
                 eq_refl).
  split; apply H.
Defined.

(** X9. When the punctuation rule reports a unit, its suggestion is the
    target followed by the mark the source ends with, and the unit with
    that suggestion as its target passes the rule. *)
Theorem punctuation_suggestion_passes {host : Platform}
  (unit : TranslationUnit) (w : World) (i : QAIssue) :
  fst (checkInconsistentPunctuation unit w) = Some i ->
  exists s,
    issue_suggestion i = Some s
    /\ s = unit_target unit ++ slice_last (unit_source unit)
    /\ silent (checkInconsistentPunctuation (with_target s unit)).
Proof.
  unfold checkInconsistentPunctuation at 1. cbv zeta.
  destruct (mem (slice_last (unit_source unit)) punctuationMarks) eqn:Hm;
    [|discriminate].
  intros Hi. apply returns_if in Hi. destruct Hi as (_ & _ & Hs).
  eexists. split; [exact Hs|]. split; [reflexivity|].
  destruct (punctuationMarks_single _ Hm) as [c Hc].
  unfold checkInconsistentPunctuation. cbv zeta.
  cbn [with_target unit_source unit_target].
  rewrite Hc, slice_last_snoc, str_eqb_refl, andb_false_r.
  intros w'. reflexivity.
Qed.

Lemma punctuation_suggestion_passes_witness :
  silent (checkInconsistentPunctuation
            (with_target (js "Bonjour.")
               (example_unit 1 (js "Hello.") (js "Bonjour")))).
Proof.
  destruct (punctuation_suggestion_passes (host := example_host [] [])
              (example_unit 1 (js "Hello.") (js "Bonjour")) example_world
              _ eq_refl)
    as (s & _ & E & H).
  rewrite E in H. exact H.
Defined.

(** X10. The rules that compare a unit with the other units of the file
    report in pairs: when a unit of the file is reported for an
    inconsistent target, an inconsistent source or a duplicate
    translation, another unit of the file (one with a different
    identifier) is reported by the same rule. *)
Theorem relational_rules_report_pairs (unit : TranslationUnit)
  (allUnits : list TranslationUnit) (w : World) :
  In unit allUnits ->
  (emits (checkInconsistentTarget unit allUnits) w ->
   exists u, In u allUnits /\ unit_id u <> unit_id unit
             /\ emits (checkInconsistentTarget u allUnits) w)
  /\ (emits (checkInconsistentSource unit allUnits) w ->
      exists u, In u allUnits /\ unit_id u <> unit_id unit
                /\ emits (checkInconsistentSource u allUnits) w)
  /\ (emits (checkDuplicateTranslation unit allUnits) w ->
      exists u, In u allUnits /\ unit_id u <> unit_id unit
                /\ emits (checkDuplicateTranslation u allUnits) w).
Proof.
  intros Hin. split; [|split].
  - rewrite inconsistent_target_iff. intros (u & Hu & Hid & Hs & Ht).
    exists u. split; [exact Hu|]. split; [exact Hid|].
    apply inconsistent_target_iff. exists unit. auto.
  - rewrite inconsistent_source_iff. intros (u & Hu & Hid & Ht & Hs).
    exists u. split; [exact Hu|]. split; [exact Hid|].
    apply inconsistent_source_iff. exists unit. auto.
  - rewrite duplicate_iff. intros (u & Hu & Hid & Hs & Ht & Hn).
    exists u. split; [exact Hu|]. split; [exact Hid|].
    apply duplicate_iff. exists unit.
    repeat split; auto; congruence.
Qed.

Lemma relational_rules_report_pairs_witness :
  exists u,
    In u [example_unit 1 (js "OK") (js "Oui");
          example_unit 2 (js "OK") (js "D'accord")]
    /\ unit_id u <> unit_id (example_unit 1 (js "OK") (js "Oui"))
    /\ emits (checkInconsistentTarget u
                [example_unit 1 (js "OK") (js "Oui");
                 example_unit 2 (js "OK") (js "D'accord")]) example_world.
Proof.
  apply (relational_rules_report_pairs
           (example_unit 1 (js "OK") (js "Oui"))
           [example_unit 1 (js "OK") (js "Oui");
            example_unit 2 (js "OK") (js "D'accord")] example_world).
  - left. reflexivity.
  - eexists. reflexivity.
Defined.

(** X11. A glossary term without source or without target is ignored
    by the glossary rule: the rule returns the same with and without
    such terms in the glossary. *)
Theorem incomplete_terms_are_ignored {host : Platform}
  (unit : TranslationUnit) (glossary : list GlossaryTerm) :
  checkKeyTermMismatch unit glossary
  = checkKeyTermMismatch unit
      (List.filter
         (fun term => truthy (term_source term) && truthy (term_target term))
         glossary).
Proof.
  unfold checkKeyTermMismatch. cbv zeta.
  set (found := fun term : GlossaryTerm =>
         if negb (truthy (term_source term))
            || negb (truthy (term_target term))
         then false
         else test (re_term (term_source term)) (unit_source unit)
              && negb (test (re_term (term_target term)) (unit_target unit))).
  set (complete := fun term : GlossaryTerm =>
         truthy (term_source term) && truthy (term_target term)).
  assert (E : List.filter found (List.filter complete glossary)
              = List.filter found glossary).
  { induction glossary as [|t g IH]; [reflexivity|]. cbn [List.filter].
    destruct (complete t) eqn:Ec; cbn [List.filter]; rewrite IH.
    - reflexivity.
    - replace (found t) with false; [reflexivity|].
      unfold found, complete in *.
      destruct (truthy (term_source t)), (truthy (term_target t));
        try reflexivity; discriminate. }
  rewrite E.
  destruct (List.length glossary =? 0)%nat eqn:E0.
  - apply Nat.eqb_eq in E0. destruct glossary; [reflexivity|discriminate].
  - destruct (List.length (List.filter complete glossary) =? 0)%nat eqn:E1;
      [|reflexivity].
    apply Nat.eqb_eq in E1.
    destruct (List.filter complete glossary); [|discriminate].
    cbn [List.filter] in E. rewrite <- E. reflexivity.
Qed.

(** ** The decoders *)

Section DecoderLemmas.

Context {host : Platform}.

Local Open Scope nat_scope.

Lemma push_unit_Forall (P : TranslationUnit -> Prop) units key source target
  context notes fileName line w :
  Forall P units ->
  (forall id index,
     P {| unit_id := id; unit_key := key; unit_source := source;
          unit_target := target; unit_context := context;
          unit_notes := notes; unit_filePath := fileName;
          unit_lineNumber := line; unit_index := index |}) ->
  Forall P (fst (push_unit units key source target context notes fileName
                   line w)).
Proof.
  intros H HP. rewrite push_unit_units. apply Forall_app. split; [exact H|].
  constructor; [apply HP | constructor].
Qed.

Lemma push_unit_length units key source target context notes fileName line w :
  List.length (fst (push_unit units key source target context notes fileName
                      line w))
  = S (List.length units).
Proof. rewrite push_unit_units, length_app. cbn. lia. Qed.

Lemma new_file_fields fileName type sl tl units content w :
  file_name (fst (new_file fileName type sl tl units content w)) = fileName
  /\ file_type (fst (new_file fileName type sl tl units content w)) = type
  /\ file_size (fst (new_file fileName type sl tl units content w))
     = strlen content.
Proof. repeat split. Qed.

End DecoderLemmas.

Ltac the_file file :=
  match goal with
  | |- Returns ?f = Returns _ -> _ =>
      let H := fresh in
      intros H; assert (f = file) by congruence; subst file; clear H
  end.

Section DecoderInvariant.

Context {host : Platform}.

Local Open Scope nat_scope.

Variable fileName : jsstring.
Variable I : list TranslationUnit -> Prop.

Section Monolingual.

Hypothesis kept : kept_by_push fileName true I.

Lemma extractTranslations_keeps obj :
  forall prefix units w,
    I units -> I (fst (extractTranslations fileName obj prefix units w)).
Proof.
  induction obj as [| b | x | s | items IH | entries IH] using json_induction;
    intros prefix units w Hd; try exact Hd;
    rewrite extractTranslations_unfold; cbn [Object_entries].
  - revert units w Hd. generalize 0.
    induction s as [|c s IHs]; intros i units w Hd; [exact Hd|].
    cbn [map indexed_from]. rewrite for_of_cons. apply IHs.
    cbn [visit_entry]. apply kept; [reflexivity | exact Hd].
  - revert units w Hd. generalize 0.
    induction IH as [|v items Hv _ IHitems]; intros i units w Hd;
      [exact Hd|].
    cbn [indexed_from]. rewrite for_of_cons. apply IHitems.
    unfold visit_entry. destruct v; try exact Hd.
    + apply kept; [reflexivity | exact Hd].
    + apply Hv, Hd.
    + apply Hv, Hd.
  - revert units w Hd.
    induction IH as [|[k v] entries Hv _ IHentries]; intros units w Hd;
      [exact Hd|].
    rewrite for_of_cons. apply IHentries. cbn [snd] in Hv.
    unfold visit_entry. destruct v; try exact Hd.
    + apply kept; [reflexivity | exact Hd].
    + apply Hv, Hd.
    + apply Hv, Hd.
Qed.

Lemma parseJSON_keeps content w file :
  I [] ->
  fst (parseJSON content fileName w) = Returns file -> I (file_units file).
Proof.
  intros H0. unfold parseJSON.
  destruct (JSON_parse content) as [data|]; [|discriminate].
  destruct data; try discriminate;
    rewrite !bind_run; cbn [ret fst]; the_file file;
    rewrite new_file_units; apply extractTranslations_keeps, H0.
Qed.

Lemma parseXML_keeps content w file :
  I [] ->
  fst (parseXML content fileName w) = Returns file -> I (file_units file).
Proof.
  intros H0. unfold parseXML. destruct (0 <? _)%nat; [discriminate|].
  rewrite !bind_run. cbn [ret fst]. the_file file.
  rewrite new_file_units.
  apply for_index_invariant.
  - intros i arr units w' Hd. apply for_index_invariant; [|exact Hd].
    intros j item units' w'' Hd'. apply kept; [reflexivity | exact Hd'].
  - apply for_index_invariant; [|exact H0].
    intros i el units w' Hd. apply kept; [reflexivity | exact Hd].
Qed.

Lemma parseYAML_keeps content w :
  I [] -> I (file_units (fst (parseYAML content fileName w))).
Proof.
  intros H0. unfold parseYAML. rewrite !bind_run. rewrite new_file_units.
  apply (for_index_invariant (fun st => I (snd st))); [|exact H0].
  intros i line [keyStack units] w' Hd. cbn [snd] in Hd.
  destruct (parseYamlLine line) as [parsed|]; [|exact Hd].
  destruct (truthy (yaml_value parsed)); [|exact Hd].
  rewrite bind_run. cbn [ret fst snd]. apply kept; [reflexivity | exact Hd].
Qed.

Lemma parseProperties_keeps content w :
  I [] -> I (file_units (fst (parseProperties content fileName w))).
Proof.
  intros H0. unfold parseProperties. rewrite !bind_run.
  rewrite new_file_units.
  apply for_index_invariant; [|exact H0].
  intros i line units w' Hd. cbv zeta.
  destruct (_ || _); [exact Hd|].
  destruct (0 <? _)%Z; [apply kept; [reflexivity|]|]; exact Hd.
Qed.

Lemma parseRESX_keeps content w file :
  I [] ->
  fst (parseRESX content fileName w) = Returns file -> I (file_units file).
Proof.
  intros H0. unfold parseRESX. destruct (0 <? _)%nat; [discriminate|].
  rewrite !bind_run. cbn [ret fst]. the_file file.
  rewrite new_file_units. apply for_index_invariant; [|exact H0].
  intros i el units w' Hd. apply kept; [reflexivity | exact Hd].
Qed.

End Monolingual.

Section Bilingual.

Hypothesis kept : kept_by_push fileName false I.

Lemma parseXLIFF_keeps content w file :
  I [] ->
  fst (parseXLIFF content fileName w) = Returns file -> I (file_units file).
Proof.
  intros H0. unfold parseXLIFF. destruct (0 <? _)%nat; [discriminate|].
  destruct (doc_getElementsByTagName _ (js "file")); [discriminate|].
  rewrite !bind_run. cbn [ret fst]. the_file file.
  rewrite new_file_units. apply for_of_invariant; [|exact H0].
  intros unit units w' Hd. unfold xliff_unit. rewrite bind_run.
  apply kept; [discriminate | exact Hd].
Qed.

Lemma saveUnit_keeps st w :
  I (po_units st) -> I (po_units (fst (saveUnit fileName st w))).
Proof.
  intros Hd. unfold saveUnit. rewrite bind_run. cbn [ret fst po_units].
  destruct (truthy (currentMsgid st)); [apply kept; [discriminate|]|];
    exact Hd.
Qed.

Lemma po_line_keeps line st w :
  I (po_units st) -> I (po_units (fst (po_line fileName line st w))).
Proof.
  intros Hd. unfold po_line.
  repeat match goal with
         | |- context [if ?c then _ else _] => destruct c
         end;
    rewrite ?bind_run; cbn [ret fst po_units];
    try exact Hd; try (apply saveUnit_keeps; exact Hd).
Qed.

Lemma parsePO_keeps content w :
  I [] -> I (file_units (fst (parsePO content fileName w))).
Proof.
  intros H0. unfold parsePO. rewrite !bind_run. rewrite new_file_units.
  apply saveUnit_keeps.
  apply (for_of_invariant (fun st => I (po_units st))).
  - intros line st w' Hd. apply po_line_keeps, Hd.
  - exact H0.
Qed.

Lemma parseStrings_keeps content w :
  I [] -> I (file_units (fst (parseStrings content fileName w))).
Proof.
  intros H0. unfold parseStrings. rewrite !bind_run. rewrite new_file_units.
  apply for_of_invariant; [|exact H0].
  intros line units w' Hd.
  destruct (exec re_strings_line (trim line));
    [apply kept; [discriminate|]|]; exact Hd.
Qed.

Lemma parseCSV_keeps content delimiter w :
  I [] -> I (file_units (fst (parseCSV content fileName delimiter w))).
Proof.
  intros H0. unfold parseCSV. cbv zeta. rewrite !bind_run.
  rewrite new_file_units.
  apply for_index_invariant; [|exact H0].
  intros i line units w' Hd.
  destruct (negb _); [exact Hd|].
  destruct (2 <=? _)%nat; [apply kept; [discriminate|]|]; exact Hd.
Qed.

Lemma parseTMX_keeps content w file :
  I [] ->
  fst (parseTMX content fileName w) = Returns file -> I (file_units file).
Proof.
  intros H0. unfold parseTMX. destruct (0 <? _)%nat; [discriminate|].
  rewrite !bind_run. cbn [ret fst]. the_file file.
  rewrite new_file_units. apply for_index_invariant; [|exact H0].
  intros i tu units w' Hd.
  destruct (tmx_sides _). apply kept; [discriminate | exact Hd].
Qed.

Lemma kept_monolingual : kept_by_push fileName true I.
Proof.
  intros units key source target context notes line w _. apply kept.
  discriminate.
Qed.

(** What every push keeps and the empty list has, the units of a file
    that [parseFile] returns have. *)
Lemma parseFile_keeps content w file :
  I [] ->
  fst (parseFile content fileName w) = Returns file -> I (file_units file).
Proof.
  intros H0. unfold parseFile.
  destruct (detectFileType fileName) as [[t|name]|]; [|discriminate..].
  destruct t; rewrite ?returns_run; cbn [fst].
  - apply parseJSON_keeps; [apply kept_monolingual | exact H0].
  - apply parseXLIFF_keeps, H0.
  - rewrite bind_run.
    destruct (fst (parseXLIFF content fileName w)) as [result|e] eqn:E;
      [|discriminate].
    cbn [ret fst]. intros [= <-]. cbn [set_type file_units].
    apply (parseXLIFF_keeps _ _ _ H0 E).
  - apply parseXML_keeps; [apply kept_monolingual | exact H0].
  - intros [= <-]. apply parsePO_keeps, H0.
  - intros [= <-]. apply parsePO_keeps, H0.
  - intros [= <-]. apply parseStrings_keeps, H0.
  - intros [= <-]. apply parseYAML_keeps; [apply kept_monolingual | exact H0].
  - intros [= <-]. apply parseYAML_keeps; [apply kept_monolingual | exact H0].
  - intros [= <-].
    apply parseProperties_keeps; [apply kept_monolingual | exact H0].
  - apply parseRESX_keeps; [apply kept_monolingual | exact H0].
  - intros [= <-]. apply parseCSV_keeps, H0.
  - apply parseTMX_keeps, H0.
  - intros [= <-]. apply parseCSV_keeps, H0.
Qed.

End Bilingual.

End DecoderInvariant.

Section DecoderOutcomes.

Context {host : Platform}.

Local Open Scope nat_scope.

Lemma Forall_kept (P : TranslationUnit -> Prop) fileName monolingual :
  (forall id key source target context notes line index,
     (monolingual = true -> target = []) ->
     P {| unit_id := id; unit_key := key; unit_source := source;
          unit_target := target; unit_context := context;
          unit_notes := notes; unit_filePath := fileName;
          unit_lineNumber := line; unit_index := index |}) ->
  kept_by_push fileName monolingual (Forall P).
Proof.
  intros HP units key source target context notes line w Hm H.
  apply push_unit_Forall; [exact H|]. intros id index. apply HP, Hm.
Qed.

Ltac thrown :=
  rewrite ?bind_run; cbn [ret fst];
  first [ discriminate
        | let H := fresh in intros H; injection H as <-; reflexivity ].

Lemma parseJSON_throws content fileName w e :
  fst (parseJSON content fileName w) = Throws e -> error_fileName e = fileName.
Proof.
  unfold parseJSON. destruct (JSON_parse content) as [data|]; [|thrown].
  destruct data; thrown.
Qed.

Lemma parseXLIFF_throws content fileName w e :
  fst (parseXLIFF content fileName w) = Throws e ->
  error_fileName e = fileName.
Proof.
  unfold parseXLIFF. destruct (0 <? _)%nat; [thrown|].
  destruct (doc_getElementsByTagName _ (js "file")); thrown.
Qed.

Lemma parseXML_throws content fileName w e :
  fst (parseXML content fileName w) = Throws e -> error_fileName e = fileName.
Proof. unfold parseXML. destruct (0 <? _)%nat; thrown. Qed.

Lemma parseRESX_throws content fileName w e :
  fst (parseRESX content fileName w) = Throws e -> error_fileName e = fileName.
Proof. unfold parseRESX. destruct (0 <? _)%nat; thrown. Qed.

Lemma parseTMX_throws content fileName w e :
  fst (parseTMX content fileName w) = Throws e -> error_fileName e = fileName.
Proof. unfold parseTMX. destruct (0 <? _)%nat; thrown. Qed.

Ltac fields file :=
  rewrite ?bind_run; cbn [ret fst];
  first [ discriminate
        | the_file file; repeat split ].

Lemma parseJSON_fields content fileName w file :
  fst (parseJSON content fileName w) = Returns file ->
  file_name file = fileName /\ file_size file = strlen content
  /\ file_type file = FT_json.
Proof.
  unfold parseJSON. destruct (JSON_parse content) as [data|]; [|fields file].
  destruct data; fields file.
Qed.

Lemma parseXLIFF_fields content fileName w file :
  fst (parseXLIFF content fileName w) = Returns file ->
  file_name file = fileName /\ file_size file = strlen content
  /\ file_type file = FT_xliff.
Proof.
  unfold parseXLIFF. destruct (0 <? _)%nat; [fields file|].
  destruct (doc_getElementsByTagName _ (js "file")); fields file.
Qed.

Lemma parseXML_fields content fileName w file :
  fst (parseXML content fileName w) = Returns file ->
  file_name file = fileName /\ file_size file = strlen content
  /\ file_type file = FT_xml.
Proof. unfold parseXML. destruct (0 <? _)%nat; fields file. Qed.

Lemma parseRESX_fields content fileName w file :
  fst (parseRESX content fileName w) = Returns file ->
  file_name file = fileName /\ file_size file = strlen content
  /\ file_type file = FT_resx.
Proof. unfold parseRESX. destruct (0 <? _)%nat; fields file. Qed.

Lemma parseTMX_fields content fileName w file :
  fst (parseTMX content fileName w) = Returns file ->
  file_name file = fileName /\ file_size file = strlen content
  /\ file_type file = FT_tmx.
Proof. unfold parseTMX. destruct (0 <? _)%nat; fields file. Qed.

Lemma parsePO_fields content fileName w :
  file_name (fst (parsePO content fileName w)) = fileName
  /\ file_size (fst (parsePO content fileName w)) = strlen content
  /\ file_type (fst (parsePO content fileName w))
     = if endsWith (js ".pot") fileName then FT_pot else FT_po.
Proof. unfold parsePO. rewrite !bind_run. repeat split. Qed.

Lemma parseStrings_fields content fileName w :
  file_name (fst (parseStrings content fileName w)) = fileName
  /\ file_size (fst (parseStrings content fileName w)) = strlen content
  /\ file_type (fst (parseStrings content fileName w)) = FT_strings.
Proof. unfold parseStrings. rewrite !bind_run. repeat split. Qed.

Lemma parseYAML_fields content fileName w :
  file_name (fst (parseYAML content fileName w)) = fileName
  /\ file_size (fst (parseYAML content fileName w)) = strlen content
  /\ file_type (fst (parseYAML content fileName w)) = FT_yaml.
Proof. unfold parseYAML. rewrite !bind_run. repeat split. Qed.

Lemma parseProperties_fields content fileName w :
  file_name (fst (parseProperties content fileName w)) = fileName
  /\ file_size (fst (parseProperties content fileName w)) = strlen content
  /\ file_type (fst (parseProperties content fileName w)) = FT_properties.
Proof. unfold parseProperties. rewrite !bind_run. repeat split. Qed.

Lemma parseCSV_fields content fileName delimiter w :
  file_name (fst (parseCSV content fileName delimiter w)) = fileName
  /\ file_size (fst (parseCSV content fileName delimiter w)) = strlen content
  /\ file_type (fst (parseCSV content fileName delimiter w))
     = if (delimiter =? 9)%N then FT_tsv else FT_csv.
Proof. unfold parseCSV. cbv zeta. rewrite !bind_run. repeat split. Qed.

End DecoderOutcomes.

(** X12. Whatever makes [parseFile] fail, the error it raises carries
    the name of the file it was called with. *)
Theorem parseFile_error_names_the_file {host : Platform}
  (content fileName : jsstring) (w : World) (e : FileParserError) :
  fst (parseFile content fileName w) = Throws e ->
  error_fileName e = fileName.
Proof.
  unfold parseFile.
  destruct (detectFileType fileName) as [[t|name]|];
    [|cbn [ret fst]; intros [= <-]; reflexivity..].
  destruct t; rewrite ?returns_run; cbn [fst]; try discriminate.
  - apply parseJSON_throws.
  - apply parseXLIFF_throws.
  - rewrite bind_run.
    destruct (fst (parseXLIFF content fileName w)) as [result|e'] eqn:E;
      [discriminate|].
    cbn [ret fst]. intros [= <-]. apply (parseXLIFF_throws _ _ _ _ E).
  - apply parseXML_throws.
  - apply parseRESX_throws.
  - apply parseTMX_throws.
Qed.

Lemma parseFile_error_names_the_file_witness :
  exists e,
    fst (parseFile (host := example_host [] []) (js "{}") (js "notes.txt")
           example_world) = Throws e
    /\ error_fileName e = js "notes.txt".
Proof.
  eexists. split; [reflexivity|].
  apply (parseFile_error_names_the_file (host := example_host [] [])
           (js "{}") (js "notes.txt") example_world).
  reflexivity.
Defined.

(** X13. A file that [parseFile] returns carries the name it was called
    with and the length of the text as its size; every unit carries that
    name as its path; and the type of the file is the tag that
    [detectFileType] gives the name, except that the tag [yml] becomes
    [yaml] and that a catalogue is a [pot] exactly when the name ends
    with [.pot] in lower case. *)
Theorem parseFile_metadata {host : Platform} (content fileName : jsstring)
  (w : World) (file : TranslationFile) :
  fst (parseFile content fileName w) = Returns file ->
  file_name file = fileName
  /\ file_size file = strlen content
  /\ (exists t, detectFileType fileName = Some (Own t)
                /\ file_type file = declared_type fileName t)
  /\ Forall (fun u => unit_filePath u = fileName) (file_units file).
Proof.
  intros Hfile.
  assert (Hunits : Forall (fun u => unit_filePath u = fileName)
                     (file_units file)).
  { apply (parseFile_keeps fileName _ (Forall_kept _ fileName false
             (fun _ _ _ _ _ _ _ _ _ => eq_refl)) content w file);
      [constructor | exact Hfile]. }
  revert Hfile. unfold parseFile.
  destruct (detectFileType fileName) as [[t|name]|]; [|discriminate..].
  intros Hfile.
  assert (H : file_name file = fileName /\ file_size file = strlen content
              /\ file_type file = declared_type fileName t).
  { revert Hfile.
    destruct t; rewrite ?returns_run; cbn [fst declared_type].
    - apply parseJSON_fields.
    - apply parseXLIFF_fields.
    - rewrite bind_run.
      destruct (fst (parseXLIFF content fileName w)) as [result|e] eqn:E;
        [|discriminate].
      cbn [ret fst]. intros [= <-].
      destruct (parseXLIFF_fields _ _ _ _ E) as (H1 & H2 & _).
      cbn [set_type file_name file_size file_type]. auto.
    - apply parseXML_fields.
    - intros [= <-]. apply parsePO_fields.
    - intros [= <-]. apply parsePO_fields.
    - intros [= <-]. apply parseStrings_fields.
    - intros [= <-]. apply parseYAML_fields.
    - intros [= <-]. apply parseYAML_fields.
    - intros [= <-]. apply parseProperties_fields.
    - apply parseRESX_fields.
    - intros [= <-]. apply (parseCSV_fields content fileName 44).
    - apply parseTMX_fields.
    - intros [= <-]. apply (parseCSV_fields content fileName 9). }
  destruct H as (H1 & H2 & H3). eauto 10.
Qed.

Lemma parseFile_metadata_witness :
  file_name template_file = js "TEMPLATE.POT"
  /\ file_size template_file = strlen po_text
  /\ (exists t,
        detectFileType (host := example_host [] []) (js "TEMPLATE.POT")
        = Some (Own t)
        /\ file_type template_file = declared_type (js "TEMPLATE.POT") t)
  /\ Forall (fun u => unit_filePath u = js "TEMPLATE.POT")
       (file_units template_file).
Proof.
  apply (parseFile_metadata (host := example_host [] []) po_text
           (js "TEMPLATE.POT") example_world template_file).
  vm_compute. reflexivity.
Defined.

(** X14. The decoders of JSON, Android XML, YAML, Java properties and
    RESX read one text per entry: every unit of a file of these formats
    has the empty target. *)
Theorem monolingual_units_have_no_target {host : Platform}
  (content fileName : jsstring) (w : World) (file : TranslationFile)
  (t : FileType) :
  detectFileType fileName = Some (Own t) ->
  In t monolingual_formats ->
  fst (parseFile content fileName w) = Returns file ->
  Forall (fun u => unit_target u = []) (file_units file).
Proof.
  intros Hdetect Hin. unfold parseFile. rewrite Hdetect.
  assert (kept : kept_by_push fileName true
                   (Forall (fun u => unit_target u = []))).
  { apply Forall_kept. intros id key source target context notes line index H.
    cbn. apply H. reflexivity. }
  unfold monolingual_formats in Hin. cbn [In] in Hin.
  repeat (destruct Hin as [<-|Hin];
          [rewrite ?returns_run; cbn [fst]|]); [..|contradiction].
  - apply parseJSON_keeps; [exact kept | constructor].
  - apply parseXML_keeps; [exact kept | constructor].
  - intros [= <-]. apply parseYAML_keeps; [exact kept | constructor].
  - intros [= <-]. apply parseYAML_keeps; [exact kept | constructor].
  - intros [= <-]. apply parseProperties_keeps; [exact kept | constructor].
  - apply parseRESX_keeps; [exact kept | constructor].
Qed.

Lemma monolingual_units_have_no_target_witness :
  Forall (fun u => unit_target u = []) (file_units yml_file).
Proof.
  apply (monolingual_units_have_no_target (host := example_host [] [])
           yaml_text (js "labels.yml") example_world yml_file FT_yml).
  - reflexivity.
  - cbn. tauto.
  - vm_compute. reflexivity.
Defined.

Section Catalogue.

Context {host : Platform}.

Lemma truthy_nonempty (s : jsstring) : truthy s = true <-> s <> [].
Proof. destruct s; cbn; split; congruence. Qed.

Lemma saveUnit_msgid fileName st w :
  Forall has_msgid (po_units st) ->
  Forall has_msgid (po_units (fst (saveUnit fileName st w))).
Proof.
  intros Hd. unfold saveUnit. rewrite bind_run. cbn [ret fst po_units].
  destruct (truthy (currentMsgid st)) eqn:Hid; [|exact Hd].
  apply truthy_nonempty in Hid.
  apply push_unit_Forall; [exact Hd|]. intros id index. unfold has_msgid.
  cbn [unit_source unit_key unit_context]. split; [exact Hid|].
  destruct (truthy (currentContext st)) eqn:Hc.
  - right. exists (currentContext st).
    apply truthy_nonempty in Hc. auto.
  - left. auto.
Qed.

Lemma po_line_msgid fileName line st w :
  Forall has_msgid (po_units st) ->
  Forall has_msgid (po_units (fst (po_line fileName line st w))).
Proof.
  intros Hd. unfold po_line.
  repeat match goal with
         | |- context [if ?c then _ else _] => destruct c
         end;
    rewrite ?bind_run; cbn [ret fst po_units];
    try exact Hd; try (apply saveUnit_msgid; exact Hd).
Qed.

Lemma parsePO_msgid content fileName w :
  Forall has_msgid (file_units (fst (parsePO content fileName w))).
Proof.
  unfold parsePO. rewrite !bind_run. rewrite new_file_units.
  apply saveUnit_msgid.
  apply (for_of_invariant (fun st => Forall has_msgid (po_units st))).
  - intros line st w' Hd. apply po_line_msgid, Hd.
  - constructor.
Qed.

End Catalogue.

(** X15. The decoder of catalogues makes no unit of an entry whose
    [msgid] is empty, so the header entry is never a unit: every unit of
    a PO or POT file has a source that is not empty, and its key is that
    source, or the context, the code unit 4 and the source when the entry
    has a context. *)
Theorem catalogue_units_have_a_source {host : Platform}
  (content fileName : jsstring) (w : World) (file : TranslationFile)
  (t : FileType) :
  detectFileType fileName = Some (Own t) ->
  t = FT_po \/ t = FT_pot ->
  fst (parseFile content fileName w) = Returns file ->
  Forall has_msgid (file_units file).
Proof.
  intros Hdetect Ht. unfold parseFile. rewrite Hdetect.
  destruct Ht as [-> | ->]; rewrite returns_run; cbn [fst];
    intros [= <-]; apply parsePO_msgid.
Qed.

Lemma catalogue_units_have_a_source_witness :
  Forall has_msgid (file_units catalogue_file).
Proof.
  apply (catalogue_units_have_a_source (host := example_host [] [])
           po_text (js "messages.po") example_world catalogue_file FT_po).
  - reflexivity.
  - left. reflexivity.
  - vm_compute. reflexivity.
Defined.

Section UnitCounts.

Context {host : Platform}.

Local Open Scope nat_scope.

Lemma for_of_count {A St : Type} (f : St -> nat) (xs : list A)
  (body : A -> St -> M St) :
  (forall x s w, f (fst (body x s w)) <= S (f s)) ->
  forall s w, f (fst (for_of xs body s w)) <= f s + List.length xs.
Proof.
  intros Hbody. induction xs as [|x xs IH]; intros s w.
  - cbn. lia.
  - rewrite for_of_cons.
    specialize (IH (fst (body x s w)) (snd (body x s w))).
    specialize (Hbody x s w). cbn [List.length]. lia.
Qed.

Lemma for_index_count {A St : Type} (f : St -> nat) (xs : list A)
  (body : nat -> A -> St -> M St) :
  (forall i x s w, f (fst (body i x s w)) <= S (f s)) ->
  forall i s w, f (fst (for_index i xs body s w)) <= f s + List.length xs.
Proof.
  intros Hbody. induction xs as [|x xs IH]; intros i s w.
  - cbn. lia.
  - rewrite for_index_cons.
    specialize (IH (S i) (fst (body i x s w)) (snd (body i x s w))).
    specialize (Hbody i x s w). cbn [List.length]. lia.
Qed.

Lemma parseStrings_count content fileName w :
  List.length (file_units (fst (parseStrings content fileName w)))
  <= List.length (split_on 10 content).
Proof.
  unfold parseStrings. rewrite !bind_run. rewrite new_file_units.
  cbv zeta. eapply Nat.le_trans.
  - apply (for_of_count (@List.length TranslationUnit)).
    intros line units w'.
    destruct (exec re_strings_line (trim line));
      [rewrite push_unit_length|]; cbn [ret fst]; lia.
  - cbn [List.length Nat.add]. apply Nat.le_refl.
Qed.

Lemma parseYAML_count content fileName w :
  List.length (file_units (fst (parseYAML content fileName w)))
  <= List.length (split_on 10 content).
Proof.
  unfold parseYAML. rewrite !bind_run. rewrite new_file_units.
  cbv zeta. eapply Nat.le_trans.
  - apply (for_index_count
             (fun st : list jsstring * list TranslationUnit =>
                List.length (snd st))).
    intros i line [keyStack units] w'. cbn [snd].
    destruct (parseYamlLine line) as [parsed|]; [|cbn [ret fst snd]; lia].
    destruct (truthy (yaml_value parsed)); [|cbn [ret fst snd]; lia].
    rewrite bind_run. cbn [ret fst snd]. rewrite push_unit_length. lia.
  - cbn [List.length Nat.add snd]. apply Nat.le_refl.
Qed.

Lemma parseProperties_count content fileName w :
  List.length (file_units (fst (parseProperties content fileName w)))
  <= List.length (split_on 10 content).
Proof.
  unfold parseProperties. rewrite !bind_run. rewrite new_file_units.
  cbv zeta. eapply Nat.le_trans.
  - apply (for_index_count (@List.length TranslationUnit)).
    intros i line units w'.
    destruct (_ || _); [cbn [ret fst]; lia|].
    destruct (0 <? _)%Z; [rewrite push_unit_length|]; cbn [ret fst]; lia.
  - cbn [List.length Nat.add]. apply Nat.le_refl.
Qed.

Lemma parseCSV_count content fileName delimiter w :
  List.length (file_units (fst (parseCSV content fileName delimiter w)))
  <= List.length (split_on 10 content).
Proof.
  unfold parseCSV. cbv zeta. rewrite !bind_run. rewrite new_file_units.
  eapply Nat.le_trans.
  - apply (for_index_count (@List.length TranslationUnit)).
    intros i line units w'.
    destruct (negb _); [cbn [ret fst]; lia|].
    destruct (2 <=? _); [rewrite push_unit_length|]; cbn [ret fst]; lia.
  - rewrite length_skipn. cbn [List.length]. lia.
Qed.

End UnitCounts.

(** X16. The decoders of iOS strings, YAML, Java properties, CSV and TSV
    make at most one unit of a line: a file of these formats has no more
    units than its text has lines. *)
Theorem one_unit_per_line_at_most {host : Platform}
  (content fileName : jsstring) (w : World) (file : TranslationFile)
  (t : FileType) :
  detectFileType fileName = Some (Own t) ->
  In t one_per_line_formats ->
  fst (parseFile content fileName w) = Returns file ->
  (List.length (file_units file) <= List.length (split_on 10 content))%nat.
Proof.
  intros Hdetect Hin. unfold parseFile. rewrite Hdetect.
  unfold one_per_line_formats in Hin. cbn [In] in Hin.
  repeat (destruct Hin as [<-|Hin];
          [rewrite returns_run; cbn [fst]; intros [= <-]|]);
    [..|contradiction].
  - apply parseStrings_count.
  - apply parseYAML_count.
  - apply parseYAML_count.
  - apply parseProperties_count.
  - apply parseCSV_count.
  - apply parseCSV_count.
Qed.

Lemma one_unit_per_line_at_most_witness :
  (List.length (file_units yml_file)
   <= List.length (split_on 10 yaml_text))%nat.
Proof.
  apply (one_unit_per_line_at_most (host := example_host [] [])
           yaml_text (js "labels.yml") example_world yml_file FT_yml).
  - reflexivity.
  - cbn. tauto.
  - vm_compute. reflexivity.
Defined.

(** ** The detector and letter case *)

Lemma lower_ascii_dot (c : N) : (46 =? lower_ascii c)%N = (46 =? c)%N.
Proof.
  unfold lower_ascii, is_upper.
  destruct (65 <=? c)%N eqn:E1; [|reflexivity].
  destruct (c <=? 90)%N eqn:E2; [|reflexivity]. cbn [andb].
  apply N.leb_le in E1.
  transitivity false; [|symmetry]; apply N.eqb_neq; lia.
Qed.

Lemma upper_ascii_dot (c : N) : (46 =? upper_ascii c)%N = (46 =? c)%N.
Proof.
  unfold upper_ascii, is_lower.
  destruct (97 <=? c)%N eqn:E1; [|reflexivity].
  destruct (c <=? 122)%N eqn:E2; [|reflexivity]. cbn [andb].
  apply N.leb_le in E1.
  transitivity false; [|symmetry]; apply N.eqb_neq; lia.
Qed.

Lemma lastIndexOf_dot_map (g : N -> N) (s : jsstring) :
  (forall c, (46 =? g c)%N = (46 =? c)%N) ->
  lastIndexOf (js ".") (map g s) = lastIndexOf (js ".") s.
Proof.
  intros Hg. unfold lastIndexOf. generalize 0%Z (-1)%Z.
  induction s as [|c s IH]; intros i found; [reflexivity|].
  cbn [map lastIndexOf_from]. rewrite IH. cbn [js startsWith N_of_ascii].
  change (N_of_ascii ".") with 46%N. rewrite Hg. reflexivity.
Qed.

Lemma lower_upper_ascii (c : N) :
  is_ascii c = true -> lower_ascii (upper_ascii c) = lower_ascii c.
Proof.
  unfold is_ascii, lower_ascii, upper_ascii, is_upper, is_lower.
  intros Hc. apply N.ltb_lt in Hc.
  destruct (97 <=? c)%N eqn:E1, (c <=? 122)%N eqn:E2; cbn [andb];
    try reflexivity.
  apply N.leb_le in E1. apply N.leb_le in E2.
  replace (65 <=? c - 32)%N with true by (symmetry; apply N.leb_le; lia).
  replace (c - 32 <=? 90)%N with true by (symmetry; apply N.leb_le; lia).
  replace (65 <=? c)%N with true by (symmetry; apply N.leb_le; lia).
  replace (c <=? 90)%N with false by (symmetry; apply N.leb_gt; lia).
  cbn [andb]. lia.
Qed.

Lemma lower_lower_ascii (c : N) :
  lower_ascii (lower_ascii c) = lower_ascii c.
Proof.
  unfold lower_ascii, is_upper.
  destruct (65 <=? c)%N eqn:E1, (c <=? 90)%N eqn:E2; cbn [andb];
    rewrite ?E1, ?E2; cbn [andb]; try reflexivity.
  apply N.leb_le in E1. apply N.leb_le in E2.
  replace (c + 32 <=? 90)%N with false by (symmetry; apply N.leb_gt; lia).
  rewrite andb_false_r. reflexivity.
Qed.

Lemma upper_ascii_is_ascii (s : jsstring) :
  forallb is_ascii s = true -> forallb is_ascii (map upper_ascii s) = true.
Proof.
  induction s as [|c s IH]; [reflexivity|]. cbn [forallb map].
  rewrite !andb_true_iff. intros [Hc Hs]. split; [|apply IH, Hs].
  unfold is_ascii, upper_ascii in *. apply N.ltb_lt in Hc. apply N.ltb_lt.
  destruct (is_lower c); lia.
Qed.

Lemma lower_ascii_is_ascii (s : jsstring) :
  forallb is_ascii s = true -> forallb is_ascii (map lower_ascii s) = true.
Proof.
  induction s as [|c s IH]; [reflexivity|]. cbn [forallb map].
  rewrite !andb_true_iff. intros [Hc Hs]. split; [|apply IH, Hs].
  unfold is_ascii, lower_ascii, is_upper in *.
  apply N.ltb_lt in Hc. apply N.ltb_lt.
  destruct (65 <=? c)%N eqn:E1, (c <=? 90)%N eqn:E2; cbn [andb]; try lia.
  apply N.leb_le in E2. lia.
Qed.

(** X17. On a file name of ASCII characters the detector does not read
    the case of the letters: the name in upper case and the name in lower
    case get the tag of the name itself. *)
Theorem detectFileType_ignores_ascii_case {host : Platform}
  (fileName : jsstring) :
  forallb is_ascii fileName = true ->
  detectFileType (toUpperCase fileName) = detectFileType fileName
  /\ detectFileType (toLowerCase fileName) = detectFileType fileName.
Proof.
  intros Hascii. unfold detectFileType, extension_of.
  rewrite (toUpperCase_ascii fileName Hascii).
  rewrite !(toLowerCase_ascii fileName Hascii).
  rewrite (toLowerCase_ascii _ (upper_ascii_is_ascii _ Hascii)).
  rewrite (toLowerCase_ascii _ (lower_ascii_is_ascii _ Hascii)).
  rewrite !lastIndexOf_dot_map by (apply upper_ascii_dot || apply lower_ascii_dot).
  rewrite !map_map.
  split; do 2 f_equal.
  - clear - Hascii. induction fileName as [|c s IH]; [reflexivity|].
    cbn [forallb map] in *. apply andb_true_iff in Hascii.
    destruct Hascii as [Hc Hs]. rewrite lower_upper_ascii by exact Hc.
    rewrite IH by exact Hs. reflexivity.
  - apply map_ext. intros c. apply lower_lower_ascii.
Qed.

Lemma detectFileType_ignores_ascii_case_witness :
  detectFileType (host := example_host [] []) (js "REPORT.Tmx")
  = Some (Own FT_tmx).
Proof.
  rewrite <- (proj2 (detectFileType_ignores_ascii_case
                       (host := example_host [] []) (js "REPORT.Tmx")
                       eq_refl)).
  reflexivity.
Defined.

(** ** Lines of a table *)

Lemma parseCSVLine_fold (delimiter : N) (after : option N) (line : jsstring) :
  forallb (fun c => negb (c =? 34)%N) line = true ->
  forall result current,
    let final :=
      fold_left
        (fun st char =>
           if (char =? 34)%N then
             if csv_inQuotes st
                && match after with
                   | Some c => (c =? 34)%N
                   | None => false
                   end
             then {| csv_result := csv_result st;
                     csv_current := csv_current st ++ [34%N];
                     csv_inQuotes := csv_inQuotes st |}
             else {| csv_result := csv_result st;
                     csv_current := csv_current st;
                     csv_inQuotes := negb (csv_inQuotes st) |}
           else if (char =? delimiter)%N && negb (csv_inQuotes st) then
             {| csv_result := csv_result st ++ [trim (csv_current st)];
                csv_current := [];
                csv_inQuotes := csv_inQuotes st |}
           else
             {| csv_result := csv_result st;
                csv_current := csv_current st ++ [char];
                csv_inQuotes := csv_inQuotes st |})
        line
        {| csv_result := result; csv_current := current;
           csv_inQuotes := false |} in
    csv_result final ++ [trim (csv_current final)]
    = result ++ map trim (join_first current (split_on delimiter line)).
Proof.
  induction line as [|x t IH]; intros Hq result current; cbv zeta.
  - cbn. rewrite app_nil_r. reflexivity.
  - cbn [forallb] in Hq. apply andb_true_iff in Hq. destruct Hq as [Hx Ht].
    apply negb_true_iff in Hx. cbn [fold_left]. rewrite Hx.
    cbn [csv_inQuotes csv_result csv_current negb]. cbn [split_on].
    destruct (x =? delimiter)%N eqn:Ed; cbn [andb].
    + specialize (IH Ht (result ++ [trim current]) []). cbv zeta in IH.
      rewrite IH. cbn [join_first map]. rewrite app_nil_r, <- app_assoc.
      cbn [app]. do 2 f_equal.
      destruct (split_on delimiter t) as [|h r] eqn:E; [|reflexivity].
      exfalso. exact (split_on_nonempty delimiter t E).
    + specialize (IH Ht result (current ++ [x])). cbv zeta in IH.
      rewrite IH. f_equal.
      destruct (split_on delimiter t) as [|h r] eqn:E.
      * exfalso. exact (split_on_nonempty delimiter t E).
      * cbn [join_first]. rewrite <- app_assoc. reflexivity.
Qed.

(** X18. On a line without double quote, [parseCSVLine] gives the
    pieces of the line between the delimiters, each trimmed: what
    [line.split(delimiter)] gives, trimmed. *)
Theorem parseCSVLine_without_quotes (line : jsstring) (delimiter : N) :
  forallb (fun c => negb (c =? 34)%N) line = true ->
  parseCSVLine line delimiter = map trim (split_on delimiter line).
Proof.
  intros Hq. unfold parseCSVLine. cbv zeta.
  rewrite (parseCSVLine_fold delimiter _ line Hq [] []).
  cbn [app]. f_equal.
  destruct (split_on delimiter line) as [|h r] eqn:E; [|reflexivity].
  exfalso. exact (split_on_nonempty delimiter line E).
Qed.

Lemma parseCSVLine_without_quotes_witness :
  parseCSVLine (js "k1 , Hello,,Bonjour ") 44
  = [js "k1"; js "Hello"; []; js "Bonjour"].
Proof.
  rewrite (parseCSVLine_without_quotes (js "k1 , Hello,,Bonjour ") 44 eq_refl).
  reflexivity.
Defined.

(** ** Texts without tags *)

Lemma search_from_absent (p : N -> bool) (r : regex) (fuel : nat) :
  forall st,
    forallb (fun c => negb (p c)) (rest st) = true ->
    search_from (Seq (Chr p) r) fuel st = None.
Proof.
  induction fuel as [|fuel IH]; intros [pv rs ps cs] Hst;
    cbn [search_from]; unfold match_here, advance; cbn [rmatch rest] in *;
    destruct rs as [|c t]; try reflexivity;
    cbn [forallb] in Hst; apply andb_true_iff in Hst;
    destruct Hst as [Hc Ht]; apply negb_true_iff in Hc; rewrite Hc;
    [reflexivity|].
  apply IH. exact Ht.
Qed.

Lemma exec_all_absent (p : N -> bool) (r : regex) (s : jsstring) :
  forallb (fun c => negb (p c)) s = true ->
  exec_all (Seq (Chr p) r) s = [].
Proof.
  intros Hs. unfold exec_all. cbn [exec_all_from].
  rewrite search_from_absent by exact Hs. reflexivity.
Qed.

Lemma absent_forallb (x : N) (s : jsstring) :
  ~ In x s -> forallb (fun c => negb (x =? c)%N) s = true.
Proof.
  intros H. apply forallb_forall. intros c Hc. apply negb_true_iff.
  apply N.eqb_neq. intros ->. exact (H Hc).
Qed.

(** X19. A target that holds no opening angle bracket is never reported
    for its HTML tags nor for its XML tags. *)
Theorem no_bracket_no_tag_issue {host : Platform} (unit : TranslationUnit) :
  ~ In 60%N (unit_target unit) ->
  silent (checkInvalidHtmlTags unit) /\ silent (checkInvalidXmlTags unit).
Proof.
  intros H. apply absent_forallb in H. split; intros w.
  - unfold checkInvalidHtmlTags, match_all. cbv zeta.
    unfold re_html_tag. cbn [seqs]. unfold ch at 1.
    rewrite exec_all_absent by exact H. reflexivity.
  - unfold checkInvalidXmlTags, xml_tag_names. cbv zeta.
    unfold re_xml_tag. cbn [seqs]. unfold ch at 3.
    rewrite (exec_all_absent _ _ (unit_target unit)) by exact H.
    reflexivity.
Qed.

Lemma no_bracket_no_tag_issue_witness :
  silent (checkInvalidHtmlTags (host := example_host [] [])
            (example_unit 1 (js "<b>Save</b>") (js "Enregistrer")))
  /\ silent (checkInvalidXmlTags
               (example_unit 1 (js "<b>Save</b>") (js "Enregistrer"))).
Proof.
  apply (no_bracket_no_tag_issue (host := example_host [] [])
           (example_unit 1 (js "<b>Save</b>") (js "Enregistrer"))).
  cbn. intros H.
  repeat (destruct H as [H|H]; [discriminate H|]). exact H.
Defined.

(** ** Counting the missing translations *)

Section MissingCount.

Context {host : Platform}.

Local Open Scope nat_scope.

Lemma byType_count_runQA file config w t :
  byType_count (result_stats (fst (runQA file config w))) t
  = count_type t (result_issues (fst (runQA file config w))).
Proof.
  rewrite runQA_stats. cbv zeta. unfold byType_count. cbn [stats_byType].
  rewrite count_by_type_lookup. unfold tally_of.
  destruct (count_type t _ =? 0) eqn:E; cbn; [|reflexivity].
  apply Nat.eqb_eq in E. congruence.
Qed.

Lemma count_type_erased t issues :
  count_type t (map erase_id issues) = count_type t issues.
Proof.
  unfold count_type. induction issues as [|i issues IH]; [reflexivity|].
  cbn [map List.filter erase_id issue_type].
  destruct (bool_decide (issue_type i = t)); cbn [List.length];
    rewrite IH; reflexivity.
Qed.

Lemma count_type_app t a b :
  count_type t (a ++ b) = count_type t a + count_type t b.
Proof. unfold count_type. rewrite List.filter_app, length_app. reflexivity. Qed.

Lemma count_type_other t rules index cs :
  Forall (fun c : M (option QAIssue) * IssueType => rule_shape (snd c) (fst c))
    cs ->
  ~ In t (map snd cs) ->
  count_type t (unit_findings rules index cs) = 0.
Proof.
  induction 1 as [|[m t'] cs Hc Hcs IH]; intros Hn; [reflexivity|].
  rewrite unit_findings_cons, count_type_app, IH
    by (intros H; apply Hn; right; exact H).
  rewrite Nat.add_0_r. unfold unit_findings. cbn [omap list_omap fst snd].
  destruct (rule_enabled rules t'); [|reflexivity].
  destruct (finding m) as [i|] eqn:E; [|reflexivity].
  cbn [option_map]. unfold count_type. cbn [List.filter set_index issue_type].
  rewrite (shape_finding_type t' m Hc i E).
  rewrite bool_decide_eq_false_2; [reflexivity|].
  intros ->. apply Hn. left. reflexivity.
Qed.

Lemma missing_condition_bool (target : jsstring) :
  negb (truthy target) || str_eqb (trim target) []
  = str_eqb (trim target) [].
Proof.
  destruct target as [|c t]; [reflexivity|]. reflexivity.
Qed.

Lemma missing_findings unit allUnits config :
  rule_enabled (merged_rules config) missing_translation = true ->
  count_type missing_translation
    (unit_findings (merged_rules config) (unit_index unit)
       (checks unit allUnits config))
  = if blank_target unit then 1 else 0.
Proof.
  intros He.
  assert (Hs := checks_shape unit allUnits config).
  unfold checks in *. rewrite unit_findings_cons, count_type_app.
  inversion Hs as [|c cs Hc Hcs]; subst.
  rewrite (count_type_other _ _ _ _ Hcs)
    by (cbn; intuition discriminate).
  rewrite Nat.add_0_r. unfold unit_findings. cbn [omap list_omap fst snd].
  rewrite He. unfold finding, checkMissingTranslation, blank_target.
  rewrite missing_condition_bool.
  destruct (str_eqb (trim (unit_target unit)) []); reflexivity.
Qed.

Lemma monolingual_blank content fileName w file t :
  detectFileType fileName = Some (Own t) ->
  In t monolingual_formats ->
  fst (parseFile content fileName w) = Returns file ->
  List.filter blank_target (file_units file) = file_units file.
Proof.
  intros Hdetect Hin. unfold parseFile. rewrite Hdetect.
  set (I := fun units : list TranslationUnit =>
              List.filter blank_target units = units).
  assert (kept : kept_by_push fileName true I).
  { intros units key source target context notes line w' Ht H.
    unfold I in *. rewrite push_unit_units, List.filter_app, H.
    cbn [List.filter]. unfold blank_target at 1. cbn [unit_target].
    rewrite (Ht eq_refl). reflexivity. }
  assert (H0 : I []) by reflexivity.
  unfold monolingual_formats in Hin. cbn [In] in Hin.
  repeat (destruct Hin as [<-|Hin];
          [rewrite ?returns_run; cbn [fst]|]); [..|contradiction].
  - apply (parseJSON_keeps fileName I kept content w file H0).
  - apply (parseXML_keeps fileName I kept content w file H0).
  - intros [= <-]. apply (parseYAML_keeps fileName I kept content w H0).
  - intros [= <-]. apply (parseYAML_keeps fileName I kept content w H0).
  - intros [= <-]. apply (parseProperties_keeps fileName I kept content w H0).
  - apply (parseRESX_keeps fileName I kept content w file H0).
Qed.

End MissingCount.

(** X20. With the rule [missing_translation] switched on, the entry of
    that type in the statistics of a run is the number of units of the
    file whose target is empty or white space only. *)
Theorem missing_translation_count {host : Platform} (file : TranslationFile)
  (config : QAConfig) (w : World) :
  rule_enabled (merged_rules config) missing_translation = true ->
  byType_count (result_stats (fst (runQA file config w))) missing_translation
  = List.length (List.filter blank_target (file_units file)).
Proof.
  intros He. rewrite byType_count_runQA, <- count_type_erased, runQA_erased.
  unfold file_findings. generalize (file_units file) at 2 3.
  intros units. induction units as [|u units IH]; [reflexivity|].
  cbn [flat_map List.filter]. rewrite count_type_app, IH.
  rewrite missing_findings by exact He.
  destruct (blank_target u); reflexivity.
Qed.

Lemma missing_translation_count_witness :
  byType_count
    (result_stats
       (fst (runQA (host := example_host [] [])
               (example_file [example_unit 1 (js "Save") (js " ");
                              example_unit 2 (js "Open") (js "Ouvrir");
                              example_unit 3 (js "Close") []])
               DEFAULT_CONFIG example_world)))
    missing_translation
  = 2%nat.
Proof.
  rewrite (missing_translation_count (host := example_host [] [])
             (example_file [example_unit 1 (js "Save") (js " ");
                            example_unit 2 (js "Open") (js "Ouvrir");
                            example_unit 3 (js "Close") []])
             DEFAULT_CONFIG example_world eq_refl).
  reflexivity.
Defined.

(** X21. A file of one of the formats that carry one text per entry
    (JSON, Android XML, YAML, Java properties, RESX), run with the rule
    [missing_translation] switched on, gets one issue of that type for
    every unit. *)
Theorem monolingual_file_all_missing {host : Platform}
  (content fileName : jsstring) (w w' : World) (file : TranslationFile)
  (t : FileType) (config : QAConfig) :
  detectFileType fileName = Some (Own t) ->
  In t monolingual_formats ->
  fst (parseFile content fileName w) = Returns file ->
  rule_enabled (merged_rules config) missing_translation = true ->
  byType_count (result_stats (fst (runQA file config w'))) missing_translation
  = List.length (file_units file).
Proof.
  intros Hdetect Hin Hfile He.
  rewrite byType_count_runQA, <- count_type_erased, runQA_erased.
  transitivity (List.length (List.filter blank_target (file_units file)));
    [|rewrite (monolingual_blank _ _ _ _ _ Hdetect Hin Hfile); reflexivity].
  unfold file_findings. generalize (file_units file) at 2 3.
  intros units. induction units as [|u units IH]; [reflexivity|].
  cbn [flat_map List.filter]. rewrite count_type_app, IH.
  rewrite missing_findings by exact He.
  destruct (blank_target u); reflexivity.
Qed.

Lemma monolingual_file_all_missing_witness :
  byType_count
    (result_stats
       (fst (runQA (host := example_host [] []) yml_file DEFAULT_CONFIG
               example_world)))
    missing_translation
  = List.length (file_units yml_file).
Proof.
  apply (monolingual_file_all_missing (host := example_host [] [])
           yaml_text (js "labels.yml") example_world example_world yml_file
           FT_yml DEFAULT_CONFIG).
  - reflexivity.
  - cbn. tauto.
  - vm_compute. reflexivity.
  - reflexivity.
Defined.

(** ** The glossary loaders *)

Lemma split_on_line (c : N) (h t : jsstring) :
  ~ In c h -> split_on c (h ++ [c] ++ t) = h :: split_on c t.
Proof.
  induction h as [|x h IH]; intros Hh.
  - cbn [app split_on]. rewrite N.eqb_refl. reflexivity.
  - cbn [app split_on].
    replace (x =? c)%N with false
      by (symmetry; apply N.eqb_neq; intros ->; apply Hh; left; reflexivity).
    cbn [app] in IH. rewrite IH by (intros H; apply Hh; right; exact H).
    reflexivity.
Qed.

(** X22. Every term [parseTMXGlossary] loads has a source and a target
    that are not empty, and there are no more terms than the document
    has [tu] elements. *)
Theorem parseTMXGlossary_terms_complete {host : Platform}
  (content : jsstring) :
  Forall complete_term (parseTMXGlossary content)
  /\ (List.length (parseTMXGlossary content)
      <= List.length
           (doc_getElementsByTagName (DOMParser_parseFromString content)
              (js "tu")))%nat.
Proof.
  unfold parseTMXGlossary. cbv zeta.
  generalize (doc_getElementsByTagName (DOMParser_parseFromString content)
                (js "tu")).
  intros tus.
  match goal with
  | |- context [fold_left ?f tus []] => set (step := f)
  end.
  assert (H : forall terms : list GlossaryTerm,
             Forall complete_term terms ->
             Forall complete_term (fold_left step tus terms)
             /\ (List.length (fold_left step tus terms)
                 <= List.length terms + List.length tus)%nat).
  { induction tus as [|tu tus IH]; intros terms Ht.
    - cbn [fold_left List.length]. split; [exact Ht | lia].
    - cbn [fold_left List.length].
      assert (Hstep : Forall complete_term (step terms tu)
                      /\ (List.length (step terms tu)
                          <= S (List.length terms))%nat).
      { unfold step.
        destruct (glossary_sides (getElementsByTagName tu (js "tuv")))
          as [source target].
        destruct (truthy source) eqn:Hs; cbn [andb];
          [destruct (truthy target) eqn:Hg|]; try (split; [exact Ht | lia]).
        split.
        - apply Forall_app. split; [exact Ht|].
          constructor; [|constructor]. split; cbn.
          + apply truthy_nonempty, Hs.
          + apply truthy_nonempty, Hg.
        - rewrite length_app. cbn [List.length]. lia. }
      destruct Hstep as [S1 S2]. destruct (IH (step terms tu) S1) as [I1 I2].
      split; [exact I1 | lia]. }
  destruct (H [] (List.Forall_nil _)) as [H1 H2]. split; [exact H1 | exact H2].
Qed.

(** X23. [parseCSVGlossary] skips a first line that mentions "source" or
    "term" in any letter case: a text whose first line mentions neither
    gives the same terms with such a header line before it. *)
Theorem parseCSVGlossary_skips_header {host : Platform}
  (header content fileName : jsstring) :
  ~ In 10%N header ->
  includes (js "source") (toLowerCase header)
  || includes (js "term") (toLowerCase header) = true ->
  includes (js "source") (toLowerCase (List.hd [] (split_on 10 content)))
  || includes (js "term") (toLowerCase (List.hd [] (split_on 10 content)))
  = false ->
  parseCSVGlossary (header ++ [10%N] ++ content) fileName
  = parseCSVGlossary content fileName.
Proof.
  intros Hline Hheader Hfirst. unfold parseCSVGlossary. cbv zeta.
  rewrite split_on_line by exact Hline.
  cbn [List.length List.hd]. rewrite Hheader, Hfirst.
  destruct (split_on 10 content) as [|l ls] eqn:E.
  - exfalso. exact (split_on_nonempty 10 content E).
  - reflexivity.
Qed.

Lemma parseCSVGlossary_skips_header_witness :
  parseCSVGlossary (host := example_host [] [])
    (js "Source,Target" ++ [10%N] ++ js "file,fichier") (js "terms.csv")
  = parseCSVGlossary (host := example_host [] [])
      (js "file,fichier") (js "terms.csv").
Proof.
  apply (parseCSVGlossary_skips_header (host := example_host [] [])
           (js "Source,Target") (js "file,fichier") (js "terms.csv")).
  - cbn. intros H.
    repeat (destruct H as [H|H]; [discriminate H|]). exact H.
  - reflexivity.
  - reflexivity.
Defined.

(** ** The views of the application *)

Section Views.

Context {host : Platform}.

Local Open Scope nat_scope.

Lemma includes_severity_In (x : Severity) (l : list Severity) :
  includes_severity x l = true <-> In x l.
Proof.
  unfold includes_severity. rewrite existsb_exists. split.
  - intros (y & Hy & E). apply bool_decide_eq_true in E. subst y. exact Hy.
  - intros H. exists x. split; [exact H|].
    apply bool_decide_eq_true_2. reflexivity.
Qed.

Lemma toggle_severity_In (x sev : Severity) (l : list Severity) :
  In x (toggle_severity sev l)
  <-> (In sev l /\ In x l /\ x <> sev) \/ (~ In sev l /\ (In x l \/ x = sev)).
Proof.
  unfold toggle_severity. destruct (includes_severity sev l) eqn:E.
  - apply includes_severity_In in E. rewrite filter_In, negb_true_iff.
    rewrite bool_decide_eq_false. tauto.
  - assert (N : ~ In sev l).
    { intros H. apply includes_severity_In in H. congruence. }
    rewrite in_app_iff. cbn [In]. intuition congruence.
Qed.

Lemma includes_severity_toggle_twice x sev f :
  includes_severity x (toggle_severity sev (toggle_severity sev f))
  = includes_severity x f.
Proof.
  apply eq_true_iff_eq. rewrite !includes_severity_In.
  rewrite toggle_severity_In.
  rewrite (toggle_severity_In x sev f), (toggle_severity_In sev sev f).
  destruct (decide (x = sev)) as [->|N];
    destruct (includes_severity sev f) eqn:E.
  - apply includes_severity_In in E. tauto.
  - assert (~ In sev f)
      by (intros H; apply includes_severity_In in H; congruence).
    tauto.
  - apply includes_severity_In in E. tauto.
  - assert (~ In sev f)
      by (intros H; apply includes_severity_In in H; congruence).
    tauto.
Qed.

Lemma filter_all {A : Type} (p : A -> bool) (l : list A) :
  (forall x, p x = true) -> List.filter p l = l.
Proof.
  intros H. induction l as [|x l IH]; [reflexivity|].
  cbn [List.filter]. rewrite H, IH. reflexivity.
Qed.

Lemma sum_of_from {A : Type} (f : A -> nat) (xs : list A) (n : nat) :
  fold_left (fun sum x => sum + f x) xs n = n + sum_of f xs.
Proof.
  unfold sum_of. revert n. induction xs as [|x xs IH]; intros n.
  - cbn. lia.
  - cbn [fold_left]. rewrite IH, (IH (0 + f x)). lia.
Qed.

Lemma sum_of_cons {A : Type} (f : A -> nat) (x : A) (xs : list A) :
  sum_of f (x :: xs) = f x + sum_of f xs.
Proof. unfold sum_of at 1. cbn [fold_left]. apply sum_of_from. Qed.

Lemma runQA_severity_counts file config w :
  List.length (result_issues (fst (runQA file config w)))
  = stats_errors (result_stats (fst (runQA file config w)))
    + stats_warnings (result_stats (fst (runQA file config w)))
    + stats_info (result_stats (fst (runQA file config w))).
Proof.
  rewrite runQA_stats. cbv zeta.
  cbn [stats_errors stats_warnings stats_info].
  symmetry. apply severity_partition.
Qed.

End Views.

(** X24. With no text in the search box, the list of issues the
    application shows for a run under one severity has as many entries
    as the statistics of the run count for that severity; under the
    three severities, the state the application starts in, it is the
    list of all the issues of the run. *)
Theorem filtered_issues_match_statistics {host : Platform}
  (file : TranslationFile) (config : QAConfig) (w : World) (s : Severity) :
  List.length (getFilteredIssues [] [s] (fst (runQA file config w)))
  = severity_count (result_stats (fst (runQA file config w))) s
  /\ getFilteredIssues [] [error; warning; info] (fst (runQA file config w))
     = result_issues (fst (runQA file config w)).
Proof.
  unfold getFilteredIssues. cbv zeta. cbn [truthy negb orb andb]. split.
  - rewrite runQA_stats. cbv zeta.
    rewrite (filter_ext _ (has_severity s)).
    + destruct s; reflexivity.
    + intros i. unfold includes_severity, has_severity. cbn [existsb].
      rewrite orb_false_r. apply bool_decide_ext. split; congruence.
  - apply filter_all. intros i. unfold includes_severity. cbn [existsb].
    destruct (issue_severity i); reflexivity.
Qed.

(** X25. Two clicks on the button of a severity leave the list of shown
    issues as it was, whatever the search text and the severities chosen
    before. *)
Theorem toggle_severity_twice {host : Platform} (searchQuery : jsstring)
  (sev : Severity) (severityFilter : list Severity) (result : QAResult) :
  getFilteredIssues searchQuery
    (toggle_severity sev (toggle_severity sev severityFilter)) result
  = getFilteredIssues searchQuery severityFilter result.
Proof.
  unfold getFilteredIssues. apply filter_ext. intros i. cbv zeta.
  rewrite includes_severity_toggle_twice. reflexivity.
Qed.

(** X26. Over results that come from [runQA], the totals of the
    application add up: the number of issues is the sum of the errors,
    the warnings and the infos. *)
Theorem overallStats_add_up {host : Platform}
  (files : list TranslationFile)
  (runs : list (TranslationFile * QAConfig * World)) :
  overall_totalIssues (overallStats files (results_of runs))
  = (overall_errors (overallStats files (results_of runs))
     + overall_warnings (overallStats files (results_of runs))
     + overall_info (overallStats files (results_of runs)))%nat.
Proof.
  unfold overallStats.
  cbn [overall_totalIssues overall_errors overall_warnings overall_info].
  induction runs as [|[[file config] w] runs IH]; [reflexivity|].
  unfold results_of in *. cbn [map fst snd]. rewrite !sum_of_cons, IH.
  rewrite runQA_severity_counts. lia.
Qed.

Section BilingualView.

Context {host : Platform}.

Lemma Set_add_In (x y : jsstring) (l : list jsstring) :
  In y (Set_add x l) <-> In y l \/ y = x.
Proof.
  unfold Set_add. destruct (mem x l) eqn:E.
  - apply mem_In in E. split; [tauto|]. intros [H| ->]; assumption.
  - rewrite in_app_iff. cbn [In]. intuition congruence.
Qed.

Lemma unitsWithIssues_from (issues : list QAIssue) :
  forall acc x,
    In x (fold_left (fun acc i => Set_add (issue_unitId i) acc) issues acc)
    <-> In x acc \/ In x (map issue_unitId issues).
Proof.
  induction issues as [|i issues IH]; intros acc x; cbn [fold_left map In].
  - tauto.
  - rewrite IH, Set_add_In. intuition congruence.
Qed.

Lemma unitsWithIssues_In (issues : list QAIssue) (x : jsstring) :
  In x (unitsWithIssues issues) <-> In x (map issue_unitId issues).
Proof.
  unfold unitsWithIssues. rewrite unitsWithIssues_from. cbn [In]. tauto.
Qed.

Lemma unitIssues_app u a b :
  unitIssues u (a ++ b) = unitIssues u a ++ unitIssues u b.
Proof. apply List.filter_app. Qed.

Lemma unitIssues_own u run :
  Forall (about u) run -> unitIssues u run = run.
Proof.
  intros H. unfold unitIssues. induction H as [|i run Hi _ IH]; [reflexivity|].
  cbn [List.filter]. destruct Hi as [Hi _]. rewrite Hi, str_eqb_refl, IH.
  reflexivity.
Qed.

Lemma unitIssues_other u u' run :
  Forall (about u') run -> unit_id u' <> unit_id u -> unitIssues u run = [].
Proof.
  intros H N. unfold unitIssues. apply filter_none. intros i Hi.
  rewrite List.Forall_forall in H. destruct (H i Hi) as [E _].
  apply str_eqb_neq. congruence.
Qed.

Lemma unitIssues_others u units runs :
  Forall2 (fun unit run => Forall (about unit) run) units runs ->
  ~ In (unit_id u) (map unit_id units) ->
  unitIssues u (concat runs) = [].
Proof.
  induction 1 as [|u' run units runs Hr _ IH]; intros N; [reflexivity|].
  cbn [concat]. rewrite unitIssues_app, IH
    by (intros H; apply N; right; exact H).
  rewrite (unitIssues_other u u' run Hr)
    by (intros E; apply N; left; exact E).
  reflexivity.
Qed.

Lemma unitIssues_runs units runs :
  Forall2 (fun unit run => Forall (about unit) run) units runs ->
  List.NoDup (map unit_id units) ->
  forall pre,
    (forall u, In u units -> unitIssues u pre = []) ->
    map (fun u => unitIssues u (pre ++ concat runs)) units = runs.
Proof.
  induction 1 as [|u run units runs Hr Hrs IH]; intros Hnd pre Hpre;
    [reflexivity|].
  cbn [map concat] in *. inversion Hnd as [|x l Hx Hl]; subst.
  f_equal.
  - rewrite !unitIssues_app, (Hpre u) by (left; reflexivity).
    rewrite (unitIssues_own u run Hr).
    rewrite (unitIssues_others u units runs Hrs Hx).
    cbn [app]. apply app_nil_r.
  - rewrite app_assoc. apply IH; [exact Hl|].
    intros u' Hu'. rewrite unitIssues_app, (Hpre u') by (right; exact Hu').
    cbn [app]. apply (unitIssues_other u' u run Hr).
    intros E. apply Hx. rewrite E. apply in_map, Hu'.
Qed.

Lemma concat_map_filter {A B : Type} (f : A -> list B) (p : A -> bool)
  (l : list A) :
  (forall x, p x = false -> f x = []) ->
  concat (map f (List.filter p l)) = concat (map f l).
Proof.
  intros H. induction l as [|x l IH]; [reflexivity|].
  cbn [List.filter map concat]. destruct (p x) eqn:E.
  - cbn [map concat]. rewrite IH. reflexivity.
  - rewrite (H x E), IH. reflexivity.
Qed.

Lemma unitIssues_unlisted u issues :
  mem (unit_id u) (unitsWithIssues issues) = false -> unitIssues u issues = [].
Proof.
  intros H. unfold unitIssues. apply filter_none. intros i Hi.
  apply str_eqb_neq. intros E.
  assert (Hin : mem (unit_id u) (unitsWithIssues issues) = true).
  { apply mem_In, unitsWithIssues_In. rewrite <- E. apply in_map, Hi. }
  congruence.
Qed.

End BilingualView.

(** X27. In the bilingual view of a run on a file whose units have
    distinct identifiers, the issues listed under the units, read from
    the first unit shown to the last, are the issues of the run, each one
    once and in their order; this holds for the view of all the units and
    for the view of the units with issues. *)
Theorem bilingual_view_lists_every_issue_once {host : Platform}
  (file : TranslationFile) (config : QAConfig) (w : World)
  (only_issues : bool) :
  List.NoDup (map unit_id (file_units file)) ->
  concat
    (map (fun u => unitIssues u (result_issues (fst (runQA file config w))))
       (displayUnits only_issues file
          (result_issues (fst (runQA file config w)))))
  = result_issues (fst (runQA file config w)).
Proof.
  intros Hnd.
  assert (Hall :
    map (fun u => unitIssues u (result_issues (fst (runQA file config w))))
      (file_units file)
    = unit_runs (file_units file) (file_units file) config w).
  { rewrite runQA_runs.
    apply (unitIssues_runs (file_units file) _) with (pre := []).
    - eapply Forall2_impl; [apply unit_runs_reported|].
      intros unit run [H _]. eapply Forall_impl; [exact H|].
      intros i Hi. apply Hi.
    - exact Hnd.
    - reflexivity. }
  unfold displayUnits. destruct only_issues.
  - rewrite (concat_map_filter
               (fun u =>
                  unitIssues u (result_issues (fst (runQA file config w))))
               (fun u =>
                  mem (unit_id u)
                    (unitsWithIssues
                       (result_issues (fst (runQA file config w))))))
      by (intros u; apply unitIssues_unlisted).
    rewrite Hall. symmetry. apply runQA_runs.
  - rewrite Hall. symmetry. apply runQA_runs.
Qed.

Lemma bilingual_view_lists_every_issue_once_witness :
  concat
    (map (fun u =>
            unitIssues u
              (result_issues
                 (fst (runQA (host := example_host [] [])
                         (example_file [example_unit 1 (js "OK") (js "OK");
                                        example_unit 2 (js "OK") (js "Oui")])
                         DEFAULT_CONFIG example_world))))
       (displayUnits true
          (example_file [example_unit 1 (js "OK") (js "OK");
                         example_unit 2 (js "OK") (js "Oui")])
          (result_issues
             (fst (runQA (host := example_host [] [])
                     (example_file [example_unit 1 (js "OK") (js "OK");
                                    example_unit 2 (js "OK") (js "Oui")])
                     DEFAULT_CONFIG example_world)))))
  = result_issues
      (fst (runQA (host := example_host [] [])
              (example_file [example_unit 1 (js "OK") (js "OK");
                             example_unit 2 (js "OK") (js "Oui")])
              DEFAULT_CONFIG example_world)).
Proof.
  apply (bilingual_view_lists_every_issue_once (host := example_host [] [])
           (example_file [example_unit 1 (js "OK") (js "OK");
                          example_unit 2 (js "OK") (js "Oui")])
           DEFAULT_CONFIG example_world true).
  cbn [example_file file_units map].
  constructor; [|constructor; [|constructor]].
  - cbn. intros [H|H]; [discriminate H | exact H].
  - intros H. exact H.
Defined.

(** ** One unit per element *)

Section ElementCounts.

Context {host : Platform}.

Local Open Scope nat_scope.

Lemma for_of_pushes {A : Type} (xs : list A)
  (body : A -> list TranslationUnit -> M (list TranslationUnit)) :
  (forall x s w, List.length (fst (body x s w)) = S (List.length s)) ->
  forall s w,
    List.length (fst (for_of xs body s w)) = List.length s + List.length xs.
Proof.
  intros Hbody. induction xs as [|x xs IH]; intros s w.
  - cbn. lia.
  - rewrite for_of_cons, IH, Hbody. cbn [List.length]. lia.
Qed.

Lemma for_index_pushes {A : Type} (xs : list A)
  (body : nat -> A -> list TranslationUnit -> M (list TranslationUnit)) :
  (forall i x s w, List.length (fst (body i x s w)) = S (List.length s)) ->
  forall i s w,
    List.length (fst (for_index i xs body s w))
    = List.length s + List.length xs.
Proof.
  intros Hbody. induction xs as [|x xs IH]; intros i s w.
  - cbn. lia.
  - rewrite for_index_cons, IH, Hbody. cbn [List.length]. lia.
Qed.

Lemma parseXLIFF_elements content fileName w file :
  fst (parseXLIFF content fileName w) = Returns file ->
  List.length (file_units file)
  = List.length
      (doc_getElementsByTagName (DOMParser_parseFromString content)
         (js "trans-unit")).
Proof.
  unfold parseXLIFF. destruct (0 <? _); [discriminate|].
  destruct (doc_getElementsByTagName _ (js "file")); [discriminate|].
  rewrite !bind_run. cbn [ret fst]. the_file file.
  rewrite new_file_units, for_of_pushes; [reflexivity|].
  intros unit units w'. unfold xliff_unit. rewrite bind_run.
  apply push_unit_length.
Qed.

Lemma parseRESX_elements content fileName w file :
  fst (parseRESX content fileName w) = Returns file ->
  List.length (file_units file)
  = List.length
      (doc_getElementsByTagName (DOMParser_parseFromString content)
         (js "data")).
Proof.
  unfold parseRESX. destruct (0 <? _); [discriminate|].
  rewrite !bind_run. cbn [ret fst]. the_file file.
  rewrite new_file_units, for_index_pushes; [reflexivity|].
  intros i el units w'. apply push_unit_length.
Qed.

Lemma parseTMX_elements content fileName w file :
  fst (parseTMX content fileName w) = Returns file ->
  List.length (file_units file)
  = List.length
      (doc_getElementsByTagName (DOMParser_parseFromString content)
         (js "tu")).
Proof.
  unfold parseTMX. destruct (0 <? _); [discriminate|].
  rewrite !bind_run. cbn [ret fst]. the_file file.
  rewrite new_file_units, for_index_pushes; [reflexivity|].
  intros i tu units w'. destruct (tmx_sides _). apply push_unit_length.
Qed.

End ElementCounts.

(** X28. The decoders of XLIFF, SDL XLIFF, RESX and TMX make one unit
    of every element of their kind ([trans-unit], [data], [tu]), also of
    one that lacks a source or a target: the file has as many units as
    the document has such elements. *)
Theorem one_unit_per_element {host : Platform}
  (content fileName : jsstring) (w : World) (file : TranslationFile)
  (t : FileType) (tag : jsstring) :
  detectFileType fileName = Some (Own t) ->
  unit_element t = Some tag ->
  fst (parseFile content fileName w) = Returns file ->
  List.length (file_units file)
  = List.length
      (doc_getElementsByTagName (DOMParser_parseFromString content) tag).
Proof.
  intros Hdetect Htag. unfold parseFile. rewrite Hdetect.
  destruct t; try discriminate Htag; injection Htag as <-.
  - apply parseXLIFF_elements.
  - rewrite bind_run.
    destruct (fst (parseXLIFF content fileName w)) as [result|e] eqn:E;
      [|discriminate].
    cbn [ret fst]. intros [= <-]. cbn [set_type file_units].
    apply (parseXLIFF_elements _ _ _ _ E).
  - apply parseRESX_elements.
  - apply parseTMX_elements.
Qed.

Lemma one_unit_per_element_witness :
  List.length (file_units tmx_file)
  = List.length
      (doc_getElementsByTagName
         (DOMParser_parseFromString
            (Platform := example_host [] [(tmx_text, tmx_document)]) tmx_text)
         (js "tu")).
Proof.
  apply (one_unit_per_element
           (host := example_host [] [(tmx_text, tmx_document)])
           tmx_text (js "memory.tmx") example_world tmx_file FT_tmx (js "tu")).
  - reflexivity.
  - reflexivity.
  - vm_compute. reflexivity.
Defined.

(** ** The list of supported types *)

(** X29. Every extension that [getSupportedFileTypes] lists is one the
    detector accepts: a file name made of an ASCII base name, a dot and
    a listed extension gets the tag the table gives that extension. *)
Theorem listed_types_are_detected {host : Platform} (base ext : jsstring) :
  forallb is_ascii base = true ->
  In ext getSupportedFileTypes ->
  exists t,
    In ([46%N] ++ ext, t) SUPPORTED_FILE_EXTENSIONS
    /\ detectFileType (base ++ [46%N] ++ ext) = Some (Own t).
Proof.
  intros Hbase Hin. unfold detectFileType.
  unfold getSupportedFileTypes, SUPPORTED_FILE_EXTENSIONS in Hin.
  cbn [map fst] in Hin.
  repeat (destruct Hin as [<-|Hin];
          [ rewrite extension_of_dotted;
            [ eexists; split; [|reflexivity]; cbn; tauto
            | exact Hbase
            | reflexivity
            | cbn; intros H;
              repeat (destruct H as [H|H]; [discriminate H|]); exact H ]
          | ]).
  contradiction.
Qed.

Lemma listed_types_are_detected_witness :
  exists t,
    In ([46%N] ++ js "xlf", t) SUPPORTED_FILE_EXTENSIONS
    /\ detectFileType (host := example_host [] [])
         (js "Project_1" ++ [46%N] ++ js "xlf")
       = Some (Own t).
Proof.
  apply (listed_types_are_detected (host := example_host [] [])
           (js "Project_1") (js "xlf")).
  - reflexivity.
  - cbn. tauto.
Defined.

(** ** The list of enabled rules *)

Lemma rule_entries_sublist (rules : gmap IssueType bool) (l : list IssueType) :
  sublist
    (map fst
       (List.filter (fun e : IssueType * bool => snd e)
          (omap (fun t => match rules !! t with
                          | Some enabled => Some (t, enabled)
                          | None => None
                          end) l)))
    l.
Proof.
  induction l as [|t l IH]; [constructor|]. cbn [omap list_omap].
  destruct (rules !! t) as [[|]|]; cbn [List.filter snd map fst].
  - apply sublist_skip, IH.
  - apply sublist_cons, IH.
  - apply sublist_cons, IH.
Qed.

(** X30. [getEnabledRules] lists a type exactly when the config switches
    it on, or says nothing about it and the default configuration
    switches it on; the types come in the order of their declaration,
    each one once. *)
Theorem getEnabledRules_overrides_defaults (config : QAConfig)
  (t : IssueType) :
  (In t (getEnabledRules config) <->
     match config_rules config !! t with
     | Some enabled => enabled = true
     | None => rule_enabled (config_rules DEFAULT_CONFIG) t = true
     end)
  /\ sublist (getEnabledRules config) all_issue_types
  /\ NoDup (getEnabledRules config).
Proof.
  split; [|split].
  - rewrite getEnabledRules_spec. unfold rule_enabled, merged_rules.
    rewrite lookup_union.
    destruct (config_rules config !! t) as [b|];
      destruct (config_rules DEFAULT_CONFIG !! t) as [d|]; cbn; tauto.
  - apply rule_entries_sublist.
  - eapply sublist_NoDup; [|apply rule_entries_sublist].
    apply NoDup_ListNoDup. unfold all_issue_types.
    repeat (constructor; [cbn; intuition discriminate|]). constructor.
Qed.
